(** * RimSort: Defs summaries and startup-impact metrics

    A shallow embedding of [app/utils/defs_summary.py] and
    [app/utils/startup_impact_metrics.py].

    Modelling conventions.
    - Python [str] values are [string]s; the characters stand for ASCII code
      points (so [str.lower] maps [A-Z] to [a-z], and the regex class [\d] is
      [0-9]).
    - Python [int]s are [Z] (or [N] where the code can only produce a natural
      number); a [float] modification time is only ever compared, and is
      modelled by a [Z] time stamp.
    - A [dict] or [Counter] is a [gmap]; nothing in the code depends on the
      order of its keys.
    - The file system is a finite tree, the same during one call;
      [os.scandir] lists a directory in the order of its entry list.
    - Exceptions, calls of [ET.parse] and the values a generator yields are
      recorded by a small writer/exception monad [M].
    - [defs_summary.py] is embedded twice.  The first embedding is over plain
      inputs: an XML document is the tree of its elements, each with a [str]
      tag, as [xml.etree.ElementTree] builds it, and the file system holds
      regular files, directories and dangling links, all of them readable,
      so that the errors of [os.scandir] are [FileNotFoundError] and
      [NotADirectoryError].  The second, [Full], is over the trees
      [lxml.etree] builds, in which comments and processing instructions are
      nodes whose tag is no [str], and over a file system that also holds
      looping links and directories that may not be listed.  The two agree on
      plain inputs ([get_defs_summary_embed]).  What is stated of the first
      embedding holds of plain inputs; what depends on how a lookup ends, or
      on the nodes of an lxml tree, is stated of the second. *)

From Stdlib Require Import ZArith NArith Ascii String List Lia.
From stdpp Require Import gmap strings list fin_maps.

Set Warnings "-register-all".

Local Open Scope string_scope.
Local Open Scope list_scope.
Local Open Scope Z_scope.

(** ** Python string operations *)

Module PyStr.

Definition is_digit (c : ascii) : bool :=
  let n := N_of_ascii c in ((48 <=? n) && (n <=? 57))%N.

Definition is_upper (c : ascii) : bool :=
  let n := N_of_ascii c in ((65 <=? n) && (n <=? 90))%N.

(** [str.isspace] on ASCII: tab, LF, VT, FF, CR, the separators FS, GS, RS,
    US, and the space. *)
Definition is_space (c : ascii) : bool :=
  let n := N_of_ascii c in
  (((9 <=? n) && (n <=? 13)) || ((28 <=? n) && (n <=? 32)))%N.

Definition lower_char (c : ascii) : ascii :=
  if is_upper c then ascii_of_N (N_of_ascii c + 32) else c.

(** [s.lower()] *)
Fixpoint lower (s : string) : string :=
  match s with
  | EmptyString => EmptyString
  | String c s' => String (lower_char c) (lower s')
  end.

(** [s.startswith(p)] *)
Fixpoint startswith (s p : string) : bool :=
  match p, s with
  | EmptyString, _ => true
  | String a p', String b s' => if Ascii.eqb a b then startswith s' p' else false
  | String _ _, EmptyString => false
  end.

Fixpoint rev_onto (s acc : string) : string :=
  match s with
  | EmptyString => acc
  | String c s' => rev_onto s' (String c acc)
  end.

Definition reverse (s : string) : string := rev_onto s EmptyString.

(** [s.endswith(p)] *)
Definition endswith (s p : string) : bool := startswith (reverse s) (reverse p).

Fixpoint lstrip (s : string) : string :=
  match s with
  | String c s' => if is_space c then lstrip s' else s
  | EmptyString => EmptyString
  end.

Definition rstrip (s : string) : string := reverse (lstrip (reverse s)).

(** [s.strip()] *)
Definition strip (s : string) : string := rstrip (lstrip s).

(** [s.find(c)] for a one-character needle: the index of the first
    occurrence, or [None] where Python returns [-1]. *)
Fixpoint find_char (c : ascii) (s : string) : option nat :=
  match s with
  | EmptyString => None
  | String a s' =>
      if Ascii.eqb a c then Some O
      else match find_char c s' with Some i => Some (S i) | None => None end
  end.

(** [s[n:]] *)
Fixpoint drop (n : nat) (s : string) : string :=
  match n, s with
  | O, _ => s
  | S n', String _ s' => drop n' s'
  | S _, EmptyString => EmptyString
  end.

(** Truthiness of a [str]. *)
Definition nonempty (s : string) : bool :=
  match s with EmptyString => false | String _ _ => true end.

(** The maximal prefix of decimal digits, and what follows it. *)
Fixpoint span_digits (s : string) : string * string :=
  match s with
  | String c s' =>
      if is_digit c then let (d, r) := span_digits s' in (String c d, r)
      else (EmptyString, s)
  | EmptyString => (EmptyString, EmptyString)
  end.

Definition digit_val (c : ascii) : N := (N_of_ascii c - 48)%N.

Fixpoint digits_val (s : string) (acc : N) : N :=
  match s with
  | EmptyString => acc
  | String c s' => digits_val s' (10 * acc + digit_val c)%N
  end.

(** CPython refuses to convert a decimal string of more than
    [sys.int_info.default_max_str_digits] digits (a [ValueError]). *)
Definition max_str_digits : nat := 4300.

(** [int(s)] for a non-empty string of digits (a regex group [\d+]). *)
Definition int_of_digits (s : string) : option N :=
  if Nat.ltb max_str_digits (String.length s) then None
  else Some (digits_val s 0%N).

(** The digits of an integer literal after its sign: digits with single
    underscores allowed between them.  [prev] tells whether the previous
    character was a digit. *)
Fixpoint literal_digits (s : string) (prev : bool) (acc : string) : option string :=
  match s with
  | EmptyString => if prev then Some (reverse acc) else None
  | String c s' =>
      if is_digit c then literal_digits s' true (String c acc)
      else if Ascii.eqb c "_" then
             if prev then literal_digits s' false acc else None
      else None
  end.

(** The white space [int] skips around an ASCII literal: tab, LF, VT, FF, CR
    and the space (the separators FS, GS, RS and US are white space for
    [str.strip], not here). *)
Definition is_int_space (c : ascii) : bool :=
  let n := N_of_ascii c in (((9 <=? n) && (n <=? 13)) || (n =? 32))%N.

Fixpoint lskip (f : ascii -> bool) (s : string) : string :=
  match s with
  | EmptyString => EmptyString
  | String c s' => if f c then lskip f s' else s
  end.

Definition skip_around (f : ascii -> bool) (s : string) : string :=
  reverse (lskip f (reverse (lskip f s))).

(** [int(s)] for an arbitrary [str]: surrounding white space, an optional
    sign, decimal digits. [None] stands for the [ValueError]. *)
Definition int (s : string) : option Z :=
  let body := skip_around is_int_space s in
  let '(neg, rest) :=
    match body with
    | String "-" r => (true, r)
    | String "+" r => (false, r)
    | _ => (false, body)
    end in
  match literal_digits rest false EmptyString with
  | None => None
  | Some ds =>
      match int_of_digits ds with
      | None => None
      | Some n => Some (if neg then - Z.of_N n else Z.of_N n)
      end
  end.

End PyStr.




(** ** XML documents, as [ET.parse] returns them *)

Inductive element : Type :=
  Element (tag : string) (attrib : list (string * string))
          (text : option string) (children : list element).

Definition tag_of (e : element) : string :=
  match e with Element t _ _ _ => t end.
Definition attrib_of (e : element) : list (string * string) :=
  match e with Element _ a _ _ => a end.
Definition text_of (e : element) : option string :=
  match e with Element _ _ x _ => x end.
Definition children_of (e : element) : list element :=
  match e with Element _ _ _ c => c end.

(** [root.iter()]: the element and all its descendants, in document order. *)
Fixpoint iter (e : element) : list element :=
  match e with
  | Element _ _ _ cs =>
      e :: (fix each (l : list element) : list element :=
              match l with
              | [] => []
              | c :: l' => iter c ++ each l'
              end) cs
  end.

(** [elem.get(key)] *)
Fixpoint attr_get (key : string) (a : list (string * string)) : option string :=
  match a with
  | [] => None
  | (k, v) :: a' => if String.eqb k key then Some v else attr_get key a'
  end.

(** [elem.find(t)]: the first immediate child with tag [t]. *)
Definition find_child (t : string) (e : element) : option element :=
  List.find (fun c => String.eqb (tag_of c) t) (children_of e).

(** [elem.findall(t)]: all immediate children with tag [t]. *)
Definition findall (t : string) (e : element) : list element :=
  List.filter (fun c => String.eqb (tag_of c) t) (children_of e).

(** [_strip_ns] *)
Definition _strip_ns (tag : string) : string :=
  if negb (PyStr.nonempty tag) then tag
  else if PyStr.startswith tag "{" then
         match PyStr.find_char "}" tag with
         | Some end_ => PyStr.drop (end_ + 1) tag
         | None => tag
         end
       else tag.


(** ** The file system *)

(** A regular file carries its modification time and what [ET.parse] makes
    of it ([None]: not well-formed).  [Dangling] is a symbolic link whose
    target is missing: a directory listing shows it, it is neither a file nor
    a directory, and it can be neither stat'd nor opened. *)
Inductive node : Type :=
| File (st_mtime : Z) (xml : option element)
| Dangling
| Dir (st_mtime : Z) (entries : list (string * node)).

(** A path is the list of its components below the root of the tree. *)
Definition Path : Type := list string.

(** The exceptions met.  [OSError] stands for an [OSError] that is none of
    the subclasses named here (errno [ELOOP] on a link that loops);
    [PermissionError], [OSError], [AttributeError] and [RuntimeError] arise
    in the second embedding only. *)
Inductive exn : Type :=
| FileNotFoundError
| NotADirectoryError
| IsADirectoryError
| ParseError
| KeyError
| PermissionError
| OSError
| AttributeError
| RuntimeError.

Inductive result (A : Type) : Type :=
| Ok (a : A)
| Raise (e : exn).
Arguments Ok {A} a.
Arguments Raise {A} e.

Definition is_dir (n : node) : bool :=
  match n with Dir _ _ => true | _ => false end.
Definition is_file (n : node) : bool :=
  match n with File _ _ => true | _ => false end.

Fixpoint assoc (name : string) (es : list (string * node)) : option node :=
  match es with
  | [] => None
  | (k, n) :: es' => if String.eqb k name then Some n else assoc name es'
  end.

(** What a path denotes, or the [OSError] that opening it gives. *)
Fixpoint node_at (fs : node) (p : Path) : result node :=
  match p with
  | [] => Ok fs
  | name :: p' =>
      match fs with
      | Dir _ es =>
          match assoc name es with
          | Some n => node_at n p'
          | None => Raise FileNotFoundError
          end
      | File _ _ => Raise NotADirectoryError
      | Dangling => Raise FileNotFoundError
      end
  end.

(** [os.scandir(p)], exhausted: the entries as (name, what it is). *)
Definition scandir (fs : node) (p : Path) : result (list (string * node)) :=
  match node_at fs p with
  | Ok (Dir _ es) => Ok es
  | Ok (File _ _) => Raise NotADirectoryError
  | Ok Dangling => Raise FileNotFoundError
  | Raise e => Raise e
  end.

(** [p.stat().st_mtime] *)
Definition stat_mtime (fs : node) (p : Path) : result Z :=
  match node_at fs p with
  | Ok (File m _) => Ok m
  | Ok (Dir m _) => Ok m
  | Ok Dangling => Raise FileNotFoundError
  | Raise e => Raise e
  end.

(** Directories list every name once. *)
Fixpoint wf_node (n : node) : bool :=
  match n with
  | Dir _ es =>
      bool_decide (NoDup (map fst es)) &&
      (fix all (l : list (string * node)) : bool :=
         match l with
         | [] => true
         | (_, c) :: l' => wf_node c && all l'
         end) es
  | _ => true
  end.

(** [os.walk(top)] from the node at [top]: top-down, one triple
    (directory, sub-directory names, other names) per directory. *)
Fixpoint walk_node (top : Path) (n : node) : list (Path * list string * list string) :=
  match n with
  | Dir _ es =>
      (top, map fst (List.filter (fun e => is_dir (snd e)) es),
            map fst (List.filter (fun e => negb (is_dir (snd e))) es))
      :: (fix sub (l : list (string * node)) :=
            match l with
            | [] => []
            | (name, c) :: l' => walk_node (top ++ [name]) c ++ sub l'
            end) es
  | _ => []
  end.

(** [os.walk] swallows the errors of its own directory scans. *)
Definition os_walk (fs : node) (top : Path) : list (Path * list string * list string) :=
  match node_at fs top with
  | Ok n => walk_node top n
  | Raise _ => []
  end.

(** ** Effects: exceptions, the parse log and generator yields *)

Inductive event : Type :=
| Parsed (p : Path)      (* a call of [ET.parse] on [p] *)
| Yielded (p : Path).    (* a [yield p] of a generator *)

(** A computation gives the events it performed, in order, and either a
    value or the exception that ended it. *)
Definition M (A : Type) : Type := list event * result A.

Definition ret {A} (a : A) : M A := ([], Ok a).
Definition raise {A} (e : exn) : M A := ([], Raise e).
Definition bind {A B} (m : M A) (k : A -> M B) : M B :=
  match m with
  | (l, Ok a) => let (l', r) := k a in (l ++ l', r)
  | (l, Raise e) => (l, Raise e)
  end.
Definition lift {A} (r : result A) : M A := ([], r).
Definition tell (l : list event) : M unit := (l, Ok tt).

Notation "'do' x <- m ;; k" := (bind m (fun x => k))
  (at level 10, x name, m at level 99, k at level 200, only parsing).

(** [try: body / except Exception: handler] *)
Definition try_except {A} (body : M A) (handler : exn -> M A) : M A :=
  match body with
  | (l, Ok a) => (l, Ok a)
  | (l, Raise e) => let (l', r) := handler e in (l ++ l', r)
  end.

(** [try: body / except FileNotFoundError: handler], without effects. *)
Definition except_FileNotFoundError {A} (body : result A) (handler : A) : result A :=
  match body with
  | Raise FileNotFoundError => Ok handler
  | r => r
  end.

Definition is_yield (ev : event) : bool :=
  match ev with Yielded _ => true | Parsed _ => false end.

Fixpoint yields (l : list event) : list Path :=
  match l with
  | [] => []
  | Yielded p :: l' => p :: yields l'
  | Parsed _ :: l' => yields l'
  end.

Fixpoint parses (l : list event) : list Path :=
  match l with
  | [] => []
  | Parsed p :: l' => p :: parses l'
  | Yielded _ :: l' => parses l'
  end.

(** [list(gen)]: the yielded values; the generator's other effects stay. *)
Definition list_of (gen : M unit) : M (list Path) :=
  (List.filter (fun ev => negb (is_yield ev)) (fst gen),
   match snd gen with
   | Ok _ => Ok (yields (fst gen))
   | Raise e => Raise e
   end).

(** [for x in gen: s = body(x, s)]: the body runs at each yield, between the
    generator's own effects. *)
Fixpoint for_events {S} (evs : list event) (body : Path -> S -> M S) (s : S) : M S :=
  match evs with
  | [] => ret s
  | Yielded p :: evs' => do s' <- body p s ;; for_events evs' body s'
  | ev :: evs' => do _ <- tell [ev] ;; for_events evs' body s
  end.

Definition for_in {S} (gen : M unit) (body : Path -> S -> M S) (s : S) : M S :=
  do s' <- for_events (fst gen) body s ;;
  match snd gen with
  | Ok _ => ret s'
  | Raise e => raise e
  end.

Definition yield_all (l : list Path) : M unit := tell (map Yielded l).

(** [ET.parse(str(p)).getroot()] *)
Definition ET_parse (fs : node) (p : Path) : M element :=
  (Parsed p :: nil,
   match node_at fs p with
   | Ok (File _ (Some root)) => Ok root
   | Ok (File _ None) => Raise ParseError
   | Ok (Dir _ _) => Raise IsADirectoryError
   | Ok Dangling => Raise FileNotFoundError
   | Raise e => Raise e
   end).

(** ** Version tags *)

(** A (major, minor) pair; Python compares tuples lexicographically. *)
Definition VersionTag : Type := (N * N)%type.

Definition tag_ltb (a b : VersionTag) : bool :=
  ((fst a <? fst b) || ((fst a =? fst b) && (snd a <? snd b)))%N.

Definition tag_le (a b : VersionTag) : Prop :=
  (fst a < fst b \/ (fst a = fst b /\ snd a <= snd b))%N.

(** [max(x0, *xs)]: the first of the greatest elements. *)
Definition py_max (x0 : VersionTag) (xs : list VersionTag) : VersionTag :=
  fold_left (fun best x => if tag_ltb best x then x else best) xs x0.

(** The regular expression [(\d+)\.(\d+)] matched at the start of [s]; both
    groups are greedy, and no shorter first group can be followed by a dot. *)
Definition match_here (s : string) : option (string * string) :=
  let (g1, r1) := PyStr.span_digits s in
  match g1, r1 with
  | String _ _, String "." r2 =>
      let (g2, _) := PyStr.span_digits r2 in
      match g2 with
      | String _ _ => Some (g1, g2)
      | EmptyString => None
      end
  | _, _ => None
  end.

(** [re.search(r"(\d+)\.(\d+)", s)]: the leftmost match, as its two groups. *)
Fixpoint re_search (s : string) : option (string * string) :=
  match match_here s with
  | Some g => Some g
  | None =>
      match s with
      | EmptyString => None
      | String _ s' => re_search s'
      end
  end.

(** [_normalize_version_string] *)
Definition _normalize_version_string (version : string) : option VersionTag :=
  match re_search version with
  | None => None
  | Some (g1, g2) =>
      match PyStr.int_of_digits g1, PyStr.int_of_digits g2 with
      | Some major, Some minor => Some (major, minor)
      | _, _ => None
      end
  end.


(** ** The version resolver and the file enumerator
    ([_DefsSummaryCache._iter_defs_xml_files]) *)

Definition name_is (expected : string) (name : string) : bool :=
  String.eqb (PyStr.lower name) (PyStr.lower expected).

(** The first entry of a listing that passes [test], as a path. *)
Definition first_entry (parent : Path) (test : string * node -> bool)
    (es : list (string * node)) : option Path :=
  match List.find test es with
  | Some (name, _) => Some (parent ++ [name])
  | None => None
  end.

(** [_find_case_insensitive_dir] *)
Definition _find_case_insensitive_dir (fs : node) (parent : Path)
    (expected_name : string) : result (option Path) :=
  except_FileNotFoundError
    match scandir fs parent with
    | Ok es =>
        Ok (first_entry parent
              (fun entry => is_dir (snd entry) && name_is expected_name (fst entry)) es)
    | Raise e => Raise e
    end
    None.

(** [_about_xml_path] *)
Definition _about_xml_path (fs : node) (mod_root : Path) : result (option Path) :=
  match _find_case_insensitive_dir fs mod_root "About" with
  | Raise e => Raise e
  | Ok None => Ok None
  | Ok (Some about_dir) =>
      except_FileNotFoundError
        match scandir fs about_dir with
        | Ok es =>
            Ok (first_entry about_dir
                  (fun entry => is_file (snd entry) &&
                                String.eqb (PyStr.lower (fst entry)) "about.xml") es)
        | Raise e => Raise e
        end
        None
  end.

(** The [li] children of a [supportedVersions] element: their stripped,
    non-empty texts. *)
Fixpoint li_texts (children : list element) : list string :=
  match children with
  | [] => []
  | child :: rest =>
      if String.eqb (PyStr.lower (_strip_ns (tag_of child))) "li" then
        let text := PyStr.strip (default "" (text_of child)) in
        if PyStr.nonempty text then text :: li_texts rest else li_texts rest
      else li_texts rest
  end.

(** The loop over [root.iter()], left by [break] at the first
    [supportedVersions] element. *)
Fixpoint versions_in (elems : list element) : list string :=
  match elems with
  | [] => []
  | elem :: rest =>
      if String.eqb (PyStr.lower (_strip_ns (tag_of elem))) "supportedversions"
      then li_texts (children_of elem)
      else versions_in rest
  end.

(** [_parse_supported_versions]; the manifest is looked up before the [try]. *)
Definition _parse_supported_versions (fs : node) (mod_root : Path) : M (list string) :=
  do path <- lift (_about_xml_path fs mod_root) ;;
  match path with
  | None => ret []
  | Some path =>
      try_except
        (do root <- ET_parse fs path ;; ret (versions_in (iter root)))
        (fun _ => ret [])
  end.

(** The body of the loop of [_find_available_version_dirs]: a later
    directory with the same tag replaces an earlier one. *)
Definition add_version_dir (mod_root : Path) (mapping : gmap VersionTag Path)
    (entry : string * node) : gmap VersionTag Path :=
  if negb (is_dir (snd entry)) then mapping
  else match _normalize_version_string (fst entry) with
       | Some norm => <[norm := mod_root ++ [fst entry]]> mapping
       | None => mapping
       end.

(** [_find_available_version_dirs] *)
Definition _find_available_version_dirs (fs : node) (mod_root : Path)
    : result (gmap VersionTag Path) :=
  except_FileNotFoundError
    match scandir fs mod_root with
    | Ok es => Ok (fold_left (add_version_dir mod_root) es ∅)
    | Raise e => Raise e
    end
    ∅.

(** [available[chosen]] *)
Definition getitem (available : gmap VersionTag Path) (chosen : VersionTag) : M Path :=
  match available !! chosen with
  | Some d => ret d
  | None => raise KeyError
  end.

(** The choice of [_choose_version_dir] once the manifest and the directory
    have been read. *)
Definition choose_from (supported : list string) (available : gmap VersionTag Path)
    : M (option Path) :=
  let supported_norm := omap _normalize_version_string supported in
  let candidates :=
    List.filter (fun nv => bool_decide (is_Some (available !! nv))) supported_norm in
  match candidates with
  | c :: cs => do d <- getitem available (py_max c cs) ;; ret (Some d)
  | [] =>
      match (map_to_list available).*1 with
      | k :: ks => do d <- getitem available (py_max k ks) ;; ret (Some d)
      | [] => ret None
      end
  end.

(** [_choose_version_dir] *)
Definition _choose_version_dir (fs : node) (mod_root : Path) : M (option Path) :=
  do supported <- _parse_supported_versions fs mod_root ;;
  do available <- lift (_find_available_version_dirs fs mod_root) ;;
  choose_from supported available.

(** The paths the two nested loops over [os.walk(defs)] yield. *)
Definition xml_files (walked : list (Path * list string * list string)) : list Path :=
  flat_map
    (fun '(r, _, files) =>
       map (fun file => r ++ [file])
           (List.filter (fun file => PyStr.endswith (PyStr.lower file) ".xml") files))
    walked.

(** [_iter_defs_xml_files], a generator. *)
Definition _iter_defs_xml_files (fs : node) (mod_path : Path) : M unit :=
  do root_defs <- lift (_find_case_insensitive_dir fs mod_path "Defs") ;;
  do _ <- match root_defs with
          | Some root_defs => yield_all (xml_files (os_walk fs root_defs))
          | None => ret tt
          end ;;
  do version_dir <- _choose_version_dir fs mod_path ;;
  match version_dir with
  | Some version_dir =>
      do version_defs <- lift (_find_case_insensitive_dir fs version_dir "Defs") ;;
      match version_defs with
      | Some version_defs => yield_all (xml_files (os_walk fs version_defs))
      | None => ret tt
      end
  | None => ret tt
  end.

(** ** Signatures ([_DefsSummaryCache._compute_signature]) *)

(** (number of files, latest modification time) *)
Definition Signature : Type := (Z * Z)%type.

(** The body of the loop over [files]: a file that cannot be stat'd is
    passed over. *)
Definition newer (fs : node) (latest_mtime : Z) (f : Path) : Z :=
  match stat_mtime fs f with
  | Ok mtime => if latest_mtime <? mtime then mtime else latest_mtime
  | Raise _ => latest_mtime
  end.

Definition latest_mtime_of (fs : node) (files : list Path) : Z :=
  fold_left (newer fs) files 0.

Definition signature_of (fs : node) (files : list Path) : Signature :=
  match files with
  | [] => (0, 0)
  | _ :: _ => (Z.of_nat (length files), latest_mtime_of fs files)
  end.

Definition _compute_signature (fs : node) (mod_path : Path) : M Signature :=
  do files <- list_of (_iter_defs_xml_files fs mod_path) ;;
  ret (signature_of fs files).

(** ** Scanning ([_DefsSummaryCache._scan_defs]) *)

Record DefsSummary : Type := mkDefsSummary {
  total_defs : Z;
  type_counts : gmap string Z;
  files_scanned : Z
}.

Definition zero_summary : DefsSummary := mkDefsSummary 0 ∅ 0.

(** [counter[key]]: a [Counter] reads 0 for a missing key. *)
Definition count (counter : gmap string Z) (key : string) : Z :=
  default 0 (counter !! key).

(** [counter[key] += 1] *)
Definition incr (counter : gmap string Z) (key : string) : gmap string Z :=
  <[key := count counter key + 1]> counter.

(** [sum(counter.values())] *)
Definition sum_values (counter : gmap string Z) : Z :=
  map_fold (fun _ v acc => v + acc) 0 counter.

(** The loop over the immediate children of a [Defs] root. *)
Definition count_children (children : list element) (type_counter : gmap string Z)
    : gmap string Z :=
  fold_left
    (fun counter child =>
       let child_tag := _strip_ns (tag_of child) in
       if PyStr.nonempty child_tag then incr counter child_tag else counter)
    children type_counter.

(** The loop-carried state of [_scan_defs]: [type_counter], [files_scanned]. *)
Definition ScanState : Type := (gmap string Z * Z)%type.

(** What the body of the loop does with a parsed document. *)
Definition scan_root (root : element) (st : ScanState) : ScanState :=
  let tag_no_ns := _strip_ns (tag_of root) in
  if negb (String.eqb (PyStr.lower tag_no_ns) "defs") then st
  else (count_children (children_of root) (fst st), snd st + 1).

(** The body of the loop: [try] ... [except Exception: continue]. *)
Definition scan_file (fs : node) (xml_path : Path) (st : ScanState) : M ScanState :=
  try_except
    (do root <- ET_parse fs xml_path ;; ret (scan_root root st))
    (fun _ => ret st).

Definition summary_of (st : ScanState) : DefsSummary :=
  mkDefsSummary (sum_values (fst st)) (fst st) (snd st).

Definition _scan_defs (fs : node) (mod_path : Path) : M DefsSummary :=
  do st <- for_in (_iter_defs_xml_files fs mod_path) (scan_file fs) (∅, 0) ;;
  ret (summary_of st).

(** ** The cache ([_DefsSummaryCache.get], [get_defs_summary]) *)

Section Cache.

(** [str(Path(mod_path).resolve())], the cache key. *)
Variable resolve : Path -> string.

(** [_DefsSummaryCache.get]: the summary and the cache afterwards. *)
Definition get (cache : gmap string (Signature * DefsSummary)) (fs : node)
    (mod_path : Path) : M (DefsSummary * gmap string (Signature * DefsSummary)) :=
  let path_key := resolve mod_path in
  do signature <- _compute_signature fs mod_path ;;
  let rescan :=
    do summary <- _scan_defs fs mod_path ;;
    ret (summary, <[path_key := (signature, summary)]> cache) in
  match cache !! path_key with
  | Some cached =>
      if bool_decide (fst cached = signature) then ret (snd cached, cache)
      else rescan
  | None => rescan
  end.

(** [get_defs_summary], on the module's one cache. *)
Definition get_defs_summary := get.

End Cache.

(** ** The startup-impact metrics reader ([startup_impact_metrics.py]) *)

Module Metrics.

(** The module's two globals. *)
Record globals : Type := mkGlobals {
  _cache : option (gmap string Z);
  _max_total_ms : option Z
}.

Definition initial : globals := mkGlobals None None.

(** The metrics file at its fixed location: [None] when it does not exist,
    otherwise what [ET.parse] makes of it ([None]: not well-formed). *)
Definition metrics_file : Type := option (option element).

(** What a call does to the file. *)
Inductive access : Type :=
| Probed     (* [candidate.exists()] *)
| Read.      (* [ET.parse(metrics_file)] *)

(** Truthiness of an attribute value: [None] and [""] are false. *)
Definition truthy (v : option string) : bool :=
  match v with Some s => PyStr.nonempty s | None => false end.

(** The loop over [mods.findall("Mod")]. *)
Definition collect (mods : list element) : gmap string Z :=
  fold_left
    (fun (metrics : gmap string Z) mod_el =>
       let name := attr_get "name" (attrib_of mod_el) in
       let total_ms_str := attr_get "totalMs" (attrib_of mod_el) in
       if negb (truthy name) || negb (truthy total_ms_str) then metrics
       else match PyStr.int (default "" total_ms_str) with
            | None => metrics
            | Some total_ms =>
                if total_ms <=? 0 then metrics
                else <[PyStr.lower (default "" name) := total_ms]> metrics
            end)
    mods ∅.

(** [max(metrics.values()) if metrics else 0] *)
Definition max_or_zero (metrics : gmap string Z) : Z :=
  match (map_to_list metrics).*2 with
  | [] => 0
  | v :: vs => fold_left Z.max vs v
  end.

(** [get_total_ms_by_mod_name]: the mapping returned, the globals afterwards
    and the accesses to the metrics file. *)
Definition get_total_ms_by_mod_name (file : metrics_file) (g : globals)
    : gmap string Z * globals * list access :=
  match _cache g with
  | Some cached => (cached, g, [])
  | None =>
      match file with
      | None => (∅, mkGlobals (Some ∅) (_max_total_ms g), [Probed])
      | Some parsed =>
          match parsed with
          | Some root =>
              match find_child "Mods" root with
              | None => (∅, mkGlobals (Some ∅) (_max_total_ms g), [Probed; Read])
              | Some mods =>
                  let metrics := collect (findall "Mod" mods) in
                  (metrics, mkGlobals (Some metrics) (Some (max_or_zero metrics)),
                   [Probed; Read])
              end
          | None =>
              (* [except Exception: metrics = {}] *)
              (∅, mkGlobals (Some ∅) (Some 0), [Probed; Read])
          end
      end
  end.

(** [get_max_total_ms] *)
Definition get_max_total_ms (file : metrics_file) (g : globals)
    : Z * globals * list access :=
  match _max_total_ms g with
  | Some m => (m, g, [])
  | None =>
      let '(metrics, g', log) := get_total_ms_by_mod_name file g in
      let m := max_or_zero metrics in
      (m, mkGlobals (_cache g') (Some m), log)
  end.

(** A later use of the module, with the metrics file as it is at that time. *)
Inductive call : Type :=
| CallTotal (file : metrics_file)
| CallMax (file : metrics_file).

Definition step (g : globals) (c : call) : globals :=
  match c with
  | CallTotal file => snd (fst (get_total_ms_by_mod_name file g))
  | CallMax file => snd (fst (get_max_total_ms file g))
  end.

Definition run (calls : list call) (g : globals) : globals :=
  fold_left step calls g.

End Metrics.

(** ** The same code over lxml trees and entries that cannot be read

    [defs_summary.py] imports [lxml.etree] when it is installed, and its
    directory lookups catch [FileNotFoundError] only.  This second embedding
    of the module keeps what the first one leaves out: the comments and
    processing instructions of an lxml tree, links on which
    [DirEntry.is_dir()] and [DirEntry.is_file()] raise, and directories
    that may not be listed.  On a tree of regular files, directories and
    dangling links whose documents hold elements only, the two embeddings
    agree ([embed], [get_defs_summary_embed]). *)

Module Full.

(** A node of an lxml tree.  The tag of an element is a [str]; the tag of a
    comment or of a processing instruction is a function ([etree.Comment],
    [etree.ProcessingInstruction]): [tag = None].  Both are among the
    children of their parent and in [root.iter()]. *)
Inductive element : Type :=
  Element (tag : option string) (attrib : list (string * string))
          (text : option string) (children : list element).

Definition tag_of (e : element) : option string :=
  match e with Element t _ _ _ => t end.
Definition text_of (e : element) : option string :=
  match e with Element _ _ x _ => x end.
Definition children_of (e : element) : list element :=
  match e with Element _ _ _ c => c end.

(** [root.iter()]: the node and all its descendants, in document order. *)
Fixpoint iter (e : element) : list element :=
  match e with
  | Element _ _ _ cs =>
      e :: (fix each (l : list element) : list element :=
              match l with
              | [] => []
              | c :: l' => iter c ++ each l'
              end) cs
  end.

(** [_strip_ns] on a [str], as above. *)
Definition str_strip_ns (tag : string) : string := _strip_ns tag.

(** [_strip_ns(tag)]: a tag that is not a [str] is truthy and has no
    [startswith]. *)
Definition _strip_ns (tag : option string) : result string :=
  match tag with
  | Some tag => Ok (str_strip_ns tag)
  | None => Raise AttributeError
  end.

(** A regular file, a link whose target is missing, a link that loops (or
    any entry whose [stat] fails with an [OSError] other than
    [FileNotFoundError]), and a directory, which the process may read
    ([readable]) or may neither list nor search. *)
Inductive node : Type :=
| File (st_mtime : Z) (xml : option element)
| Dangling
| Looping
| Dir (readable : bool) (st_mtime : Z) (entries : list (string * node)).

(** [entry.is_dir()] and [entry.is_file()]: both follow links, answer
    [False] when the target is missing and let every other [OSError]
    through. *)
Definition is_dir (n : node) : result bool :=
  match n with
  | Dir _ _ _ => Ok true
  | Looping => Raise OSError
  | _ => Ok false
  end.

Definition is_file (n : node) : result bool :=
  match n with
  | File _ _ => Ok true
  | Looping => Raise OSError
  | _ => Ok false
  end.

Fixpoint assoc (name : string) (es : list (string * node)) : option node :=
  match es with
  | [] => None
  | (k, n) :: es' => if String.eqb k name then Some n else assoc name es'
  end.

(** What a path denotes, or the [OSError] that opening it gives. *)
Fixpoint node_at (fs : node) (p : Path) : result node :=
  match p with
  | [] => Ok fs
  | name :: p' =>
      match fs with
      | Dir true _ es =>
          match assoc name es with
          | Some n => node_at n p'
          | None => Raise FileNotFoundError
          end
      | Dir false _ _ => Raise PermissionError
      | File _ _ => Raise NotADirectoryError
      | Dangling => Raise FileNotFoundError
      | Looping => Raise OSError
      end
  end.

(** [os.scandir(p)], exhausted: the entries as (name, what it is). *)
Definition scandir (fs : node) (p : Path) : result (list (string * node)) :=
  match node_at fs p with
  | Ok (Dir true _ es) => Ok es
  | Ok (Dir false _ _) => Raise PermissionError
  | Ok (File _ _) => Raise NotADirectoryError
  | Ok Dangling => Raise FileNotFoundError
  | Ok Looping => Raise OSError
  | Raise e => Raise e
  end.

(** [p.stat().st_mtime] *)
Definition stat_mtime (fs : node) (p : Path) : result Z :=
  match node_at fs p with
  | Ok (File m _) => Ok m
  | Ok (Dir _ m _) => Ok m
  | Ok Dangling => Raise FileNotFoundError
  | Ok Looping => Raise OSError
  | Raise e => Raise e
  end.

(** Directories list every name once. *)
Fixpoint wf_node (n : node) : bool :=
  match n with
  | Dir _ _ es =>
      bool_decide (NoDup (map fst es)) &&
      (fix all (l : list (string * node)) : bool :=
         match l with
         | [] => true
         | (_, c) :: l' => wf_node c && all l'
         end) es
  | _ => true
  end.

(** [os.walk] sorts an entry under the sub-directories when [is_dir()]
    says so, and under the other names when it says no or raises. *)
Definition walks_as_dir (n : node) : bool :=
  match is_dir n with
  | Ok b => b
  | Raise _ => false
  end.

(** [os.walk(top)] from the node at [top]: top-down, one triple per
    directory it can list; a directory it cannot list gives none. *)
Fixpoint walk_node (top : Path) (n : node) : list (Path * list string * list string) :=
  match n with
  | Dir true _ es =>
      (top, map fst (List.filter (fun e => walks_as_dir (snd e)) es),
            map fst (List.filter (fun e => negb (walks_as_dir (snd e))) es))
      :: (fix sub (l : list (string * node)) :=
            match l with
            | [] => []
            | (name, c) :: l' => walk_node (top ++ [name]) c ++ sub l'
            end) es
  | _ => []
  end.

Definition os_walk (fs : node) (top : Path) : list (Path * list string * list string) :=
  match node_at fs top with
  | Ok n => walk_node top n
  | Raise _ => []
  end.

(** [ET.parse(str(p)).getroot()] *)
Definition ET_parse (fs : node) (p : Path) : M element :=
  (Parsed p :: nil,
   match node_at fs p with
   | Ok (File _ (Some root)) => Ok root
   | Ok (File _ None) => Raise ParseError
   | Ok (Dir _ _ _) => Raise IsADirectoryError
   | Ok Dangling => Raise FileNotFoundError
   | Ok Looping => Raise OSError
   | Raise e => Raise e
   end).

(** The loop [for entry in os.scandir(parent): if entry.<type>() and
    <name test>: return Path(entry.path)]: the type is tested first, on
    every entry up to the one returned. *)
Fixpoint find_entry (parent : Path) (type_test : node -> result bool)
    (name_test : string -> bool) (es : list (string * node)) : result (option Path) :=
  match es with
  | [] => Ok None
  | (name, n) :: es' =>
      match type_test n with
      | Raise e => Raise e
      | Ok b =>
          if b && name_test name then Ok (Some (parent ++ [name]))
          else find_entry parent type_test name_test es'
      end
  end.

(** [_find_case_insensitive_dir] *)
Definition _find_case_insensitive_dir (fs : node) (parent : Path)
    (expected_name : string) : result (option Path) :=
  except_FileNotFoundError
    match scandir fs parent with
    | Ok es => find_entry parent is_dir (name_is expected_name) es
    | Raise e => Raise e
    end
    None.

(** [_about_xml_path] *)
Definition _about_xml_path (fs : node) (mod_root : Path) : result (option Path) :=
  match _find_case_insensitive_dir fs mod_root "About" with
  | Raise e => Raise e
  | Ok None => Ok None
  | Ok (Some about_dir) =>
      except_FileNotFoundError
        match scandir fs about_dir with
        | Ok es =>
            find_entry about_dir is_file
              (fun name => String.eqb (PyStr.lower name) "about.xml") es
        | Raise e => Raise e
        end
        None
  end.

(** The loop over the children of a [supportedVersions] element; [versions]
    is local, so what was appended before an exception is lost with it. *)
Fixpoint li_texts (children : list element) (versions : list string)
    : result (list string) :=
  match children with
  | [] => Ok versions
  | child :: rest =>
      match _strip_ns (tag_of child) with
      | Raise e => Raise e
      | Ok tag =>
          if String.eqb (PyStr.lower tag) "li" then
            let text := PyStr.strip (default "" (text_of child)) in
            if PyStr.nonempty text then li_texts rest (versions ++ [text])
            else li_texts rest versions
          else li_texts rest versions
      end
  end.

(** The loop over [root.iter()], left by [break] at the first
    [supportedVersions] element. *)
Fixpoint versions_in (elems : list element) : result (list string) :=
  match elems with
  | [] => Ok []
  | elem :: rest =>
      match _strip_ns (tag_of elem) with
      | Raise e => Raise e
      | Ok tag =>
          if String.eqb (PyStr.lower tag) "supportedversions"
          then li_texts (children_of elem) []
          else versions_in rest
      end
  end.

(** [_parse_supported_versions]; the manifest is looked up before the [try]. *)
Definition _parse_supported_versions (fs : node) (mod_root : Path) : M (list string) :=
  do path <- lift (_about_xml_path fs mod_root) ;;
  match path with
  | None => ret []
  | Some path =>
      try_except
        (do root <- ET_parse fs path ;; lift (versions_in (iter root)))
        (fun _ => ret [])
  end.

(** The loop of [_find_available_version_dirs]: every entry is type-tested;
    a later directory with the same tag replaces an earlier one. *)
Fixpoint add_version_dirs (mod_root : Path) (es : list (string * node))
    (mapping : gmap VersionTag Path) : result (gmap VersionTag Path) :=
  match es with
  | [] => Ok mapping
  | (name, n) :: es' =>
      match is_dir n with
      | Raise e => Raise e
      | Ok false => add_version_dirs mod_root es' mapping
      | Ok true =>
          match _normalize_version_string name with
          | Some norm => add_version_dirs mod_root es' (<[norm := mod_root ++ [name]]> mapping)
          | None => add_version_dirs mod_root es' mapping
          end
      end
  end.

(** [_find_available_version_dirs]; [FileNotFoundError] comes from
    [os.scandir] alone, before anything is in the mapping. *)
Definition _find_available_version_dirs (fs : node) (mod_root : Path)
    : result (gmap VersionTag Path) :=
  except_FileNotFoundError
    match scandir fs mod_root with
    | Ok es => add_version_dirs mod_root es ∅
    | Raise e => Raise e
    end
    ∅.

(** [_choose_version_dir] *)
Definition _choose_version_dir (fs : node) (mod_root : Path) : M (option Path) :=
  do supported <- _parse_supported_versions fs mod_root ;;
  do available <- lift (_find_available_version_dirs fs mod_root) ;;
  choose_from supported available.

(** [_iter_defs_xml_files], a generator. *)
Definition _iter_defs_xml_files (fs : node) (mod_path : Path) : M unit :=
  do root_defs <- lift (_find_case_insensitive_dir fs mod_path "Defs") ;;
  do _ <- match root_defs with
          | Some root_defs => yield_all (xml_files (os_walk fs root_defs))
          | None => ret tt
          end ;;
  do version_dir <- _choose_version_dir fs mod_path ;;
  match version_dir with
  | Some version_dir =>
      do version_defs <- lift (_find_case_insensitive_dir fs version_dir "Defs") ;;
      match version_defs with
      | Some version_defs => yield_all (xml_files (os_walk fs version_defs))
      | None => ret tt
      end
  | None => ret tt
  end.

(** [_compute_signature] *)
Definition newer (fs : node) (latest_mtime : Z) (f : Path) : Z :=
  match stat_mtime fs f with
  | Ok mtime => if latest_mtime <? mtime then mtime else latest_mtime
  | Raise _ => latest_mtime
  end.

Definition latest_mtime_of (fs : node) (files : list Path) : Z :=
  fold_left (newer fs) files 0.

Definition signature_of (fs : node) (files : list Path) : Signature :=
  match files with
  | [] => (0, 0)
  | _ :: _ => (Z.of_nat (length files), latest_mtime_of fs files)
  end.

Definition _compute_signature (fs : node) (mod_path : Path) : M Signature :=
  do files <- list_of (_iter_defs_xml_files fs mod_path) ;;
  ret (signature_of fs files).

(** The loop over the immediate children of a [Defs] root: the counter as
    the loop leaves it, and the exception that ended it, if one did. *)
Fixpoint count_children (children : list element) (type_counter : gmap string Z)
    : gmap string Z * result unit :=
  match children with
  | [] => (type_counter, Ok tt)
  | child :: rest =>
      match _strip_ns (tag_of child) with
      | Raise e => (type_counter, Raise e)
      | Ok child_tag =>
          count_children rest
            (if PyStr.nonempty child_tag then incr type_counter child_tag
             else type_counter)
      end
  end.

(** The body of the [try] of [_scan_defs] on a parsed document: the state
    as the body leaves it, and the exception that ended it, if one did. *)
Definition scan_root (root : element) (st : ScanState) : ScanState * result unit :=
  match _strip_ns (tag_of root) with
  | Raise e => (st, Raise e)
  | Ok tag_no_ns =>
      if negb (String.eqb (PyStr.lower tag_no_ns) "defs") then (st, Ok tt)
      else
        match count_children (children_of root) (fst st) with
        | (counter, Ok _) => ((counter, snd st + 1), Ok tt)
        | (counter, Raise e) => ((counter, snd st), Raise e)
        end
  end.

(** The body of the loop: [try] ... [except Exception: continue].  What the
    body did to [type_counter] before the exception stays. *)
Definition scan_file (fs : node) (xml_path : Path) (st : ScanState) : M ScanState :=
  match ET_parse fs xml_path with
  | (l, Ok root) => (l, Ok (fst (scan_root root st)))
  | (l, Raise _) => (l, Ok st)
  end.

(** [_scan_defs] *)
Definition _scan_defs (fs : node) (mod_path : Path) : M DefsSummary :=
  do st <- for_in (_iter_defs_xml_files fs mod_path) (scan_file fs) (∅, 0) ;;
  ret (summary_of st).

Section Cache.

(** [str(Path(mod_path).resolve())], the cache key; before Python 3.13
    [Path.resolve] raises [RuntimeError] on a link that loops. *)
Variable resolve : Path -> result string.

(** [_DefsSummaryCache.get]: the summary and the cache afterwards. *)
Definition get (cache : gmap string (Signature * DefsSummary)) (fs : node)
    (mod_path : Path) : M (DefsSummary * gmap string (Signature * DefsSummary)) :=
  do path_key <- lift (resolve mod_path) ;;
  do signature <- _compute_signature fs mod_path ;;
  let rescan :=
    do summary <- _scan_defs fs mod_path ;;
    ret (summary, <[path_key := (signature, summary)]> cache) in
  match cache !! path_key with
  | Some cached =>
      if bool_decide (fst cached = signature) then ret (snd cached, cache)
      else rescan
  | None => rescan
  end.

(** [get_defs_summary], on the module's one cache. *)
Definition get_defs_summary := get.

End Cache.

(** *** Vocabulary *)

(** [entry] is what a lookup returns: its type test says yes and its name
    passes. *)
Definition hit (type_test : node -> result bool) (name_test : string -> bool)
    (entry : string * node) : Prop :=
  type_test (snd entry) = Ok true /\ name_test (fst entry) = true.

(** The lookup goes past every entry of [es]: each can be type-tested and
    none is a hit. *)
Definition passed_over (type_test : node -> result bool)
    (name_test : string -> bool) (es : list (string * node)) : Prop :=
  forall entry, entry ∈ es ->
    (exists b, type_test (snd entry) = Ok b) /\ ~ hit type_test name_test entry.

(** The type tests of [entry] do not raise. *)
Definition testable (entry : string * node) : bool :=
  match snd entry with
  | Looping => false
  | _ => true
  end.

(** A directory that can be listed and whose entries can all be
    type-tested; anything that is no directory passes. *)
Definition listable (n : node) : bool :=
  match n with
  | Dir true _ es => forallb testable es
  | Dir false _ _ => false
  | _ => true
  end.

(** The name of a folder the enumerator may look into: [About] up to case,
    or a name with a version tag. *)
Definition looked_into (name : string) : bool :=
  name_is "About" name || bool_decide (is_Some (_normalize_version_string name)).

(** No lookup under the mod root can raise: there is nothing at the path,
    or it is a directory that can be listed, all its entries can be
    type-tested, and so can the entries of its About and version folders,
    which can be listed. *)
Definition lookups_clean (fs : node) (mod_path : Path) : bool :=
  match scandir fs mod_path with
  | Ok es =>
      forallb testable es &&
      forallb (fun entry => negb (looked_into (fst entry)) || listable (snd entry)) es
  | Raise FileNotFoundError => true
  | Raise _ => false
  end.

(** The caches the module can hold. *)
Inductive reachable (resolve : Path -> result string)
    : gmap string (Signature * DefsSummary) -> Prop :=
| reachable_initial : reachable resolve ∅
| reachable_get cache fs mod_path log s cache' :
    reachable resolve cache ->
    get_defs_summary resolve cache fs mod_path = (log, Ok (s, cache')) ->
    reachable resolve cache'.

(** The root [ET.parse] gives for [f], if it gives one. *)
Definition parsed_root (fs : node) (f : Path) : option element :=
  match node_at fs f with
  | Ok (File _ (Some root)) => Some root
  | _ => None
  end.

(** The effect of one iteration of the scan on its state. *)
Definition scan_step (fs : node) (st : ScanState) (f : Path) : ScanState :=
  match parsed_root fs f with
  | Some root => fst (scan_root root st)
  | None => st
  end.

Definition scan_files (fs : node) (files : list Path) (st : ScanState) : ScanState :=
  fold_left (scan_step fs) files st.

(** Every tag is a [str]. *)
Definition str_tagged (l : list element) : bool :=
  forallb (fun e => bool_decide (is_Some (tag_of e))) l.

(** The local name of a node whose tag is a [str]; for the others the empty
    string, which no test of the code accepts. *)
Definition local_name (e : element) : string :=
  match tag_of e with
  | Some tag => str_strip_ns tag
  | None => ""
  end.

(** The children before the first one whose tag is no [str]. *)
Fixpoint leading_elements (children : list element) : list element :=
  match children with
  | [] => []
  | child :: rest =>
      match tag_of child with
      | Some _ => child :: leading_elements rest
      | None => []
      end
  end.

(** The number of nodes of [l] whose local name is [k], and the number of
    those with a non-empty local name. *)
Definition tagged (k : string) (l : list element) : Z :=
  Z.of_nat (length (List.filter (fun c => String.eqb (local_name c) k) l)).

Definition named (l : list element) : Z :=
  Z.of_nat (length (List.filter (fun c => PyStr.nonempty (local_name c)) l)).

(** The root of [f] when [f] parses as a definitions container. *)
Definition defs_root (fs : node) (f : Path) : option element :=
  match parsed_root fs f with
  | Some root =>
      if String.eqb (PyStr.lower (local_name root)) "defs" then Some root else None
  | None => None
  end.

(** What one file contributes to the counter of [k], to the total and to
    the number of files scanned: its children are counted up to the first
    one whose tag is no [str], and the file counts as scanned when there is
    no such child. *)
Definition file_tagged (fs : node) (k : string) (f : Path) : Z :=
  match defs_root fs f with
  | Some root =>
      if PyStr.nonempty k then tagged k (leading_elements (children_of root)) else 0
  | None => 0
  end.

Definition file_defs (fs : node) (f : Path) : Z :=
  match defs_root fs f with
  | Some root => named (leading_elements (children_of root))
  | None => 0
  end.

Definition file_scanned (fs : node) (f : Path) : Z :=
  match defs_root fs f with
  | Some root => if str_tagged (children_of root) then 1 else 0
  | None => 0
  end.

(** [e] is an element whose local name is [name] up to case. *)
Definition is_named (name : string) (e : element) : bool :=
  String.eqb (PyStr.lower (local_name e)) name.

(** The versions a [supportedVersions] element lists: the stripped texts of
    its [li] children, the empty ones left out. *)
Definition li_versions (children : list element) : list string :=
  List.filter PyStr.nonempty
    (map (fun child => PyStr.strip (default "" (text_of child)))
         (List.filter (is_named "li") children)).

(** The versions a manifest declares: those of its first
    [supportedVersions] element, in document order. *)
Definition declared_versions (root : element) : list string :=
  match List.find (is_named "supportedversions") (iter root) with
  | Some elem => li_versions (children_of elem)
  | None => []
  end.

(** The nodes whose tag the manifest reader looks at: in document order up
    to the first [supportedVersions] element, and the children of that
    element. *)
Fixpoint inspected (nodes : list element) : list element :=
  match nodes with
  | [] => []
  | elem :: rest =>
      if is_named "supportedversions" elem then elem :: children_of elem
      else elem :: inspected rest
  end.

End Full.

(** ** Vocabulary of the statements *)

(** The mod root is an existing directory, or there is nothing at its path. *)
Definition dir_or_missing (fs : node) (p : Path) : bool :=
  match scandir fs p with
  | Ok _ | Raise FileNotFoundError => true
  | Raise _ => false
  end.

(** The resolver's choice, as the claim words it: the directory of the
    greatest declared-and-present tag; failing that, of the greatest tag
    present; failing that, nothing. *)
Definition resolved (declared : list VersionTag) (available : gmap VersionTag Path)
    (r : option Path) : Prop :=
  let candidate t := t ∈ declared /\ is_Some (available !! t) in
  ((exists t, candidate t) ->
   exists t d, r = Some d /\ available !! t = Some d /\ candidate t /\
               forall t', candidate t' -> tag_le t' t) /\
  (~ (exists t, candidate t) -> available <> ∅ ->
   exists t d, r = Some d /\ available !! t = Some d /\
               forall t', is_Some (available !! t') -> tag_le t' t) /\
  (~ (exists t, candidate t) -> available = ∅ -> r = None).

(** The events of reading the manifest, when the mod has one. *)
Definition manifest_log (a : option Path) : list event :=
  match a with
  | Some path => [Parsed path]
  | None => []
  end.

(** The files the generator yields from the root-level [Defs] directory. *)
Definition root_defs_files (fs : node) (mod_path : Path) : list Path :=
  match _find_case_insensitive_dir fs mod_path "Defs" with
  | Ok (Some d) => xml_files (os_walk fs d)
  | _ => []
  end.

(** The files it yields from the [Defs] directory of the resolved version
    directory. *)
Definition version_defs_files (fs : node) (mod_path : Path) : list Path :=
  match snd (_choose_version_dir fs mod_path) with
  | Ok (Some v) =>
      match _find_case_insensitive_dir fs v "Defs" with
      | Ok (Some d) => xml_files (os_walk fs d)
      | _ => []
      end
  | _ => []
  end.



(** [f] is a file somewhere below the directory [d], and its name ends in
    [.xml] up to case. *)
Definition xml_file_under (fs : node) (d f : Path) : Prop :=
  exists rel name c, f = d ++ rel ++ [name] /\ node_at fs f = Ok c /\
                     is_dir c = false /\
                     PyStr.endswith (PyStr.lower name) ".xml" = true.

(** The root element [ET.parse] gives for [f], if it gives one. *)
Definition parsed_root (fs : node) (f : Path) : option element :=
  match node_at fs f with
  | Ok (File _ (Some root)) => Some root
  | _ => None
  end.

(** The effect of one iteration of the scan on its state. *)
Definition scan_step (fs : node) (st : ScanState) (f : Path) : ScanState :=
  match parsed_root fs f with
  | Some root => scan_root root st
  | None => st
  end.

Definition scan_files (fs : node) (files : list Path) (st : ScanState) : ScanState :=
  fold_left (scan_step fs) files st.

(** The parse log of a scan: every yielded file is parsed, between the
    generator's own parses. *)
Definition scan_log (evs : list event) : list event :=
  map (fun ev => match ev with Yielded p => Parsed p | Parsed p => Parsed p end) evs.

(** The number of immediate children whose local tag name is [k]. *)
Definition tagged (k : string) (children : list element) : Z :=
  Z.of_nat (length (List.filter (fun c => String.eqb (_strip_ns (tag_of c)) k) children)).

(** The number of immediate children with a non-empty local tag name. *)
Definition named_children (children : list element) : Z :=
  Z.of_nat (length (List.filter (fun c => PyStr.nonempty (_strip_ns (tag_of c))) children)).

(** Keys are non-empty and counts positive. *)
Definition counter_ok (counter : gmap string Z) : Prop :=
  forall k v, counter !! k = Some v -> k <> "" /\ 0 < v.

(** The root of [f] when [f] parses as a definitions container. *)
Definition defs_root (fs : node) (f : Path) : option element :=
  match parsed_root fs f with
  | Some root =>
      if String.eqb (PyStr.lower (_strip_ns (tag_of root))) "defs" then Some root
      else None
  | None => None
  end.

Definition zsum (l : list Z) : Z := fold_right Z.add 0 l.

(** What one file contributes to the counter of [k], to the total and to
    the number of files scanned. *)
Definition file_tagged (fs : node) (k : string) (f : Path) : Z :=
  match defs_root fs f with
  | Some root => if PyStr.nonempty k then tagged k (children_of root) else 0
  | None => 0
  end.

Definition file_defs (fs : node) (f : Path) : Z :=
  match defs_root fs f with
  | Some root => named_children (children_of root)
  | None => 0
  end.

Definition file_scanned (fs : node) (f : Path) : Z :=
  match defs_root fs f with
  | Some _ => 1
  | None => 0
  end.

(** The caches the module can hold: the empty one it starts with, and what
    a returning call of [get_defs_summary] leaves, on any file system. *)
Inductive reachable (resolve : Path -> string)
    : gmap string (Signature * DefsSummary) -> Prop :=
| reachable_initial : reachable resolve ∅
| reachable_get cache fs mod_path log s cache' :
    reachable resolve cache ->
    get_defs_summary resolve cache fs mod_path = (log, Ok (s, cache')) ->
    reachable resolve cache'.

(** What holds of every summary the scanner builds, with the signature it
    is stored under. *)
Definition entry_ok (sig : Signature) (s : DefsSummary) : Prop :=
  total_defs s = sum_values (type_counts s) /\
  counter_ok (type_counts s) /\
  (fst sig = 0 -> s = zero_summary).

(** [s] is a non-empty string of decimal digits: what [\d+] matches. *)
Fixpoint all_digits (s : string) : bool :=
  match s with
  | EmptyString => true
  | String c s' => PyStr.is_digit c && all_digits s'
  end.

Definition digits1 (s : string) : Prop :=
  PyStr.nonempty s = true /\ all_digits s = true.

(** [s] holds a match of [(\d+)\.(\d+)] with groups [g1] and [g2] after the
    prefix [pre]. *)
Definition match_at (s pre g1 g2 : string) : Prop :=
  digits1 g1 /\ digits1 g2 /\
  exists post, s = String.append pre (String.append g1 (String "." (String.append g2 post))).

(** [c] occurs in [s]. *)
Fixpoint has_char (c : ascii) (s : string) : bool :=
  match s with
  | EmptyString => false
  | String a s' => Ascii.eqb a c || has_char c s'
  end.

(** No character of [s] is a decimal digit. *)
Fixpoint no_digit (s : string) : bool :=
  match s with
  | EmptyString => true
  | String c s' => negb (PyStr.is_digit c) && no_digit s'
  end.

(** The cache after a series of calls of [get_defs_summary] on one file
    system; a call that raises leaves the cache as it was. *)
Fixpoint cache_after (resolve : Path -> string) (fs : node) (paths : list Path)
    (cache : gmap string (Signature * DefsSummary))
    : gmap string (Signature * DefsSummary) :=
  match paths with
  | [] => cache
  | p :: paths' =>
      match snd (get_defs_summary resolve cache fs p) with
      | Ok (_, cache') => cache_after resolve fs paths' cache'
      | Raise _ => cache_after resolve fs paths' cache
      end
  end.

(** [mod_el] is an entry the metrics reader takes: it has a non-empty name
    and a [totalMs] that reads as a positive integer; [k] is the lower-cased
    name and [v] the duration. *)
Definition usable (mod_el : element) (k : string) (v : Z) : Prop :=
  exists name total_ms_str,
    attr_get "name" (attrib_of mod_el) = Some name /\ name <> "" /\
    attr_get "totalMs" (attrib_of mod_el) = Some total_ms_str /\
    PyStr.int total_ms_str = Some v /\ 0 < v /\ k = PyStr.lower name.

(** A mapping as the metrics reader builds it: lower-case, non-empty keys
    and positive durations. *)
Definition metrics_ok (metrics : gmap string Z) : Prop :=
  forall k v, metrics !! k = Some v -> 0 < v /\ k <> "" /\ PyStr.lower k = k.

(** What holds of the two globals after any series of calls: the maximum,
    when set, is the one of the cached mapping. *)
Definition globals_ok (g : Metrics.globals) : Prop :=
  (forall m, Metrics._cache g = Some m -> metrics_ok m) /\
  (forall mx, Metrics._max_total_ms g = Some mx ->
              exists m, Metrics._cache g = Some m /\ mx = Metrics.max_or_zero m).

(** The embedding of a tree of regular files, directories and dangling
    links, whose documents hold elements only. *)
Fixpoint embed_element (e : element) : Full.element :=
  match e with
  | Element tag attrib text children =>
      Full.Element (Some tag) attrib text (map embed_element children)
  end.

Fixpoint embed (n : node) : Full.node :=
  match n with
  | File m xml => Full.File m (option_map embed_element xml)
  | Dangling => Full.Dangling
  | Dir m es =>
      Full.Dir true m
        ((fix each (l : list (string * node)) : list (string * Full.node) :=
            match l with
            | [] => []
            | (name, c) :: l' => (name, embed c) :: each l'
            end) es)
  end.

Definition embed_entry (entry : string * node) : string * Full.node :=
  (fst entry, embed (snd entry)).


(** [t] is the tag the pattern [(\d+)\.(\d+)] gives [s]: the decimal values
    of the two groups of the leftmost match, each group as long as it can
    be, and none longer than the 4300 digits [int] converts. *)
Definition version_tag (s : string) (t : VersionTag) : Prop :=
  exists pre g1 g2,
    match_at s pre g1 g2 /\
    (forall pre' g1' g2', match_at s pre' g1' g2' ->
                          (String.length pre <= String.length pre')%nat) /\
    (forall g1' g2', match_at s pre g1' g2' ->
                     (String.length g1' <= String.length g1)%nat /\
                     (String.length g2' <= String.length g2)%nat) /\
    (String.length g1 <= PyStr.max_str_digits)%nat /\
    (String.length g2 <= PyStr.max_str_digits)%nat /\
    t = (PyStr.digits_val g1 0, PyStr.digits_val g2 0).

(** [name] is the folder of tag [t] among the entries [es] of a mod root:
    the last directory whose name has that tag. *)
Definition version_folder (es : list (string * Full.node)) (t : VersionTag)
    (name : string) : Prop :=
  exists es1 r m es' es2,
    es = es1 ++ (name, Full.Dir r m es') :: es2 /\
    version_tag name t /\
    forall name' c, (name', c) ∈ es2 -> Full.is_dir c = Ok true ->
                    ~ version_tag name' t.

(** ** Sample mods *)

Definition leaf (tag : string) : element := Element tag [] None [].

Definition manifest (versions : list string) : element :=
  Element "ModMetaData" [] None
    [Element "name" [] (Some "Sample") [];
     Element "supportedVersions" [] None
       (map (fun v => Element "li" [] (Some v) []) versions)].

(** Version folders 1.3, 1.4 and 1.5, and a manifest that declares 1.4. *)
Definition mod_declaring_1_4 : node :=
  Dir 0 [("About", Dir 0 [("About.xml", File 1 (Some (manifest ["1.4"])))]);
         ("1.3", Dir 0 []); ("1.4", Dir 0 []); ("1.5", Dir 0 [])].

(** Version folders 1.2, 1.5 and 1.3, and no manifest. *)
Definition mod_without_manifest : node :=
  Dir 0 [("1.2", Dir 0 []); ("1.5", Dir 0 []); ("1.3", Dir 0 [])].

(** A mod whose [Defs] directory holds a link to a file that is gone, and
    the same mod without the link. *)
Definition mod_with_dangling : node :=
  Dir 0 [("Defs", Dir 0 [("good.xml", File 7 (Some (Element "Defs" [] None [leaf "ThingDef"])));
                         ("gone.xml", Dangling)])].

Definition mod_without_dangling : node :=
  Dir 0 [("Defs", Dir 0 [("good.xml", File 7 (Some (Element "Defs" [] None [leaf "ThingDef"])))])].

Definition defs_file (mtime : Z) (tags : list string) : node :=
  File mtime (Some (Element "Defs" [] None
                      (map (fun t => Element t [] None [leaf "defName"]) tags))).

(** A mod [Mods/Sample] with a manifest declaring 1.4, a root-level [Defs]
    tree (one file not well-formed, one that is no definitions container)
    and three version folders. *)
Definition sample_tree : node :=
  Dir 0 [("Mods", Dir 0 [("Sample", Dir 0
    [("About", Dir 0 [("About.xml", File 5 (Some (manifest ["1.4"])))]);
     ("Defs", Dir 0
        [("a.xml", defs_file 10 ["ThingDef"; "ThingDef"; "{http://example.com}RecipeDef"]);
         ("bad.XML", File 11 None);
         ("meta.xml", File 3 (Some (Element "ModMetaData" [] None [leaf "name"])));
         ("sub", Dir 0 [("b.xml", defs_file 12 ["ThingDef"]);
                        ("readme.txt", File 100 None)])]);
     ("1.3", Dir 0 [("Defs", Dir 0 [("c.xml", defs_file 20 ["HediffDef"])])]);
     ("1.4", Dir 0 [("defs", Dir 0 [("d.xml", defs_file 30 ["JobDef"; "JobDef"])])]);
     ("1.5", Dir 0 [("Defs", Dir 0 [("e.xml", defs_file 40 ["TraitDef"])])])])])].

Definition sample_mod : Path := ["Mods"; "Sample"].

(** A cache key for the sample paths. *)
Definition sample_resolve (p : Path) : string := String.concat "/" p.

(** The cache after a first call on the sample mod. *)
Definition sample_cache : gmap string (Signature * DefsSummary) :=
  match snd (get_defs_summary sample_resolve ∅ sample_tree sample_mod) with
  | Ok (_, cache) => cache
  | Raise _ => ∅
  end.

(** A mod whose [Defs] directory holds one well-formed file with three
    child nodes and one truncated file, listed in either order. *)
Definition mod_with_truncated (t1 t2 t3 : string) (m1 m2 : Z) (good_first : bool) : node :=
  let good := ("good.xml",
               File m1 (Some (Element "Defs" [] None [leaf t1; leaf t2; leaf t3]))) in
  let truncated := ("truncated.xml", File m2 None) in
  Dir 0 [("Defs", Dir 0 (if good_first then [good; truncated] else [truncated; good]))].

(** A metrics file: one usable entry, and three the reader passes over. *)
Definition sample_metrics : element :=
  Element "StartupImpact" [] None
    [Element "Mods" [] None
       [Element "Mod" [("name", "Core"); ("totalMs", "1200")] None [];
        Element "Mod" [("name", "HugsLib"); ("totalMs", "0")] None [];
        Element "Mod" [("name", "Harmony"); ("totalMs", "fast")] None [];
        Element "Mod" [("totalMs", "17")] None []]].

(** The sample tree after an edit of [Defs/a.xml] that keeps its modification
    time: one [ThingDef] fewer. *)
Definition sample_tree_edited : node :=
  Dir 0 [("Mods", Dir 0 [("Sample", Dir 0
    [("About", Dir 0 [("About.xml", File 5 (Some (manifest ["1.4"])))]);
     ("Defs", Dir 0
        [("a.xml", defs_file 10 ["ThingDef"; "{http://example.com}RecipeDef"]);
         ("bad.XML", File 11 None);
         ("meta.xml", File 3 (Some (Element "ModMetaData" [] None [leaf "name"])));
         ("sub", Dir 0 [("b.xml", defs_file 12 ["ThingDef"]);
                        ("readme.txt", File 100 None)])]);
     ("1.3", Dir 0 [("Defs", Dir 0 [("c.xml", defs_file 20 ["HediffDef"])])]);
     ("1.4", Dir 0 [("defs", Dir 0 [("d.xml", defs_file 30 ["JobDef"; "JobDef"])])]);
     ("1.5", Dir 0 [("Defs", Dir 0 [("e.xml", defs_file 40 ["TraitDef"])])])])])].

(** *** Sample mods with comments, looping links and unreadable folders *)

Definition full_leaf (tag : string) : Full.element := Full.Element (Some tag) [] None [].

(** A comment, as lxml keeps it in the tree. *)
Definition comment (text : string) : Full.element := Full.Element None [] (Some text) [].

(** [<ModMetaData><!-- ... --><supportedVersions><li>v</li>...
    </supportedVersions></ModMetaData>], with or without the comment. *)
Definition lxml_manifest (commented : bool) (versions : list string) : Full.element :=
  Full.Element (Some "ModMetaData") [] None
    ((if commented then [comment " game versions "] else []) ++
     [Full.Element (Some "supportedVersions") [] None
        (map (fun v => Full.Element (Some "li") [] (Some v) []) versions)]).

Definition full_leaf_dir : Full.node := Full.Dir true 0 [].

(** Version folders 1.3, 1.4 and 1.5, and a manifest that declares 1.4. *)
Definition mod_with_manifest (commented : bool) : Full.node :=
  Full.Dir true 0
    [("About", Full.Dir true 0
                 [("About.xml", Full.File 5 (Some (lxml_manifest commented ["1.4"])))]);
     ("1.3", full_leaf_dir); ("1.4", full_leaf_dir); ("1.5", full_leaf_dir)].

(** [<Defs><ThingDef/><!-- ... --><ThingDef/><RecipeDef/></Defs>], with or
    without the comment. *)
Definition lxml_defs (commented : bool) : Full.element :=
  Full.Element (Some "Defs") [] None
    ([full_leaf "ThingDef"] ++
     (if commented then [comment " weapons "] else []) ++
     [full_leaf "ThingDef"; full_leaf "RecipeDef"]).

Definition mod_with_defs (commented : bool) : Full.node :=
  Full.Dir true 0
    [("Defs", Full.Dir true 0 [("a.xml", Full.File 7 (Some (lxml_defs commented)))])].

(** A folder of mods: a plain one, one with a looping link next to its
    [Defs] folder, one whose [About] folder may not be listed, and a
    regular file. *)
Definition full_tree : Full.node :=
  Full.Dir true 0
    [("Plain", mod_with_defs false);
     ("Loop", Full.Dir true 0 [("Defs", full_leaf_dir); ("link", Full.Looping)]);
     ("Locked", Full.Dir true 0 [("Defs", full_leaf_dir);
                                 ("About", Full.Dir false 0 [])]);
     ("notes.txt", Full.File 1 None)].


(** A parent whose first entry named [Defs] is a regular file, with a
    looping link before or after the [defs] folder. *)
Definition parent_with_link (link_first : bool) : Full.node :=
  Full.Dir true 0
    ([("Defs", Full.File 1 None)] ++
     (if link_first then [("link", Full.Looping)] else []) ++
     [("defs", full_leaf_dir)] ++
     (if link_first then [] else [("link", Full.Looping)])).

(** * Properties *)

(** ** Checks of the model on small inputs *)

Example lower_Defs : PyStr.lower "DeFs.XML" = "defs.xml".
Proof. reflexivity. Qed.

Example endswith_xml :
  PyStr.endswith "a.xml" ".xml" = true /\ PyStr.endswith "xml" ".xml" = false.
Proof. split; reflexivity. Qed.

Example int_examples :
  PyStr.int " -1_000 " = Some (-1000) /\ PyStr.int "12ms" = None /\
  PyStr.int "" = None /\ PyStr.int "_1" = None /\ PyStr.int "007" = Some 7.
Proof. repeat split; reflexivity. Qed.

Example int_separators :
  PyStr.int (String (ascii_of_nat 28) "5") = None /\
  PyStr.strip (String (ascii_of_nat 28) "5") = "5" /\
  PyStr.int (String (ascii_of_nat 9) "5 ") = Some 5.
Proof. repeat split; reflexivity. Qed.

Example strip_ns_examples :
  _strip_ns "{http://example.com}ThingDef" = "ThingDef" /\
  _strip_ns "ThingDef" = "ThingDef" /\ _strip_ns "{open" = "{open" /\
  _strip_ns "{ns}" = "" /\ _strip_ns "" = "".
Proof. repeat split; reflexivity. Qed.

Example normalize_examples :
  _normalize_version_string "1.4" = Some (1, 4)%N /\
  _normalize_version_string "v1.10-beta" = Some (1, 10)%N /\
  _normalize_version_string "1..2.3" = Some (2, 3)%N /\
  _normalize_version_string "12a3.04x" = Some (3, 4)%N /\
  _normalize_version_string "Defs" = None /\
  _normalize_version_string "1." = None.
Proof. repeat split; reflexivity. Qed.

(** ** The file system *)

Lemma node_nested_ind (P : node -> Prop) :
  (forall m x, P (File m x)) ->
  P Dangling ->
  (forall m es, Forall (fun e => P (snd e)) es -> P (Dir m es)) ->
  forall n, P n.
Proof.
  intros HF HD HDir. fix IH 1. intros [m x| |m es].
  - apply HF.
  - apply HD.
  - apply HDir. induction es as [|[k c] es IHes]; constructor.
    + apply IH.
    + apply IHes.
Qed.

Lemma assoc_Some_elem es k n : assoc k es = Some n -> (k, n) ∈ es.
Proof.
  induction es as [|[k' n'] es IH]; simpl; [discriminate|].
  destruct (String.eqb_spec k' k) as [->|_].
  - intros [= ->]. left.
  - intros H. right. auto.
Qed.

Lemma assoc_elem es k n : NoDup (map fst es) -> (k, n) ∈ es -> assoc k es = Some n.
Proof.
  induction es as [|[k' n'] es IH]; simpl; intros Hnd Hin.
  - inversion Hin.
  - apply NoDup_cons in Hnd as [Hk Hnd].
    apply elem_of_cons in Hin as [[= -> ->]|Hin].
    + by rewrite String.eqb_refl.
    + destruct (String.eqb_spec k' k) as [->|_]; [|auto].
      exfalso. apply Hk. change k with (fst (k, n)). by apply list_elem_of_fmap_2.
Qed.

Lemma wf_node_Dir m es :
  wf_node (Dir m es) = true ->
  NoDup (map fst es) /\ forall k c, (k, c) ∈ es -> wf_node c = true.
Proof.
  simpl. intros [Hnd Hall]%andb_prop. split.
  - by apply bool_decide_eq_true in Hnd.
  - clear Hnd. induction es as [|[k' c'] es IH]; intros k c Hin.
    + inversion Hin.
    + apply andb_prop in Hall as [Hc Hall].
      apply elem_of_cons in Hin as [[= -> ->]|Hin]; eauto.
Qed.

Lemma node_at_app fs p q :
  node_at fs (p ++ q) =
  match node_at fs p with
  | Ok n => node_at n q
  | Raise e => Raise e
  end.
Proof.
  revert fs. induction p as [|name p IH]; intros fs; simpl; [done|].
  destruct fs as [| |m es]; try done.
  destruct (assoc name es); [apply IH|done].
Qed.

Lemma wf_node_at fs p n :
  wf_node fs = true -> node_at fs p = Ok n -> wf_node n = true.
Proof.
  revert fs. induction p as [|name p IH]; intros fs Hwf; simpl.
  - by intros [= <-].
  - destruct fs as [| |m es]; try discriminate.
    destruct (assoc name es) as [c|] eqn:Hc; [|discriminate].
    apply IH. apply wf_node_Dir in Hwf as [_ Hall].
    eapply Hall, assoc_Some_elem, Hc.
Qed.

Lemma scandir_Ok fs p es :
  scandir fs p = Ok es -> exists m, node_at fs p = Ok (Dir m es).
Proof.
  unfold scandir. destruct (node_at fs p) as [[| |m es']|]; try discriminate.
  intros [= ->]. eauto.
Qed.

(** In a well-formed tree a listed entry is what its path denotes. *)
Lemma node_at_entry fs parent es name c :
  wf_node fs = true -> scandir fs parent = Ok es -> (name, c) ∈ es ->
  node_at fs (parent ++ [name]) = Ok c.
Proof.
  intros Hwf [m Hp]%scandir_Ok Hin.
  rewrite node_at_app, Hp. simpl.
  apply (wf_node_at _ _ _ Hwf) in Hp. apply wf_node_Dir in Hp as [Hnd _].
  by rewrite (assoc_elem _ _ _ Hnd Hin).
Qed.

Lemma scandir_entry fs parent es name m es' :
  wf_node fs = true -> scandir fs parent = Ok es -> (name, Dir m es') ∈ es ->
  scandir fs (parent ++ [name]) = Ok es'.
Proof.
  intros Hwf Hp Hin. unfold scandir.
  by rewrite (node_at_entry _ _ _ _ _ Hwf Hp Hin).
Qed.

Lemma first_entry_Some parent test es d :
  first_entry parent test es = Some d ->
  exists name c, d = parent ++ [name] /\ (name, c) ∈ es /\ test (name, c) = true.
Proof.
  unfold first_entry. destruct (List.find test es) as [[name c]|] eqn:Hf; [|discriminate].
  intros [= <-]. apply find_some in Hf as [Hin Ht].
  exists name, c. by rewrite list_elem_of_In.
Qed.

Lemma find_dir_Some fs parent expected d :
  _find_case_insensitive_dir fs parent expected = Ok (Some d) ->
  exists es name m es',
    scandir fs parent = Ok es /\ d = parent ++ [name] /\
    (name, Dir m es') ∈ es /\ name_is expected name = true.
Proof.
  unfold _find_case_insensitive_dir.
  destruct (scandir fs parent) as [es|e] eqn:Hs; simpl.
  - intros [= Hf]. apply first_entry_Some in Hf as (name & c & -> & Hin & Ht).
    simpl in Ht. apply andb_prop in Ht as [Hd Hn].
    destruct c as [| |m es']; try discriminate. by exists es, name, m, es'.
  - destruct e; discriminate.
Qed.

Lemma find_dir_total fs parent expected :
  dir_or_missing fs parent = true ->
  exists r, _find_case_insensitive_dir fs parent expected = Ok r.
Proof.
  unfold dir_or_missing, _find_case_insensitive_dir.
  destruct (scandir fs parent) as [es|[]]; simpl; try discriminate; eauto.
Qed.

Lemma find_dir_scandir fs parent expected d :
  wf_node fs = true ->
  _find_case_insensitive_dir fs parent expected = Ok (Some d) ->
  exists es, scandir fs d = Ok es.
Proof.
  intros Hwf (es & name & m & es' & Hs & -> & Hin & _)%find_dir_Some.
  exists es'. eapply scandir_entry; eauto.
Qed.

(** ** The version pattern *)

Lemma append_nil_l r : String.append "" r = r.
Proof. reflexivity. Qed.

Lemma append_cons c d r : String.append (String c d) r = String c (String.append d r).
Proof. reflexivity. Qed.

Lemma append_nil_r d : String.append d "" = d.
Proof. induction d as [|c d IH]; [done|]. by rewrite append_cons, IH. Qed.

Lemma span_digits_app d r :
  all_digits d = true ->
  PyStr.span_digits (String.append d r) =
  (String.append d (fst (PyStr.span_digits r)), snd (PyStr.span_digits r)).
Proof.
  induction d as [|c d IH]; intros Hd.
  - rewrite !append_nil_l. by destruct (PyStr.span_digits r).
  - simpl in Hd. apply andb_prop in Hd as [Hc Hd].
    rewrite !append_cons. simpl. by rewrite Hc, (IH Hd).
Qed.

Lemma span_digits_spec s :
  s = String.append (fst (PyStr.span_digits s)) (snd (PyStr.span_digits s)) /\
  all_digits (fst (PyStr.span_digits s)) = true.
Proof.
  induction s as [|c s [IH1 IH2]]; simpl; [done|].
  destruct (PyStr.is_digit c) eqn:Hc; [|done].
  destruct (PyStr.span_digits s) as [d r]. simpl in *.
  rewrite append_cons, Hc, <- IH1. done.
Qed.

Lemma match_here_sound s g1 g2 :
  match_here s = Some (g1, g2) -> match_at s "" g1 g2.
Proof.
  unfold match_here, match_at, digits1.
  pose proof (span_digits_spec s) as [Hs Hd1].
  destruct (PyStr.span_digits s) as [d1 r1]. simpl in *.
  destruct d1 as [|c1 d1]; [done|]. destruct r1 as [|dot r2]; [done|].
  destruct (Ascii.eqb_spec dot ".") as [->|Hne].
  - pose proof (span_digits_spec r2) as [Hr Hd2].
    destruct (PyStr.span_digits r2) as [d2 r3]. simpl in *.
    destruct d2 as [|c2 d2]; [done|]. intros [= <- <-].
    split; [done|]. split; [done|]. exists r3.
    rewrite append_nil_l. rewrite Hs at 1. by rewrite Hr at 1.
  - destruct dot as [[] [] [] [] [] [] [] []]; done.
Qed.

(** A match at the start of [s] is found, with the same first group and a
    second group that extends the given one: both groups are greedy. *)
Lemma match_here_complete s g1 g2 :
  match_at s "" g1 g2 ->
  exists g2', match_here s = Some (g1, String.append g2 g2').
Proof.
  unfold match_at, digits1, match_here.
  intros ([Hn1 Hd1] & [Hn2 Hd2] & post & ->). rewrite append_nil_l.
  rewrite (span_digits_app _ _ Hd1). simpl. rewrite append_nil_r.
  destruct g1 as [|c1 g1]; [done|].
  rewrite (span_digits_app _ _ Hd2).
  destruct (PyStr.span_digits post) as [d r]. simpl.
  destruct g2 as [|c2 g2]; [done|]. rewrite append_cons. by exists d.
Qed.

(** [re_search] finds a match, and no match starts before it. *)
Lemma re_search_sound s g1 g2 :
  re_search s = Some (g1, g2) ->
  exists pre, match_at s pre g1 g2 /\
              forall pre' g1' g2', match_at s pre' g1' g2' ->
                                   (String.length pre <= String.length pre')%nat.
Proof.
  induction s as [|c s IH].
  - simpl. discriminate.
  - simpl re_search. destruct (match_here (String c s)) as [[h1 h2]|] eqn:Hm.
    + intros [= -> ->]. exists "". split; [by apply match_here_sound|].
      intros. simpl. lia.
    + intros (pre & (Hd1 & Hd2 & post & Hs) & Hleft)%IH.
      exists (String c pre). split.
      * split; [done|]. split; [done|]. exists post. by rewrite append_cons, <- Hs.
      * intros pre' g1' g2' Hm'. destruct pre' as [|c' pre'].
        -- apply match_here_complete in Hm' as [g2'' Hm']. congruence.
        -- simpl. apply le_n_S. apply (Hleft pre' g1' g2').
           destruct Hm' as (Hd1' & Hd2' & post' & Hs').
           split; [done|]. split; [done|]. exists post'.
           rewrite append_cons in Hs'. by injection Hs' as _ ->.
Qed.

Lemma re_search_complete s pre g1 g2 :
  match_at s pre g1 g2 -> exists g, re_search s = Some g.
Proof.
  revert s. induction pre as [|c pre IH]; intros s Hm.
  - apply match_here_complete in Hm as [g2' Hm].
    destruct s as [|c s]; [discriminate Hm|]. simpl re_search. rewrite Hm. eauto.
  - destruct Hm as (Hd1 & Hd2 & post & ->). rewrite append_cons. simpl re_search.
    destruct (match_here _) as [g|]; [eauto|].
    apply IH. split; [done|]. split; [done|]. by exists post.
Qed.

(** ** Version tags and the resolver *)

Lemma tag_le_refl a : tag_le a a.
Proof. unfold tag_le. lia. Qed.

Lemma tag_le_trans a b c : tag_le a b -> tag_le b c -> tag_le a c.
Proof. unfold tag_le. lia. Qed.

Lemma tag_ltb_true a b : tag_ltb a b = true -> tag_le a b.
Proof.
  unfold tag_ltb, tag_le.
  intros [H|[H1 H2]%andb_prop]%orb_prop.
  - apply N.ltb_lt in H. lia.
  - apply N.eqb_eq in H1. apply N.ltb_lt in H2. lia.
Qed.

Lemma tag_ltb_false a b : tag_ltb a b = false -> tag_le b a.
Proof.
  unfold tag_ltb, tag_le.
  intros [H1 H2]%orb_false_elim. apply N.ltb_ge in H1.
  apply andb_false_iff in H2 as [H2|H2].
  - apply N.eqb_neq in H2. lia.
  - apply N.ltb_ge in H2. lia.
Qed.

Lemma py_max_elem x0 xs : py_max x0 xs ∈ x0 :: xs.
Proof.
  unfold py_max. revert x0. induction xs as [|x xs IH]; intros x0; simpl.
  - left.
  - destruct (tag_ltb x0 x).
    + right. apply IH.
    + specialize (IH x0). apply elem_of_cons in IH as [->|IH].
      * left.
      * right. by right.
Qed.

Lemma py_max_ge x0 xs y : y ∈ x0 :: xs -> tag_le y (py_max x0 xs).
Proof.
  unfold py_max. revert x0 y.
  assert (Hmono : forall xs x0,
    tag_le x0 (fold_left (fun best x => if tag_ltb best x then x else best) xs x0)).
  { induction xs0 as [|x xs0 IH]; intros x0; simpl; [apply tag_le_refl|].
    destruct (tag_ltb x0 x) eqn:Hlt.
    - eapply tag_le_trans; [by apply tag_ltb_true|apply IH].
    - apply IH. }
  induction xs as [|x xs IH]; intros x0 y Hy; simpl.
  - apply list_elem_of_singleton in Hy as ->. apply tag_le_refl.
  - apply elem_of_cons in Hy as [->|Hy].
    + destruct (tag_ltb x0 x) eqn:Hlt.
      * eapply tag_le_trans; [by apply tag_ltb_true|apply Hmono].
      * apply Hmono.
    + destruct (tag_ltb x0 x) eqn:Hlt.
      * apply IH, Hy.
      * apply elem_of_cons in Hy as [->|Hy].
        -- eapply tag_le_trans; [by apply tag_ltb_false|apply Hmono].
        -- apply IH. by right.
Qed.

(** What the loop of [_find_available_version_dirs] leaves in the mapping. *)
Lemma available_lookup mod_root es acc t d :
  fold_left (add_version_dir mod_root) es acc !! t = Some d ->
  acc !! t = Some d \/
  exists name m es', (name, Dir m es') ∈ es /\
                     _normalize_version_string name = Some t /\
                     d = mod_root ++ [name].
Proof.
  revert acc. induction es as [|[name c] es IH]; intros acc; simpl; [auto|].
  intros [Hacc|(name' & m & es' & Hin & Hn & ->)]%IH.
  - unfold add_version_dir in Hacc. simpl in Hacc.
    destruct c as [| |m es']; simpl in Hacc; auto.
    destruct (_normalize_version_string name) as [norm|] eqn:Hn; auto.
    rewrite lookup_insert in Hacc. case_decide as Ht; auto.
    injection Hacc as <-. subst norm. right.
    exists name, m, es'. split; [left|done].
  - right. exists name', m, es'. split; [by right|done].
Qed.

Lemma choose_from_resolved supported available :
  exists r, choose_from supported available = ([], Ok r) /\
            resolved (omap _normalize_version_string supported) available r.
Proof.
  unfold choose_from, resolved.
  set (declared := omap _normalize_version_string supported).
  set (ok := fun nv : VersionTag => bool_decide (is_Some (available !! nv))).
  assert (Hcand : forall t, t ∈ List.filter ok declared <->
                            t ∈ declared /\ is_Some (available !! t)).
  { intros t. rewrite list_elem_of_In, filter_In, <- list_elem_of_In.
    unfold ok. by rewrite bool_decide_eq_true. }
  destruct (List.filter ok declared) as [|c cs] eqn:Hf.
  - assert (Hnone : ~ exists t, t ∈ declared /\ is_Some (available !! t)).
    { intros [t Ht]. apply Hcand in Ht. inversion Ht. }
    destruct ((map_to_list available).*1) as [|k ks] eqn:Hk.
    + apply fmap_nil_inv, map_to_list_empty_iff in Hk.
      exists None. split; [done|]. repeat split; try done.
    + assert (Hkeys : forall t, t ∈ k :: ks <-> is_Some (available !! t)).
      { intros t. rewrite <- Hk, list_elem_of_fmap. split.
        - intros [[t' d] [-> Hin]]. apply elem_of_map_to_list in Hin. by eexists.
        - intros [d Hd]. exists (t, d). split; [done|]. by apply elem_of_map_to_list. }
      destruct (proj1 (Hkeys _) (py_max_elem k ks)) as [d Hd].
      exists (Some d). unfold getitem. rewrite Hd. split; [done|].
      repeat split; try done.
      * intros _ _. exists (py_max k ks), d. repeat split; try done.
        intros t' Ht'. apply py_max_ge. by apply Hkeys.
      * intros _ ->. by rewrite lookup_empty in Hd.
  - pose proof (py_max_elem c cs) as Hin.
    apply Hcand in Hin as [Hdecl [d Hd]].
    exists (Some d). unfold getitem. rewrite Hd. split; [done|].
    assert (Hex : exists t, t ∈ declared /\ is_Some (available !! t)) by eauto.
    repeat split; try done.
    intros _. exists (py_max c cs), d. repeat split; eauto.
    intros t' Ht'. apply py_max_ge. by apply Hcand.
Qed.

(** ** The generator returns *)

Lemma about_xml_path_total fs p :
  wf_node fs = true -> dir_or_missing fs p = true ->
  exists a, _about_xml_path fs p = Ok a.
Proof.
  intros Hwf Hp. unfold _about_xml_path.
  destruct (find_dir_total fs p "About" Hp) as [[about_dir|] Hf]; rewrite Hf; [|eauto].
  destruct (find_dir_scandir _ _ _ _ Hwf Hf) as [es ->]. simpl. eauto.
Qed.

Lemma parse_supported_versions_total fs p a :
  _about_xml_path fs p = Ok a ->
  exists supported,
    _parse_supported_versions fs p = (manifest_log a, Ok supported).
Proof.
  intros Ha. unfold _parse_supported_versions. rewrite Ha.
  destruct a as [path|]; simpl; [|eauto].
  destruct (node_at fs path) as [[m [root|]| |m es]|e]; simpl; eauto.
Qed.

Lemma find_available_total fs p :
  dir_or_missing fs p = true ->
  exists available, _find_available_version_dirs fs p = Ok available.
Proof.
  unfold dir_or_missing, _find_available_version_dirs.
  destruct (scandir fs p) as [es|[]]; simpl; try discriminate; eauto.
Qed.

Lemma find_available_dirs fs p available t d :
  wf_node fs = true ->
  _find_available_version_dirs fs p = Ok available ->
  available !! t = Some d ->
  exists name es, d = p ++ [name] /\ _normalize_version_string name = Some t /\
                  scandir fs d = Ok es.
Proof.
  intros Hwf. unfold _find_available_version_dirs.
  destruct (scandir fs p) as [es|e] eqn:Hs; simpl.
  - intros [= <-] [Habs|(name & m & es' & Hin & Hn & ->)]%available_lookup.
    + by rewrite lookup_empty in Habs.
    + exists name, es'. repeat split; [done|]. eapply scandir_entry; eauto.
  - destruct e; try discriminate. intros [= <-] Habs.
    by rewrite lookup_empty in Habs.
Qed.

Lemma choose_from_Some supported available l d :
  choose_from supported available = (l, Ok (Some d)) ->
  exists t, available !! t = Some d.
Proof.
  unfold choose_from, getitem.
  destruct (List.filter _ _) as [|c cs].
  - destruct ((map_to_list available).*1) as [|k ks]; [discriminate|].
    destruct (available !! py_max k ks) as [d'|] eqn:Hd; simpl; [|discriminate].
    intros [= <- <-]. eauto.
  - destruct (available !! py_max c cs) as [d'|] eqn:Hd; simpl; [|discriminate].
    intros [= <- <-]. eauto.
Qed.

Lemma choose_version_dir_total fs p :
  wf_node fs = true -> dir_or_missing fs p = true ->
  exists a supported available r,
    _about_xml_path fs p = Ok a /\
    _parse_supported_versions fs p = (manifest_log a, Ok supported) /\
    _find_available_version_dirs fs p = Ok available /\
    _choose_version_dir fs p = (manifest_log a, Ok r) /\
    choose_from supported available = ([], Ok r) /\
    resolved (omap _normalize_version_string supported) available r.
Proof.
  intros Hwf Hp.
  destruct (about_xml_path_total _ _ Hwf Hp) as [a Ha].
  destruct (parse_supported_versions_total _ _ _ Ha) as [supported Hs].
  destruct (find_available_total _ _ Hp) as [available Hav].
  destruct (choose_from_resolved supported available) as (r & Hr & Hres).
  exists a, supported, available, r.
  split; [done|]. split; [done|]. split; [done|]. split; [|done].
  unfold _choose_version_dir. rewrite Hs, Hav. simpl. rewrite Hr.
  by rewrite !app_nil_r.
Qed.

Lemma iter_defs_xml_files_total fs p :
  wf_node fs = true -> dir_or_missing fs p = true ->
  exists a,
    _about_xml_path fs p = Ok a /\
    _iter_defs_xml_files fs p =
      (map Yielded (root_defs_files fs p) ++ manifest_log a ++
       map Yielded (version_defs_files fs p), Ok tt).
Proof.
  intros Hwf Hp.
  destruct (choose_version_dir_total fs p Hwf Hp)
    as (a & supported & available & r & Ha & _ & Hav & Hch & Hr & _).
  exists a. split; [done|].
  unfold _iter_defs_xml_files, root_defs_files, version_defs_files.
  destruct (find_dir_total fs p "Defs" Hp) as [rd Hrd]. rewrite Hrd, Hch. simpl.
  assert (Hv : forall v, r = Some v ->
                         exists vd, _find_case_insensitive_dir fs v "Defs" = Ok vd).
  { intros v ->. apply choose_from_Some in Hr as [t Ht].
    destruct (find_available_dirs _ _ _ _ _ Hwf Hav Ht) as (name & es & _ & _ & Hs).
    apply find_dir_total. unfold dir_or_missing. by rewrite Hs. }
  destruct r as [v|].
  - destruct (Hv v eq_refl) as [vd ->].
    destruct rd as [rd|], vd as [vd|]; simpl; by rewrite ?app_nil_r.
  - destruct rd as [rd|]; simpl; by rewrite ?app_nil_r.
Qed.

(** ** The version resolver *)

Example version_precedence :
  _choose_version_dir mod_declaring_1_4 [] =
  ([Parsed ["About"; "About.xml"]], Ok (Some ["1.4"])).
Proof. vm_compute. reflexivity. Qed.

Example version_fallback :
  _choose_version_dir mod_without_manifest [] = ([], Ok (Some ["1.5"])).
Proof. vm_compute. reflexivity. Qed.

(** ** The enumerator *)

Lemma walk_node_Dir top m es :
  walk_node top (Dir m es) =
  (top, map fst (List.filter (fun e => is_dir (snd e)) es),
        map fst (List.filter (fun e => negb (is_dir (snd e))) es))
  :: flat_map (fun e => walk_node (top ++ [fst e]) (snd e)) es.
Proof.
  simpl. f_equal. induction es as [|[k c] es IH]; simpl; [done|]. by rewrite IH.
Qed.

Lemma xml_files_app w1 w2 : xml_files (w1 ++ w2) = xml_files w1 ++ xml_files w2.
Proof. unfold xml_files. apply flat_map_app. Qed.

Lemma xml_files_flat_map {A} (g : A -> list (Path * list string * list string)) l f :
  In f (xml_files (flat_map g l)) <-> exists x, In x l /\ In f (xml_files (g x)).
Proof.
  induction l as [|x l IH]; simpl.
  - split; [done|]. by intros (? & [] & _).
  - rewrite xml_files_app, in_app_iff, IH. split.
    + intros [H|(y & Hy & H)]; eauto.
    + intros (y & [<-|Hy] & H); eauto.
Qed.

Lemma node_at_snoc_Ok n q c :
  node_at n q = Ok c -> q <> [] -> exists m es, n = Dir m es.
Proof.
  destruct q as [|name q]; [done|]. simpl.
  destruct n as [| |m es]; try discriminate. eauto.
Qed.

Lemma walk_node_xml_files n :
  forall top f, wf_node n = true ->
    (In f (xml_files (walk_node top n)) <->
     exists rel name c, f = top ++ rel ++ [name] /\
                        node_at n (rel ++ [name]) = Ok c /\ is_dir c = false /\
                        PyStr.endswith (PyStr.lower name) ".xml" = true).
Proof.
  induction n as [m x| |m es IH] using node_nested_ind; intros top f Hwf.
  - simpl. split; [done|]. intros (rel & name & c & _ & Hc & _).
    apply node_at_snoc_Ok in Hc as (? & ? & ?); [done|by destruct rel].
  - simpl. split; [done|]. intros (rel & name & c & _ & Hc & _).
    apply node_at_snoc_Ok in Hc as (? & ? & ?); [done|by destruct rel].
  - apply wf_node_Dir in Hwf as [Hnd Hall].
    rewrite walk_node_Dir. change (xml_files (?x :: ?l)) with (xml_files ([x] ++ l)).
    rewrite xml_files_app, in_app_iff, xml_files_flat_map.
    unfold xml_files at 1. simpl. rewrite app_nil_r, in_map_iff. split.
    + intros [(name & <- & Hin)|([k c] & Hin & Hf)].
      * apply filter_In in Hin as [Hin Hx].
        apply in_map_iff in Hin as ([k c] & <- & Hin).
        apply filter_In in Hin as [Hin Hc]. simpl in *.
        exists [], k, c. simpl. apply list_elem_of_In in Hin.
        rewrite (assoc_elem _ _ _ Hnd Hin). by destruct (is_dir c).
      * simpl in Hf. pose proof Hin as Hin'. apply list_elem_of_In in Hin'.
        rewrite Forall_forall in IH.
        apply (IH (k, c) Hin') in Hf as (rel & name & c' & -> & Hc' & Hd & Hx);
          [|by eapply Hall].
        exists (k :: rel), name, c'. simpl.
        rewrite (assoc_elem _ _ _ Hnd Hin'), <- !app_assoc. done.
    + intros (rel & name & c & -> & Hc & Hd & Hx).
      destruct rel as [|k rel]; simpl in Hc.
      * destruct (assoc name es) as [c'|] eqn:Ha; [|discriminate].
        injection Hc as ->. apply assoc_Some_elem, list_elem_of_In in Ha.
        left. exists name. split; [done|]. apply filter_In. split; [|done].
        apply in_map_iff. exists (name, c). split; [done|].
        apply filter_In. split; [done|]. simpl. by rewrite Hd.
      * destruct (assoc k es) as [c'|] eqn:Ha; [|discriminate].
        apply assoc_Some_elem in Ha. right. exists (k, c'). split.
        -- by apply list_elem_of_In.
        -- simpl. rewrite Forall_forall in IH. apply (IH (k, c') Ha); [by eapply Hall|].
           exists rel, name, c. by rewrite <- !app_assoc.
Qed.

Lemma os_walk_xml_files fs d es f :
  wf_node fs = true -> scandir fs d = Ok es ->
  (f ∈ xml_files (os_walk fs d) <-> xml_file_under fs d f).
Proof.
  intros Hwf [m Hd]%scandir_Ok. unfold os_walk, xml_file_under. rewrite Hd.
  rewrite list_elem_of_In, walk_node_xml_files by (by eapply wf_node_at).
  split; intros (rel & name & c & -> & Hc & H); exists rel, name, c;
    (split; [done|]).
  - by rewrite node_at_app, Hd.
  - by rewrite node_at_app, Hd in Hc.
Qed.


Lemma yields_app l1 l2 : yields (l1 ++ l2) = yields l1 ++ yields l2.
Proof.
  induction l1 as [|[p|p] l1 IH]; simpl; [done|done|]. by rewrite IH.
Qed.

Lemma yields_Yielded l : yields (map Yielded l) = l.
Proof. induction l as [|p l IH]; simpl; [done|]. by rewrite IH. Qed.

Lemma yields_manifest_log a : yields (manifest_log a) = [].
Proof. by destruct a. Qed.

Lemma yields_iter R a V :
  yields (map Yielded R ++ manifest_log a ++ map Yielded V) = R ++ V.
Proof. by rewrite !yields_app, !yields_Yielded, yields_manifest_log. Qed.

Lemma root_defs_files_spec fs p root_defs f :
  wf_node fs = true ->
  _find_case_insensitive_dir fs p "Defs" = Ok root_defs ->
  (f ∈ root_defs_files fs p <-> exists d, root_defs = Some d /\ xml_file_under fs d f).
Proof.
  intros Hwf Hr. unfold root_defs_files. rewrite Hr. destruct root_defs as [d|].
  - destruct (find_dir_scandir _ _ _ _ Hwf Hr) as [es Hes].
    rewrite (os_walk_xml_files _ _ _ _ Hwf Hes). split; [eauto|].
    by intros (d' & [= <-] & H).
  - split; [by intros ?%elem_of_nil|]. by intros (d' & [=] & _).
Qed.




(** ** Signatures *)

Lemma list_of_iter R a V :
  list_of (map Yielded R ++ manifest_log a ++ map Yielded V, Ok tt) =
  (manifest_log a, Ok (R ++ V)).
Proof.
  unfold list_of. simpl. rewrite yields_iter. f_equal.
  rewrite !List.filter_app.
  assert (Hy : forall l, List.filter (fun ev => negb (is_yield ev)) (map Yielded l) = []).
  { induction l as [|p l IH]; simpl; done. }
  rewrite !Hy, app_nil_r. by destruct a.
Qed.

Lemma compute_signature_total fs p :
  wf_node fs = true -> dir_or_missing fs p = true ->
  exists a,
    _about_xml_path fs p = Ok a /\
    list_of (_iter_defs_xml_files fs p) =
      (manifest_log a, Ok (root_defs_files fs p ++ version_defs_files fs p)) /\
    _compute_signature fs p =
      (manifest_log a,
       Ok (signature_of fs (root_defs_files fs p ++ version_defs_files fs p))).
Proof.
  intros Hwf Hp.
  destruct (iter_defs_xml_files_total fs p Hwf Hp) as (a & Ha & Hit).
  exists a. split; [done|]. unfold _compute_signature.
  rewrite Hit, list_of_iter. simpl. by rewrite app_nil_r.
Qed.

Lemma fold_newer_ge fs files acc : acc <= fold_left (newer fs) files acc.
Proof.
  revert acc. induction files as [|f files IH]; intros acc; simpl; [lia|].
  etransitivity; [|apply IH]. unfold newer.
  destruct (stat_mtime fs f) as [m|]; [|lia].
  destruct (Z.ltb_spec acc m); lia.
Qed.

Lemma fold_newer_bound fs files acc f m :
  f ∈ files -> stat_mtime fs f = Ok m -> m <= fold_left (newer fs) files acc.
Proof.
  revert acc. induction files as [|g files IH]; intros acc Hin Hm; simpl.
  - inversion Hin.
  - apply elem_of_cons in Hin as [<-|Hin]; [|by apply IH].
    etransitivity; [|apply fold_newer_ge]. unfold newer. rewrite Hm.
    destruct (Z.ltb_spec acc m); lia.
Qed.

Lemma fold_newer_attained fs files acc :
  fold_left (newer fs) files acc = acc \/
  exists f, f ∈ files /\ stat_mtime fs f = Ok (fold_left (newer fs) files acc).
Proof.
  revert acc. induction files as [|g files IH]; intros acc; simpl; [auto|].
  destruct (IH (newer fs acc g)) as [->|(f & Hin & Hf)].
  - unfold newer. destruct (stat_mtime fs g) as [m|] eqn:Hm; [|auto].
    destruct (Z.ltb_spec acc m); [|auto]. right. exists g. split; [left|done].
  - right. exists f. split; [by right|done].
Qed.

Lemma fold_newer_skip fs l1 f l2 e acc :
  stat_mtime fs f = Raise e ->
  fold_left (newer fs) (l1 ++ f :: l2) acc = fold_left (newer fs) (l1 ++ l2) acc.
Proof.
  intros He. rewrite !fold_left_app. simpl. unfold newer at 2. by rewrite He.
Qed.

Lemma signature_of_fst fs files : fst (signature_of fs files) = Z.of_nat (length files).
Proof. by destruct files. Qed.

Lemma signature_of_snd fs files : snd (signature_of fs files) = latest_mtime_of fs files.
Proof. by destruct files. Qed.

(** C4, as amended.  For a mod root that is a directory (or is missing) the
    signature is returned: (0, 0) when no file is enumerated, and otherwise
    the number of enumerated files, those that cannot be stat'd included,
    with the greatest modification time among the files that can be stat'd
    (0 when none is later than that).  A file that cannot be stat'd leaves
    the second component as it is without the file, and counts in the
    first. *)
Theorem compute_signature_spec fs mod_path :
  wf_node fs = true -> dir_or_missing fs mod_path = true ->
  exists log files count latest_mtime,
    list_of (_iter_defs_xml_files fs mod_path) = (log, Ok files) /\
    _compute_signature fs mod_path = (log, Ok (count, latest_mtime)) /\
    (files = [] -> (count, latest_mtime) = (0, 0)) /\
    count = Z.of_nat (length files) /\
    0 <= latest_mtime /\
    (forall f m, f ∈ files -> stat_mtime fs f = Ok m -> m <= latest_mtime) /\
    (latest_mtime = 0 \/
     exists f, f ∈ files /\ stat_mtime fs f = Ok latest_mtime) /\
    (forall l1 f l2 e,
       files = l1 ++ f :: l2 -> stat_mtime fs f = Raise e ->
       latest_mtime = snd (signature_of fs (l1 ++ l2)) /\
       count = fst (signature_of fs (l1 ++ l2)) + 1).
Proof.
  intros Hwf Hp.
  destruct (compute_signature_total fs mod_path Hwf Hp) as (a & _ & Hl & Hs).
  set (files := root_defs_files fs mod_path ++ version_defs_files fs mod_path) in *.
  exists (manifest_log a), files, (fst (signature_of fs files)),
         (snd (signature_of fs files)).
  split; [done|]. split; [by rewrite <- surjective_pairing|].
  split; [by intros ->|]. split; [apply signature_of_fst|].
  rewrite signature_of_snd. unfold latest_mtime_of.
  split; [apply fold_newer_ge|]. split; [intros f m; apply fold_newer_bound|].
  split; [apply fold_newer_attained|].
  intros l1 f l2 e -> He. rewrite signature_of_snd, !signature_of_fst. split.
  - unfold latest_mtime_of. by eapply fold_newer_skip.
  - rewrite !length_app. simpl. lia.
Qed.

Lemma compute_signature_spec_witness :
  wf_node mod_with_dangling = true /\
  dir_or_missing mod_with_dangling [] = true /\
  exists log sig, _compute_signature mod_with_dangling [] = (log, Ok sig).
Proof.
  split; [reflexivity|]. split; [reflexivity|].
  destruct (compute_signature_spec mod_with_dangling [] eq_refl eq_refl)
    as (log & files & count & latest_mtime & _ & H & _).
  exists log, (count, latest_mtime). exact H.
Defined.

(** C4, as stated, fails: a file that cannot be stat'd is still counted.
    With the dangling link the signature is (2, 7), without it (1, 7). *)
Lemma unstatable_file_is_counted :
  stat_mtime mod_with_dangling ["Defs"; "gone.xml"] = Raise FileNotFoundError /\
  _compute_signature mod_with_dangling [] = ([], Ok (2, 7)) /\
  _compute_signature mod_without_dangling [] = ([], Ok (1, 7)) /\
  ~ (forall fs l1 f l2 e,
       stat_mtime fs f = Raise e ->
       signature_of fs (l1 ++ f :: l2) = signature_of fs (l1 ++ l2)).
Proof.
  split; [reflexivity|]. split; [reflexivity|]. split; [reflexivity|].
  intros H.
  specialize (H mod_with_dangling [["Defs"; "good.xml"]] ["Defs"; "gone.xml"] []
                FileNotFoundError eq_refl).
  discriminate H.
Qed.

(** ** Counters *)

Lemma count_incr counter t k :
  count (incr counter t) k = count counter k + (if String.eqb t k then 1 else 0).
Proof.
  unfold incr, count at 1. rewrite lookup_insert.
  destruct (String.eqb_spec t k) as [->|Hne].
  - by rewrite decide_True.
  - rewrite decide_False by done. fold (count counter k). lia.
Qed.

Lemma sum_values_empty : sum_values ∅ = 0.
Proof. unfold sum_values. by rewrite map_fold_empty. Qed.

Lemma sum_values_insert (counter : gmap string Z) k v :
  counter !! k = None -> sum_values (<[k := v]> counter) = v + sum_values counter.
Proof.
  intros Hk. unfold sum_values. rewrite map_fold_insert_L; [done| |done].
  intros. lia.
Qed.

Lemma sum_values_incr counter t : sum_values (incr counter t) = sum_values counter + 1.
Proof.
  unfold incr, count. destruct (counter !! t) as [v|] eqn:Ht; simpl.
  - rewrite <- insert_delete_eq, sum_values_insert by apply lookup_delete_eq.
    unfold sum_values.
    rewrite (map_fold_delete_L _ _ t v counter); [lia| |done]. intros. lia.
  - rewrite sum_values_insert by done. lia.
Qed.

Lemma counter_ok_empty : counter_ok ∅.
Proof. intros k v. by rewrite lookup_empty. Qed.

Lemma counter_ok_nonneg counter k : counter_ok counter -> 0 <= count counter k.
Proof.
  intros Hok. unfold count. destruct (counter !! k) as [v|] eqn:Hk; simpl; [|lia].
  apply Hok in Hk. lia.
Qed.

Lemma counter_ok_incr counter t :
  counter_ok counter -> PyStr.nonempty t = true -> counter_ok (incr counter t).
Proof.
  intros Hok Ht k v. unfold incr. rewrite lookup_insert. case_decide as Hk.
  - intros [= <-]. subst k. split; [by destruct t|].
    pose proof (counter_ok_nonneg counter t Hok). lia.
  - apply Hok.
Qed.

Lemma count_children_count children counter k :
  count (count_children children counter) k =
  count counter k + (if PyStr.nonempty k then tagged k children else 0).
Proof.
  unfold count_children, tagged. revert counter.
  induction children as [|c cs IH]; intros counter; simpl.
  - destruct (PyStr.nonempty k); simpl; lia.
  - rewrite IH. destruct (PyStr.nonempty (_strip_ns (tag_of c))) eqn:Hc.
    + rewrite count_incr.
      destruct (String.eqb_spec (_strip_ns (tag_of c)) k) as [<-|Hne].
      * rewrite Hc. simpl length. lia.
      * lia.
    + destruct (String.eqb_spec (_strip_ns (tag_of c)) k) as [<-|Hne]; [|lia].
      by rewrite Hc.
Qed.

Lemma count_children_sum children counter :
  sum_values (count_children children counter) =
  sum_values counter + named_children children.
Proof.
  unfold count_children, named_children. revert counter.
  induction children as [|c cs IH]; intros counter; simpl; [lia|].
  rewrite IH. destruct (PyStr.nonempty (_strip_ns (tag_of c))).
  - rewrite sum_values_incr. simpl length. lia.
  - lia.
Qed.

Lemma count_children_ok children counter :
  counter_ok counter -> counter_ok (count_children children counter).
Proof.
  unfold count_children. revert counter.
  induction children as [|c cs IH]; intros counter Hok; simpl; [done|].
  apply IH. destruct (PyStr.nonempty (_strip_ns (tag_of c))) eqn:Hc; [|done].
  by apply counter_ok_incr.
Qed.

(** ** The scan *)

Lemma scan_file_step fs f st :
  scan_file fs f st = ([Parsed f], Ok (scan_step fs st f)).
Proof.
  unfold scan_file, scan_step, parsed_root, ET_parse, try_except, bind, ret.
  by destruct (node_at fs f) as [[m [root|]| |m es]|e].
Qed.

Lemma for_events_scan fs evs st :
  for_events evs (scan_file fs) st =
  (scan_log evs, Ok (scan_files fs (yields evs) st)).
Proof.
  revert st. induction evs as [|[p|p] evs IH]; intros st; simpl; [done| |].
  - by rewrite IH.
  - rewrite scan_file_step. simpl. by rewrite IH.
Qed.

Lemma scan_defs_inv fs p l s :
  _scan_defs fs p = (l, Ok s) ->
  snd (_iter_defs_xml_files fs p) = Ok tt /\
  l = scan_log (fst (_iter_defs_xml_files fs p)) /\
  s = summary_of (scan_files fs (yields (fst (_iter_defs_xml_files fs p))) (∅, 0)).
Proof.
  unfold _scan_defs, for_in. rewrite for_events_scan.
  destruct (_iter_defs_xml_files fs p) as [evs [[]|e]]; simpl; [|discriminate].
  rewrite !app_nil_r. by intros [= <- <-].
Qed.

Lemma compute_signature_inv fs p l sig :
  _compute_signature fs p = (l, Ok sig) ->
  snd (_iter_defs_xml_files fs p) = Ok tt /\
  sig = signature_of fs (yields (fst (_iter_defs_xml_files fs p))).
Proof.
  unfold _compute_signature, list_of.
  destruct (_iter_defs_xml_files fs p) as [evs [[]|e]]; simpl; [|discriminate].
  by intros [= _ <-].
Qed.

Lemma scan_defs_total fs p :
  wf_node fs = true -> dir_or_missing fs p = true ->
  exists log,
    _scan_defs fs p =
    (log, Ok (summary_of (scan_files fs (root_defs_files fs p ++ version_defs_files fs p)
                                     (∅, 0)))).
Proof.
  intros Hwf Hp.
  destruct (iter_defs_xml_files_total fs p Hwf Hp) as (a & _ & Hit).
  unfold _scan_defs, for_in. rewrite for_events_scan, Hit. simpl.
  rewrite yields_iter. eauto.
Qed.

Lemma scan_step_spec fs st f k :
  count (fst (scan_step fs st f)) k = count (fst st) k + file_tagged fs k f /\
  sum_values (fst (scan_step fs st f)) = sum_values (fst st) + file_defs fs f /\
  snd (scan_step fs st f) = snd st + file_scanned fs f /\
  (counter_ok (fst st) -> counter_ok (fst (scan_step fs st f))).
Proof.
  unfold scan_step, file_tagged, file_defs, file_scanned, defs_root, scan_root.
  destruct (parsed_root fs f) as [root|]; simpl;
    [|split; [lia|]; split; [lia|]; split; [lia|done]].
  destruct (String.eqb _ "defs"); simpl;
    [|split; [lia|]; split; [lia|]; split; [lia|done]].
  split; [apply count_children_count|]. split; [apply count_children_sum|].
  split; [done|]. apply count_children_ok.
Qed.

Lemma zsum_app l1 l2 : zsum (l1 ++ l2) = zsum l1 + zsum l2.
Proof. unfold zsum. induction l1 as [|x l1 IH]; simpl; lia. Qed.

Lemma scan_files_spec fs files st k :
  count (fst (scan_files fs files st)) k =
    count (fst st) k + zsum (map (file_tagged fs k) files) /\
  sum_values (fst (scan_files fs files st)) =
    sum_values (fst st) + zsum (map (file_defs fs) files) /\
  snd (scan_files fs files st) = snd st + zsum (map (file_scanned fs) files) /\
  (counter_ok (fst st) -> counter_ok (fst (scan_files fs files st))).
Proof.
  unfold scan_files. revert st.
  induction files as [|f files IH]; intros st; simpl.
  - unfold zsum. simpl. split; [lia|]. split; [lia|]. split; [lia|done].
  - destruct (IH (scan_step fs st f)) as (H1 & H2 & H3 & H4).
    destruct (scan_step_spec fs st f k) as (G1 & G2 & G3 & G4).
    rewrite H1, H2, H3, G1, G2, G3. unfold zsum. simpl.
    split; [lia|]. split; [lia|]. split; [lia|auto].
Qed.

Lemma count_empty k : count ∅ k = 0.
Proof. unfold count. by rewrite lookup_empty. Qed.

(** ** The cache *)

Lemma get_cases resolve cache fs p l s cache' :
  get resolve cache fs p = (l, Ok (s, cache')) ->
  exists l1 sig,
    _compute_signature fs p = (l1, Ok sig) /\
    ((cache !! resolve p = Some (sig, s) /\ cache' = cache /\ l = l1) \/
     (exists l2, _scan_defs fs p = (l2, Ok s) /\ l = l1 ++ l2 /\
                 cache' = <[resolve p := (sig, s)]> cache)).
Proof.
  unfold get. destruct (_compute_signature fs p) as [l1 [sig|e]]; [|discriminate].
  simpl. intros H. exists l1, sig. split; [done|].
  assert (Hmiss : forall r,
    (let (l', r0) :=
       bind (_scan_defs fs p)
            (fun summary => ret (summary, <[resolve p := (sig, summary)]> cache))
     in (l1 ++ l', r0)) = r -> r = (l, Ok (s, cache')) ->
    exists l2, _scan_defs fs p = (l2, Ok s) /\ l = l1 ++ l2 /\
               cache' = <[resolve p := (sig, s)]> cache).
  { intros r <-. destruct (_scan_defs fs p) as [l2 [s2|e]]; simpl; [|discriminate].
    rewrite app_nil_r. intros [= <- <- <-]. eauto. }
  destruct (cache !! resolve p) as [[sig0 s0]|] eqn:Hc.
  - simpl in H. case_bool_decide as Hsig.
    + simpl in H. rewrite app_nil_r in H. injection H as <- <- <-.
      left. by subst sig0.
    + right. by eapply Hmiss.
  - right. by eapply Hmiss.
Qed.

Lemma summary_of_zero : summary_of (∅, 0) = zero_summary.
Proof. unfold summary_of, zero_summary. simpl. by rewrite sum_values_empty. Qed.

Lemma scanned_entry_ok fs p l1 sig l2 s :
  _compute_signature fs p = (l1, Ok sig) ->
  _scan_defs fs p = (l2, Ok s) ->
  entry_ok sig s.
Proof.
  intros (_ & ->)%compute_signature_inv (_ & _ & ->)%scan_defs_inv.
  set (files := yields (fst (_iter_defs_xml_files fs p))).
  split; [done|]. split.
  - simpl. apply (scan_files_spec fs files (∅, 0) ""). apply counter_ok_empty.
  - rewrite signature_of_fst. intros Hlen.
    destruct files as [|f files]; [apply summary_of_zero|]. simpl in Hlen. lia.
Qed.

Lemma reachable_entries_ok resolve cache :
  reachable resolve cache ->
  forall key sig s, cache !! key = Some (sig, s) -> entry_ok sig s.
Proof.
  induction 1 as [|cache fs p l s cache' _ IH Hget]; intros key sig0 s0.
  - by rewrite lookup_empty.
  - apply get_cases in Hget
      as (l1 & sig & Hsig & [(_ & -> & _)|(l2 & Hscan & _ & ->)]); [apply IH|].
    rewrite lookup_insert. case_decide; [|apply IH].
    intros [= <- <-]. by eapply scanned_entry_ok.
Qed.

Lemma get_entry_ok resolve cache fs p l s cache' :
  reachable resolve cache ->
  get resolve cache fs p = (l, Ok (s, cache')) ->
  exists sig, snd (_compute_signature fs p) = Ok sig /\ entry_ok sig s.
Proof.
  intros Hr (l1 & sig & Hsig & [(Hc & _)|(l2 & Hscan & _)])%get_cases;
    exists sig; rewrite Hsig; (split; [done|]).
  - by eapply reachable_entries_ok.
  - by eapply scanned_entry_ok.
Qed.

Example sample_scan :
  exists log s,
    _scan_defs sample_tree sample_mod = (log, Ok s) /\
    total_defs s = 6 /\ files_scanned s = 3 /\
    type_counts s = list_to_map [("ThingDef", 3); ("RecipeDef", 1); ("JobDef", 2)] /\
    parses log = [sample_mod ++ ["Defs"; "a.xml"]; sample_mod ++ ["Defs"; "bad.XML"];
                  sample_mod ++ ["Defs"; "meta.xml"]; sample_mod ++ ["Defs"; "sub"; "b.xml"];
                  sample_mod ++ ["About"; "About.xml"];
                  sample_mod ++ ["1.4"; "defs"; "d.xml"]].
Proof. eexists _, _. split; [vm_compute; reflexivity|]. by vm_compute. Qed.

(** C5. The scanner returns a summary whose [total_defs] is the sum of the
    values of [type_counts]; the total and every counter are the sums of what
    the root-level and the version-level [Defs] trees give on their own, and
    the total is the number of definition nodes of the files scanned.  Every
    summary [get_defs_summary] returns has [total_defs] equal to the sum of
    its [type_counts] as well. *)
Theorem total_defs_is_sum resolve :
  (forall fs mod_path,
     wf_node fs = true -> dir_or_missing fs mod_path = true ->
     exists log s,
       _scan_defs fs mod_path = (log, Ok s) /\
       total_defs s = sum_values (type_counts s) /\
       let r := summary_of (scan_files fs (root_defs_files fs mod_path) (∅, 0)) in
       let v := summary_of (scan_files fs (version_defs_files fs mod_path) (∅, 0)) in
       total_defs s = total_defs r + total_defs v /\
       (forall k, count (type_counts s) k =
                  count (type_counts r) k + count (type_counts v) k) /\
       total_defs s =
         zsum (map (file_defs fs)
                   (root_defs_files fs mod_path ++ version_defs_files fs mod_path))) /\
  (forall cache fs mod_path log s cache',
     reachable resolve cache ->
     get_defs_summary resolve cache fs mod_path = (log, Ok (s, cache')) ->
     total_defs s = sum_values (type_counts s)).
Proof.
  split.
  - intros fs p Hwf Hp. destruct (scan_defs_total fs p Hwf Hp) as [log Hs].
    eexists log, _. split; [exact Hs|]. split; [done|].
    set (R := root_defs_files fs p). set (V := version_defs_files fs p). simpl.
    destruct (scan_files_spec fs (R ++ V) (∅, 0) "") as (_ & Ht & _).
    destruct (scan_files_spec fs R (∅, 0) "") as (_ & HtR & _).
    destruct (scan_files_spec fs V (∅, 0) "") as (_ & HtV & _).
    simpl in *. rewrite sum_values_empty in *.
    rewrite Ht, HtR, HtV, map_app, zsum_app.
    split; [lia|]. split; [|lia]. intros k.
    destruct (scan_files_spec fs (R ++ V) (∅, 0) k) as (Hc & _).
    destruct (scan_files_spec fs R (∅, 0) k) as (HcR & _).
    destruct (scan_files_spec fs V (∅, 0) k) as (HcV & _).
    simpl in *. rewrite Hc, HcR, HcV, map_app, zsum_app, count_empty. lia.
  - intros cache fs p log s cache' Hr Hget.
    destruct (get_entry_ok _ _ _ _ _ _ _ Hr Hget) as (sig & _ & Hok & _). done.
Qed.

Lemma total_defs_is_sum_witness :
  (wf_node sample_tree = true /\ dir_or_missing sample_tree sample_mod = true /\
   exists log s, _scan_defs sample_tree sample_mod = (log, Ok s) /\
                 total_defs s = sum_values (type_counts s)) /\
  (reachable sample_resolve ∅ /\
   exists log s cache',
     get_defs_summary sample_resolve ∅ sample_tree sample_mod = (log, Ok (s, cache')) /\
     total_defs s = sum_values (type_counts s)).
Proof.
  split.
  - split; [reflexivity|]. split; [reflexivity|].
    destruct (proj1 (total_defs_is_sum sample_resolve) sample_tree sample_mod
                eq_refl eq_refl) as (log & s & H1 & H2 & _).
    exists log, s. split; [exact H1|exact H2].
  - split; [apply reachable_initial|].
    eexists _, _, _. split; [vm_compute; reflexivity|].
    eapply (proj2 (total_defs_is_sum sample_resolve) ∅ sample_tree sample_mod);
      [apply reachable_initial|vm_compute; reflexivity].
Defined.

(** C10. In every summary [get_defs_summary] returns, the keys of
    [type_counts] are non-empty strings and its values are positive. *)
Theorem type_counts_positive resolve cache fs mod_path log s cache' :
  reachable resolve cache ->
  get_defs_summary resolve cache fs mod_path = (log, Ok (s, cache')) ->
  forall k v, type_counts s !! k = Some v -> k <> "" /\ 0 < v.
Proof.
  intros Hr Hget.
  destruct (get_entry_ok _ _ _ _ _ _ _ Hr Hget) as (sig & _ & _ & Hok & _). done.
Qed.

Lemma type_counts_positive_witness :
  reachable sample_resolve ∅ /\
  exists log s cache',
    get_defs_summary sample_resolve ∅ sample_tree sample_mod = (log, Ok (s, cache')) /\
    forall k v, type_counts s !! k = Some v -> k <> "" /\ 0 < v.
Proof.
  split; [apply reachable_initial|].
  eexists _, _, _. split; [vm_compute; reflexivity|].
  eapply (type_counts_positive sample_resolve ∅ sample_tree sample_mod);
    [apply reachable_initial|vm_compute; reflexivity].
Defined.

(** The only parse of the generator is that of the manifest. *)
Lemma choose_version_dir_log fs p l r :
  _choose_version_dir fs p = (l, Ok r) ->
  exists a, _about_xml_path fs p = Ok a /\ l = manifest_log a.
Proof.
  unfold _choose_version_dir.
  destruct (_about_xml_path fs p) as [a|e] eqn:Ha.
  - destruct (parse_supported_versions_total _ _ _ Ha) as [supported ->].
    intros H. exists a. split; [done|]. simpl in H.
    destruct (_find_available_version_dirs fs p) as [available|e]; simpl in H.
    + destruct (choose_from_resolved supported available) as (r' & Hr' & _).
      rewrite Hr' in H. rewrite !app_nil_r in H. by injection H as <- _.
    + discriminate.
  - unfold _parse_supported_versions. rewrite Ha. discriminate.
Qed.

Lemma not_yield_Yielded l :
  List.filter (fun ev => negb (is_yield ev)) (map Yielded l) = [].
Proof. induction l as [|p l IH]; simpl; done. Qed.

Lemma not_yield_manifest_log a :
  List.filter (fun ev => negb (is_yield ev)) (manifest_log a) = manifest_log a.
Proof. by destruct a. Qed.

Lemma iter_defs_xml_files_log fs p evs :
  _iter_defs_xml_files fs p = (evs, Ok tt) ->
  exists a, _about_xml_path fs p = Ok a /\
            List.filter (fun ev => negb (is_yield ev)) evs = manifest_log a.
Proof.
  unfold _iter_defs_xml_files.
  destruct (_find_case_insensitive_dir fs p "Defs") as [rd|e]; [|discriminate].
  destruct (_choose_version_dir fs p) as [l [r|e]] eqn:Hc.
  - apply choose_version_dir_log in Hc as (a & Ha & ->).
    intros H. exists a. split; [done|]. revert H.
    destruct r as [v|].
    + simpl. unfold yield_all, tell, ret.
      destruct (_find_case_insensitive_dir fs v "Defs") as [[vd|]|e];
        destruct rd as [rd|]; simpl; try discriminate; intros [= <-];
        by rewrite ?List.filter_app, ?not_yield_Yielded, ?not_yield_manifest_log,
                   ?app_nil_r.
    + unfold yield_all, tell, ret. destruct rd as [rd|]; simpl; intros [= <-];
        by rewrite ?List.filter_app, ?not_yield_Yielded, ?not_yield_manifest_log,
                   ?app_nil_r.
  - destruct rd as [rd|]; simpl; discriminate.
Qed.

Lemma compute_signature_log fs p l sig :
  _compute_signature fs p = (l, Ok sig) ->
  exists a, _about_xml_path fs p = Ok a /\ l = manifest_log a.
Proof.
  unfold _compute_signature, list_of.
  destruct (_iter_defs_xml_files fs p) as [evs [[]|e]] eqn:Hit; simpl; [|discriminate].
  apply iter_defs_xml_files_log in Hit as (a & Ha & Hl).
  rewrite app_nil_r, Hl. intros [= <- _]. eauto.
Qed.

Lemma get_hit resolve cache fs p l sig stored :
  _compute_signature fs p = (l, Ok sig) ->
  cache !! resolve p = Some (sig, stored) ->
  get resolve cache fs p = (l, Ok (stored, cache)).
Proof.
  intros Hsig Hc. unfold get. rewrite Hsig, Hc. simpl.
  rewrite bool_decide_eq_true_2 by done. simpl. by rewrite app_nil_r.
Qed.

Lemma get_stores resolve cache fs p l s cache' :
  get resolve cache fs p = (l, Ok (s, cache')) ->
  exists l1 sig, _compute_signature fs p = (l1, Ok sig) /\
                 cache' !! resolve p = Some (sig, s).
Proof.
  intros (l1 & sig & Hsig & [(Hc & -> & _)|(l2 & _ & _ & ->)])%get_cases;
    exists l1, sig; (split; [done|]); [done|apply lookup_insert_eq].
Qed.

Lemma about_xml_path_Some fs p a :
  _about_xml_path fs p = Ok (Some a) ->
  exists n1 n2, a = p ++ [n1; n2] /\ PyStr.lower n1 = "about".
Proof.
  unfold _about_xml_path.
  destruct (_find_case_insensitive_dir fs p "About") as [[about_dir|]|e] eqn:Hf;
    try discriminate.
  apply find_dir_Some in Hf as (es & n1 & m & es' & _ & -> & _ & Hn).
  destruct (scandir fs (p ++ [n1])) as [es2|[]]; simpl; try discriminate.
  intros [= (n2 & c & -> & _)%first_entry_Some].
  exists n1, n2. rewrite <- app_assoc. split; [done|].
  by apply String.eqb_eq in Hn.
Qed.

Lemma about_xml_path_dir_or_missing fs p a :
  _about_xml_path fs p = Ok a -> dir_or_missing fs p = true.
Proof.
  unfold _about_xml_path, _find_case_insensitive_dir, dir_or_missing.
  destruct (scandir fs p) as [es|[]]; simpl; done.
Qed.

Lemma manifest_not_enumerated fs p a :
  wf_node fs = true ->
  _about_xml_path fs p = Ok (Some a) ->
  a ∉ root_defs_files fs p ++ version_defs_files fs p.
Proof.
  intros Hwf Ha Hin.
  pose proof (about_xml_path_dir_or_missing _ _ _ Ha) as Hp.
  destruct (about_xml_path_Some _ _ _ Ha) as (n1 & n2 & -> & Hn1).
  destruct (find_dir_total fs p "Defs" Hp) as [root_defs Hrd].
  apply elem_of_app in Hin as [Hin|Hin].
  - apply (root_defs_files_spec _ _ _ _ Hwf Hrd) in Hin
      as (d & -> & rel & name & c & Heq & _).
    apply find_dir_Some in Hrd as (es & n & m & es' & _ & -> & _ & Hn).
    rewrite <- !app_assoc in Heq. apply app_inv_head in Heq.
    injection Heq as -> _. apply String.eqb_eq in Hn. rewrite Hn1 in Hn.
    discriminate Hn.
  - destruct (choose_version_dir_total fs p Hwf Hp)
      as (a' & supported & available & r & _ & _ & Hav & Hch & Hr & _).
    unfold version_defs_files in Hin. rewrite Hch in Hin. simpl in Hin.
    destruct r as [v|]; [|by apply elem_of_nil in Hin].
    apply choose_from_Some in Hr as [t Ht].
    destruct (find_available_dirs _ _ _ _ _ Hwf Hav Ht) as (vn & es & -> & _ & Hs).
    destruct (_find_case_insensitive_dir fs (p ++ [vn]) "Defs") as [[d|]|e] eqn:Hvd;
      try by apply elem_of_nil in Hin.
    destruct (find_dir_scandir _ _ _ _ Hwf Hvd) as [es2 Hes2].
    apply (os_walk_xml_files _ _ _ _ Hwf Hes2) in Hin as (rel & name & c & Heq & _).
    apply find_dir_Some in Hvd as (es3 & n & m & es' & _ & -> & _).
    apply (f_equal length) in Heq. rewrite !length_app in Heq. simpl in Heq. lia.
Qed.

(** C2, as amended.  When the cache holds an entry for the key of the path
    whose signature is the current one, [get_defs_summary] returns the stored
    summary and leaves the cache as it is, and it rescans nothing: the one
    file it parses is the manifest, if the mod has one, which the version
    resolver reads while the signature is computed, and which is none of the
    enumerated files.  A second call on the same file system returns what the
    first returned, and parses nothing but the manifest. *)
Theorem cache_hit_rescans_nothing resolve fs mod_path :
  (forall cache log sig stored,
     _compute_signature fs mod_path = (log, Ok sig) ->
     cache !! resolve mod_path = Some (sig, stored) ->
     get_defs_summary resolve cache fs mod_path = (log, Ok (stored, cache)) /\
     exists a, _about_xml_path fs mod_path = Ok a /\ log = manifest_log a) /\
  (forall cache log1 s cache1,
     get_defs_summary resolve cache fs mod_path = (log1, Ok (s, cache1)) ->
     exists a, _about_xml_path fs mod_path = Ok a /\
               get_defs_summary resolve cache1 fs mod_path =
                 (manifest_log a, Ok (s, cache1))) /\
  (forall a f,
     wf_node fs = true -> _about_xml_path fs mod_path = Ok a ->
     f ∈ yields (fst (_iter_defs_xml_files fs mod_path)) ->
     f ∉ parses (manifest_log a)).
Proof.
  split; [|split].
  - intros cache log sig stored Hsig Hc. split; [by eapply get_hit|].
    by eapply compute_signature_log.
  - intros cache log1 s cache1 (l1 & sig & Hsig & Hc)%get_stores.
    destruct (compute_signature_log _ _ _ _ Hsig) as (a & Ha & ->).
    exists a. split; [done|]. by eapply get_hit.
  - intros a f Hwf Ha Hf Hin. destruct a as [a|]; [|by apply elem_of_nil in Hin].
    simpl in Hin. apply list_elem_of_singleton in Hin as ->.
    pose proof (about_xml_path_dir_or_missing _ _ _ Ha) as Hp.
    destruct (iter_defs_xml_files_total fs mod_path Hwf Hp) as (a' & _ & Hit).
    rewrite Hit in Hf. simpl in Hf. rewrite yields_iter in Hf.
    by eapply manifest_not_enumerated.
Qed.

Lemma cache_hit_rescans_nothing_witness :
  exists log1 s cache1,
    get_defs_summary sample_resolve ∅ sample_tree sample_mod = (log1, Ok (s, cache1)) /\
    exists a, _about_xml_path sample_tree sample_mod = Ok a /\
              get_defs_summary sample_resolve cache1 sample_tree sample_mod =
                (manifest_log a, Ok (s, cache1)).
Proof.
  eexists _, _, _. split; [vm_compute; reflexivity|].
  eapply (proj1 (proj2 (cache_hit_rescans_nothing sample_resolve sample_tree sample_mod)) ∅).
  vm_compute. reflexivity.
Defined.

(** C2, as stated, fails: on a cache hit the manifest is parsed again.  The
    second of two calls on the sample mod is a hit and parses [About.xml]. *)
Lemma cache_hit_parses_manifest :
  (exists sig s,
     snd (_compute_signature sample_tree sample_mod) = Ok sig /\
     sample_cache !! sample_resolve sample_mod = Some (sig, s) /\
     get_defs_summary sample_resolve sample_cache sample_tree sample_mod =
       ([Parsed (sample_mod ++ ["About"; "About.xml"])], Ok (s, sample_cache))) /\
  ~ (forall resolve cache fs mod_path sig stored,
       snd (_compute_signature fs mod_path) = Ok sig ->
       cache !! resolve mod_path = Some (sig, stored) ->
       parses (fst (get_defs_summary resolve cache fs mod_path)) = []).
Proof.
  split.
  - eexists _, _. split; [vm_compute; reflexivity|].
    split; vm_compute; reflexivity.
  - intros H.
    assert (Hc : exists sig s,
      snd (_compute_signature sample_tree sample_mod) = Ok sig /\
      sample_cache !! sample_resolve sample_mod = Some (sig, s)).
    { eexists _, _. split; vm_compute; reflexivity. }
    destruct Hc as (sig & s & Hsig & Hc).
    specialize (H sample_resolve sample_cache sample_tree sample_mod sig s Hsig Hc).
    vm_compute in H. discriminate H.
Qed.

(** ** One file of the scan *)

Example namespace_stripping :
  count_children [Element "{http://example.com}ThingDef" [] None []] ∅
  = {[ "ThingDef" := 1 ]}.
Proof. vm_compute. reflexivity. Qed.

Example non_defs_root_skipped :
  scan_file sample_tree (sample_mod ++ ["Defs"; "meta.xml"]) (∅, 0)
  = ([Parsed (sample_mod ++ ["Defs"; "meta.xml"])], Ok (∅, 0)).
Proof. vm_compute. reflexivity. Qed.

(** ** Files that do not parse *)

Lemma scan_files_unparsed fs files st :
  scan_files fs files st =
  scan_files fs (List.filter (fun f => bool_decide (is_Some (parsed_root fs f))) files) st.
Proof.
  unfold scan_files. revert st. induction files as [|f files IH]; intros st; simpl; [done|].
  unfold scan_step at 2. destruct (parsed_root fs f) as [root|] eqn:Hf; simpl.
  - rewrite IH. unfold scan_step at 3. by rewrite Hf.
  - apply IH.
Qed.

(** C7. A file that [ET.parse] rejects leaves the state of the scan as it
    is, and the scan goes on: the summary is the one of the files that parse,
    and no error is raised.  A [Defs] directory with one well-formed file of
    three child nodes and one truncated file gives [total_defs = 3] and
    [files_scanned = 1]. *)
Theorem malformed_file_is_skipped :
  (forall fs f st,
     parsed_root fs f = None -> scan_file fs f st = ([Parsed f], Ok st)) /\
  (forall fs mod_path,
     wf_node fs = true -> dir_or_missing fs mod_path = true ->
     exists log s,
       _scan_defs fs mod_path = (log, Ok s) /\
       s = summary_of
             (scan_files fs
                (List.filter (fun f => bool_decide (is_Some (parsed_root fs f)))
                             (yields (fst (_iter_defs_xml_files fs mod_path))))
                (∅, 0))) /\
  (forall t1 t2 t3 m1 m2 good_first,
     PyStr.nonempty (_strip_ns t1) = true ->
     PyStr.nonempty (_strip_ns t2) = true ->
     PyStr.nonempty (_strip_ns t3) = true ->
     exists log s,
       _scan_defs (mod_with_truncated t1 t2 t3 m1 m2 good_first) [] = (log, Ok s) /\
       total_defs s = 3 /\ files_scanned s = 1).
Proof.
  split; [|split].
  - intros fs f st Hf. rewrite scan_file_step. unfold scan_step. by rewrite Hf.
  - intros fs p Hwf Hp.
    destruct (iter_defs_xml_files_total fs p Hwf Hp) as (a & _ & Hit).
    destruct (scan_defs_total fs p Hwf Hp) as [log Hs].
    eexists log, _. split; [exact Hs|].
    rewrite Hit. simpl. rewrite yields_iter. f_equal. apply scan_files_unparsed.
  - intros t1 t2 t3 m1 m2 good_first H1 H2 H3.
    set (fs := mod_with_truncated t1 t2 t3 m1 m2 good_first).
    assert (Hwf : wf_node fs = true) by by destruct good_first.
    destruct (scan_defs_total fs [] Hwf eq_refl) as [log Hs].
    eexists log, _. split; [exact Hs|].
    destruct (scan_files_spec fs (root_defs_files fs [] ++ version_defs_files fs [])
                (∅, 0) "") as (_ & Ht & Hn & _).
    cbn [fst snd] in Ht, Hn. unfold summary_of. cbn [total_defs files_scanned fst snd].
    rewrite Ht, Hn, sum_values_empty.
    destruct good_first; vm_compute root_defs_files; vm_compute version_defs_files;
      unfold file_defs, file_scanned, defs_root, parsed_root, named_children; simpl;
      rewrite H1, H2, H3; done.
Qed.

Lemma malformed_file_is_skipped_witness :
  exists log s,
    _scan_defs (mod_with_truncated "ThingDef" "ThingDef" "RecipeDef" 1 2 true) []
      = (log, Ok s) /\
    total_defs s = 3 /\ files_scanned s = 1.
Proof.
  apply (proj2 (proj2 malformed_file_is_skipped)); reflexivity.
Defined.

(** ** The metrics reader *)

Example sample_metrics_read :
  Metrics.get_total_ms_by_mod_name (Some (Some sample_metrics)) Metrics.initial
  = ({[ "core" := 1200 ]},
     Metrics.mkGlobals (Some {[ "core" := 1200 ]}) (Some 1200),
     [Metrics.Probed; Metrics.Read]).
Proof. vm_compute. reflexivity. Qed.

Lemma get_total_sets_cache file g m g1 log :
  Metrics.get_total_ms_by_mod_name file g = (m, g1, log) ->
  Metrics._cache g1 = Some m.
Proof.
  unfold Metrics.get_total_ms_by_mod_name.
  destruct (Metrics._cache g) as [cached|] eqn:Hc.
  - by intros [= <- <- _].
  - destruct file as [[root|]|]; [destruct (find_child "Mods" root)|..];
      by intros [= <- <- _].
Qed.

Lemma get_total_cached file g m :
  Metrics._cache g = Some m ->
  Metrics.get_total_ms_by_mod_name file g = (m, g, []).
Proof. intros Hc. unfold Metrics.get_total_ms_by_mod_name. by rewrite Hc. Qed.

Lemma step_keeps_cache g c m :
  Metrics._cache g = Some m -> Metrics._cache (Metrics.step g c) = Some m.
Proof.
  intros Hc. destruct c as [file|file]; simpl.
  - by rewrite (get_total_cached file g m Hc).
  - unfold Metrics.get_max_total_ms.
    destruct (Metrics._max_total_ms g); [done|].
    by rewrite (get_total_cached file g m Hc).
Qed.

Lemma run_keeps_cache calls g m :
  Metrics._cache g = Some m -> Metrics._cache (Metrics.run calls g) = Some m.
Proof.
  unfold Metrics.run. revert g. induction calls as [|c calls IH]; intros g Hc; simpl.
  - done.
  - by apply IH, step_keeps_cache.
Qed.

(** C9. Once [get_total_ms_by_mod_name] has returned a mapping, every later
    call returns that mapping, whatever has been called in between and
    whatever the metrics file has become, without probing or reading the
    file and without a change to the globals. *)
Theorem metrics_are_a_snapshot file g m g1 log :
  Metrics.get_total_ms_by_mod_name file g = (m, g1, log) ->
  forall calls file',
    Metrics.get_total_ms_by_mod_name file' (Metrics.run calls g1)
    = (m, Metrics.run calls g1, []).
Proof.
  intros Hget calls file'. apply get_total_cached, run_keeps_cache.
  by eapply get_total_sets_cache.
Qed.

Lemma metrics_are_a_snapshot_witness :
  Metrics.get_total_ms_by_mod_name (Some (Some sample_metrics)) Metrics.initial
  = ({[ "core" := 1200 ]},
     Metrics.mkGlobals (Some {[ "core" := 1200 ]}) (Some 1200),
     [Metrics.Probed; Metrics.Read]) /\
  Metrics.get_total_ms_by_mod_name None
    (Metrics.run [Metrics.CallMax None; Metrics.CallTotal (Some None)]
       (Metrics.mkGlobals (Some {[ "core" := 1200 ]}) (Some 1200)))
  = ({[ "core" := 1200 ]},
     Metrics.run [Metrics.CallMax None; Metrics.CallTotal (Some None)]
       (Metrics.mkGlobals (Some {[ "core" := 1200 ]}) (Some 1200)),
     []).
Proof.
  split; [vm_compute; reflexivity|].
  apply (metrics_are_a_snapshot (Some (Some sample_metrics)) Metrics.initial
           _ _ [Metrics.Probed; Metrics.Read]).
  vm_compute. reflexivity.
Defined.

(** * Further properties *)

(** ** Namespaces *)

Lemma find_char_absent c s : has_char c s = false -> PyStr.find_char c s = None.
Proof.
  induction s as [|a s IH]; simpl; [done|].
  intros [Ha Hs]%orb_false_elim. by rewrite Ha, (IH Hs).
Qed.

Lemma find_char_first c ns r :
  has_char c ns = false ->
  PyStr.find_char c (String.append ns (String c r)) = Some (String.length ns).
Proof.
  induction ns as [|a ns IH]; intros Hns.
  - rewrite append_nil_l. simpl. by rewrite Ascii.eqb_refl.
  - simpl in Hns. apply orb_false_elim in Hns as [Ha Hns].
    rewrite append_cons. simpl. by rewrite Ha, (IH Hns).
Qed.

Lemma drop_past ns c r :
  PyStr.drop (String.length ns + 1) (String.append ns (String c r)) = r.
Proof.
  induction ns as [|a ns IH]; [done|]. rewrite append_cons. simpl. apply IH.
Qed.

Lemma find_char_split c s i :
  PyStr.find_char c s = Some i ->
  exists ns, has_char c ns = false /\ String.length ns = i /\
             s = String.append ns (String c (PyStr.drop (i + 1) s)).
Proof.
  revert i. induction s as [|a s IH]; intros i; simpl; [discriminate|].
  destruct (Ascii.eqb_spec a c) as [->|Hne].
  - intros [= <-]. exists "". by rewrite append_nil_l.
  - destruct (PyStr.find_char c s) as [j|]; [|discriminate].
    intros [= <-]. destruct (IH j eq_refl) as (ns & Hns & Hlen & Hs).
    exists (String a ns). simpl. split.
    + rewrite Hns. by apply Ascii.eqb_neq in Hne as ->.
    + split; [by rewrite Hlen|]. rewrite append_cons. by rewrite <- Hs.
Qed.

(** X1. A tag in Clark notation, [{ns}local] with no closing brace inside
    [ns], is stripped to [local], whatever [local] is. *)
Theorem strip_ns_clark ns local :
  has_char "}" ns = false ->
  _strip_ns (String "{" (String.append ns (String "}" local))) = local.
Proof.
  intros Hns. unfold _strip_ns. simpl.
  rewrite (find_char_first _ _ _ Hns).
  replace (PyStr.startswith _ "") with true
    by (by destruct (String.append ns (String "}" local))).
  apply (drop_past ns "}" local).
Qed.

Lemma strip_ns_clark_witness :
  has_char "}" "http://example.com" = false /\
  _strip_ns (String "{" (String.append "http://example.com" (String "}" "ThingDef")))
  = "ThingDef".
Proof.
  split; [reflexivity|]. apply (strip_ns_clark "http://example.com" "ThingDef").
  reflexivity.
Defined.

(** X2. [_strip_ns] leaves a tag as it is unless the tag starts with an
    opening brace and holds a closing one; what it then removes is exactly
    the leading [{...}] up to the first closing brace. *)
Theorem strip_ns_removes_one_prefix tag :
  (PyStr.startswith tag "{" = false \/ has_char "}" tag = false ->
   _strip_ns tag = tag) /\
  (PyStr.startswith tag "{" = true -> has_char "}" tag = true ->
   exists ns, has_char "}" ns = false /\
              tag = String "{" (String.append ns (String "}" (_strip_ns tag)))).
Proof.
  unfold _strip_ns. destruct tag as [|a tag]; [split; [done|simpl; discriminate]|].
  assert (Hsw : PyStr.startswith (String a tag) "{" = Ascii.eqb "{" a).
  { change (PyStr.startswith (String a tag) "{")
      with (if Ascii.eqb "{" a then PyStr.startswith tag "" else false).
    destruct (Ascii.eqb "{" a); [by destruct tag|done]. }
  rewrite Hsw. cbn [PyStr.nonempty negb].
  destruct (Ascii.eqb_spec "{" a) as [<-|Hne]; [|split; [done|discriminate]].
  simpl. split.
  - intros [?|Hc]; [done|]. by rewrite (find_char_absent _ _ Hc).
  - intros _ Hc. destruct (PyStr.find_char "}" tag) as [i|] eqn:Hf.
    + destruct (find_char_split _ _ _ Hf) as (ns & Hns & Hlen & Hs).
      exists ns. split; [done|]. f_equal.
      replace (S i + 1)%nat with (S (i + 1)) by lia. exact Hs.
    + exfalso. clear -Hc Hf. induction tag as [|b tag IH]; simpl in *; [done|].
      destruct (Ascii.eqb b "}"); [done|].
      destruct (PyStr.find_char "}" tag); [done|]. by apply IH.
Qed.

Lemma strip_ns_removes_one_prefix_witness :
  exists ns, has_char "}" ns = false /\
             "{a}{b}c" = String "{" (String.append ns (String "}" (_strip_ns "{a}{b}c"))).
Proof.
  apply (proj2 (strip_ns_removes_one_prefix "{a}{b}c")); reflexivity.
Defined.

(** ** Version strings *)

Lemma length_append a b :
  String.length (String.append a b) = (String.length a + String.length b)%nat.
Proof. induction a as [|c a IH]; [done|]. rewrite append_cons. simpl. by rewrite IH. Qed.

Lemma re_search_leftmost_greedy s g1 g2 :
  re_search s = Some (g1, g2) ->
  exists pre,
    match_at s pre g1 g2 /\
    (forall pre' g1' g2', match_at s pre' g1' g2' ->
                          (String.length pre <= String.length pre')%nat) /\
    (forall g1' g2', match_at s pre g1' g2' ->
                     g1' = g1 /\ exists ext, g2 = String.append g2' ext).
Proof.
  induction s as [|c s IH].
  - simpl. discriminate.
  - simpl re_search. destruct (match_here (String c s)) as [[h1 h2]|] eqn:Hm.
    + intros [= -> ->]. exists "". split; [by apply match_here_sound|]. split.
      * intros. simpl. lia.
      * intros g1' g2' [ext Hm']%match_here_complete.
        rewrite Hm in Hm'. injection Hm' as -> ->. eauto.
    + intros (pre & (Hd1 & Hd2 & post & Hs) & Hleft & Hgreedy)%IH.
      exists (String c pre). split; [|split].
      * split; [done|]. split; [done|]. exists post. by rewrite append_cons, <- Hs.
      * intros pre' g1' g2' Hm'. destruct pre' as [|c' pre'].
        -- apply match_here_complete in Hm' as [g2'' Hm']. congruence.
        -- simpl. apply le_n_S. apply (Hleft pre' g1' g2').
           destruct Hm' as (Hd1' & Hd2' & post' & Hs').
           split; [done|]. split; [done|]. exists post'.
           rewrite append_cons in Hs'. by injection Hs' as _ ->.
      * intros g1' g2' (Hd1' & Hd2' & post' & Hs'). apply Hgreedy.
        split; [done|]. split; [done|]. exists post'.
        rewrite append_cons in Hs'. by injection Hs' as ->.
Qed.

(** X3. When [_normalize_version_string] gives a tag, the string holds a
    match of digits, a dot and digits; the match taken is the leftmost one,
    its groups are as long as they can be, and the tag is the pair of their
    decimal values. *)
Theorem normalize_version_string_sound version major minor :
  _normalize_version_string version = Some (major, minor) ->
  exists pre g1 g2,
    match_at version pre g1 g2 /\
    major = PyStr.digits_val g1 0 /\ minor = PyStr.digits_val g2 0 /\
    (forall pre' g1' g2', match_at version pre' g1' g2' ->
                          (String.length pre <= String.length pre')%nat) /\
    (forall g1' g2', match_at version pre g1' g2' ->
                     g1' = g1 /\ exists ext, g2 = String.append g2' ext).
Proof.
  unfold _normalize_version_string, PyStr.int_of_digits.
  destruct (re_search version) as [[g1 g2]|] eqn:Hr; [|discriminate].
  destruct (Nat.ltb _ (String.length g1)); [discriminate|].
  destruct (Nat.ltb _ (String.length g2)); [discriminate|].
  intros [= <- <-].
  destruct (re_search_leftmost_greedy _ _ _ Hr) as (pre & Hm & Hl & Hg).
  by exists pre, g1, g2.
Qed.

Lemma normalize_version_string_sound_witness :
  _normalize_version_string "v1.10-beta2.7" = Some (1, 10)%N /\
  exists pre g1 g2,
    match_at "v1.10-beta2.7" pre g1 g2 /\
    1%N = PyStr.digits_val g1 0 /\ 10%N = PyStr.digits_val g2 0 /\
    (forall pre' g1' g2', match_at "v1.10-beta2.7" pre' g1' g2' ->
                          (String.length pre <= String.length pre')%nat) /\
    (forall g1' g2', match_at "v1.10-beta2.7" pre g1' g2' ->
                     g1' = g1 /\ exists ext, g2 = String.append g2' ext).
Proof.
  split; [reflexivity|].
  apply (normalize_version_string_sound "v1.10-beta2.7" 1 10). reflexivity.
Defined.

(** X4. A string of at most 4300 characters, such as a directory name, is
    given no tag exactly when no digits, dot, digits occur in it. *)
Theorem normalize_version_string_None version :
  (String.length version <= PyStr.max_str_digits)%nat ->
  (_normalize_version_string version = None <->
   ~ exists pre g1 g2, match_at version pre g1 g2).
Proof.
  intros Hlen. unfold _normalize_version_string. split.
  - intros Hnone (pre & g1 & g2 & Hm).
    destruct (re_search_complete _ _ _ _ Hm) as [[h1 h2] Hr]. rewrite Hr in Hnone.
    destruct (re_search_sound _ _ _ Hr) as (pre' & (_ & _ & post & Hs) & _).
    apply (f_equal String.length) in Hs. rewrite !length_append in Hs.
    simpl in Hs. rewrite length_append in Hs.
    unfold PyStr.int_of_digits in Hnone.
    destruct (Nat.ltb_spec PyStr.max_str_digits (String.length h1)); [lia|].
    destruct (Nat.ltb_spec PyStr.max_str_digits (String.length h2)); [lia|].
    discriminate.
  - intros Hno. destruct (re_search version) as [[g1 g2]|] eqn:Hr; [|done].
    exfalso. apply Hno.
    destruct (re_search_sound _ _ _ Hr) as (pre & Hm & _). eauto.
Qed.

Lemma normalize_version_string_None_witness :
  (String.length "Defs" <= PyStr.max_str_digits)%nat /\
  (_normalize_version_string "Defs" = None <->
   ~ exists pre g1 g2, match_at "Defs" pre g1 g2).
Proof.
  split; [vm_compute; lia|].
  apply (normalize_version_string_None "Defs"). vm_compute. lia.
Defined.

(** ** Version folders *)

Lemma add_version_dir_other mod_root es acc t :
  (forall name c, (name, c) ∈ es -> is_dir c = true ->
                  _normalize_version_string name <> Some t) ->
  fold_left (add_version_dir mod_root) es acc !! t = acc !! t.
Proof.
  revert acc. induction es as [|[name c] es IH]; intros acc Hes; simpl; [done|].
  rewrite IH by (intros n' c' Hin; apply Hes; by right).
  unfold add_version_dir. simpl.
  destruct (is_dir c) eqn:Hc; simpl; [|done].
  destruct (_normalize_version_string name) as [norm|] eqn:Hn; [|done].
  apply lookup_insert_ne. intros ->. by apply (Hes name c); [left|..].
Qed.

(** X7. When several sub-directories of the mod root have the same version
    tag, [_find_available_version_dirs] keeps the one listed last. *)
Theorem find_available_last_wins fs mod_root es1 name c es2 t :
  scandir fs mod_root = Ok (es1 ++ (name, c) :: es2) ->
  is_dir c = true ->
  _normalize_version_string name = Some t ->
  (forall name' c', (name', c') ∈ es2 -> is_dir c' = true ->
                    _normalize_version_string name' <> Some t) ->
  exists available,
    _find_available_version_dirs fs mod_root = Ok available /\
    available !! t = Some (mod_root ++ [name]).
Proof.
  intros Hs Hc Hn Hes2. unfold _find_available_version_dirs. rewrite Hs. simpl.
  eexists. split; [done|].
  rewrite fold_left_app. simpl. rewrite add_version_dir_other by done.
  unfold add_version_dir at 1. simpl. rewrite Hc, Hn. simpl.
  apply lookup_insert_eq.
Qed.

Lemma find_available_last_wins_witness :
  exists available,
    _find_available_version_dirs
      (Dir 0 [("1.4", Dir 0 []); ("v1.4", Dir 0 []); ("1.5", Dir 0 [])]) []
      = Ok available /\
    available !! (1, 4)%N = Some ["v1.4"].
Proof.
  apply (find_available_last_wins _ [] [("1.4", Dir 0 [])] "v1.4" (Dir 0 [])
           [("1.5", Dir 0 [])] (1, 4)%N); try reflexivity.
  intros name' c' Hin Hd. apply list_elem_of_singleton in Hin. injection Hin as -> ->.
  discriminate.
Defined.



(** ** The enumerated files are distinct *)

Lemma is_digit_lower_char c : PyStr.is_digit (PyStr.lower_char c) = PyStr.is_digit c.
Proof. by destruct c as [[] [] [] [] [] [] [] []]. Qed.

Lemma no_digit_lower s : no_digit (PyStr.lower s) = no_digit s.
Proof.
  induction s as [|c s IH]; simpl; [done|]. by rewrite is_digit_lower_char, IH.
Qed.

Lemma no_digit_no_match s : no_digit s = true -> re_search s = None.
Proof.
  induction s as [|c s IH]; [done|]. simpl no_digit.
  intros [Hc Hs]%andb_prop. apply negb_true_iff in Hc.
  simpl re_search. unfold match_here. simpl. rewrite Hc. by apply IH.
Qed.

Lemma defs_name_no_version name :
  PyStr.lower name = PyStr.lower "Defs" -> _normalize_version_string name = None.
Proof.
  intros Hn. unfold _normalize_version_string. rewrite no_digit_no_match; [done|].
  by rewrite <- no_digit_lower, Hn.
Qed.

Lemma NoDup_filter_fst {A B} (f : A * B -> bool) (es : list (A * B)) :
  NoDup (map fst es) -> NoDup (map fst (List.filter f es)).
Proof.
  induction es as [|e es IH]; simpl; [done|].
  intros [He Hes]%NoDup_cons. destruct (f e); simpl; [|by apply IH].
  apply NoDup_cons. split; [|by apply IH].
  intros Hin. apply He. apply list_elem_of_fmap in Hin as (e' & -> & Hin).
  apply list_elem_of_In, filter_In in Hin as [Hin _].
  apply list_elem_of_fmap. exists e'. by rewrite list_elem_of_In.
Qed.

Lemma NoDup_List_filter {A} (f : A -> bool) (l : list A) :
  NoDup l -> NoDup (List.filter f l).
Proof.
  induction l as [|x l IH]; simpl; [done|].
  intros [Hx Hl]%NoDup_cons. destruct (f x); [|by apply IH].
  apply NoDup_cons. split; [|by apply IH].
  intros [Hin _]%list_elem_of_In%filter_In. by apply Hx, list_elem_of_In.
Qed.

Lemma walk_node_xml_files_NoDup n :
  forall top, wf_node n = true -> NoDup (xml_files (walk_node top n)).
Proof.
  induction n as [m x| |m es IH] using node_nested_ind; intros top Hwf;
    [apply NoDup_nil_2..|].
  pose proof Hwf as [Hnd Hall]%wf_node_Dir.
  rewrite walk_node_Dir. change (xml_files (?x :: ?l)) with (xml_files ([x] ++ l)).
  rewrite xml_files_app. apply NoDup_app. split; [|split].
  - unfold xml_files. simpl. rewrite app_nil_r.
    apply (NoDup_fmap_2 (fun file => top ++ [file])).
    by apply NoDup_List_filter, NoDup_filter_fst.
  - intros f Hf Hf'. unfold xml_files in Hf. simpl in Hf. rewrite app_nil_r in Hf.
    apply list_elem_of_fmap in Hf as (file & -> & _).
    apply list_elem_of_In, xml_files_flat_map in Hf' as ([k c] & Hin & Hf').
    apply list_elem_of_In in Hin. simpl in Hf'.
    apply walk_node_xml_files in Hf' as (rel & name & c' & Heq & _);
      [|by eapply Hall].
    apply (f_equal length) in Heq. rewrite !length_app in Heq. simpl in Heq. lia.
  - clear Hwf. induction es as [|[k c] es IHes]; [apply NoDup_nil_2|].
    simpl. rewrite xml_files_app.
    apply NoDup_cons in Hnd as [Hk Hnd]. apply Forall_cons in IH as [IHc IH].
    apply NoDup_app. split; [|split].
    + apply IHc. apply (Hall k c). left.
    + intros f Hf Hf'.
      apply list_elem_of_In, walk_node_xml_files in Hf
        as (rel & name & c1 & -> & _); [|apply (Hall k c); left].
      apply list_elem_of_In, xml_files_flat_map in Hf' as ([k' c'] & Hin & Hf').
      apply list_elem_of_In in Hin. simpl in Hf'.
      apply walk_node_xml_files in Hf' as (rel' & name' & c2 & Heq & _);
        [|apply (Hall k' c'); by right].
      rewrite <- !app_assoc in Heq. apply app_inv_head in Heq.
      injection Heq as -> _. apply Hk.
      exact (list_elem_of_fmap_2 fst _ (k', c') Hin).
    + apply IHes; [done|done|]. intros k' c' Hin. apply (Hall k' c'). by right.
Qed.

Lemma os_walk_NoDup fs d es :
  wf_node fs = true -> scandir fs d = Ok es -> NoDup (xml_files (os_walk fs d)).
Proof.
  intros Hwf [m Hd]%scandir_Ok. unfold os_walk. rewrite Hd.
  apply walk_node_xml_files_NoDup. by eapply wf_node_at.
Qed.

Lemma root_defs_files_shape fs p :
  wf_node fs = true ->
  NoDup (root_defs_files fs p) /\
  forall f, f ∈ root_defs_files fs p ->
    exists n rel name, PyStr.lower n = PyStr.lower "Defs" /\
                       f = p ++ [n] ++ rel ++ [name].
Proof.
  intros Hwf. unfold root_defs_files.
  destruct (_find_case_insensitive_dir fs p "Defs") as [[d|]|e] eqn:Hf;
    try (split; [apply NoDup_nil_2|by intros f ?%elem_of_nil]).
  destruct (find_dir_scandir _ _ _ _ Hwf Hf) as [es Hes].
  split; [by eapply os_walk_NoDup|].
  intros f (rel & name & c & -> & _)%(os_walk_xml_files _ _ _ _ Hwf Hes).
  apply find_dir_Some in Hf as (es0 & n & m & es' & _ & -> & _ & Hn).
  exists n, rel, name. split; [by apply String.eqb_eq in Hn|].
  by rewrite <- !app_assoc.
Qed.

Lemma version_defs_files_shape fs p :
  wf_node fs = true -> dir_or_missing fs p = true ->
  NoDup (version_defs_files fs p) /\
  forall f, f ∈ version_defs_files fs p ->
    exists vn t n rel name, _normalize_version_string vn = Some t /\
                            f = p ++ [vn] ++ [n] ++ rel ++ [name].
Proof.
  intros Hwf Hp. unfold version_defs_files.
  destruct (choose_version_dir_total fs p Hwf Hp)
    as (a & supported & available & r & _ & _ & Hav & Hch & Hr & _).
  rewrite Hch. simpl.
  destruct r as [v|]; [|split; [apply NoDup_nil_2|by intros f ?%elem_of_nil]].
  apply choose_from_Some in Hr as [t Ht].
  destruct (find_available_dirs _ _ _ _ _ Hwf Hav Ht) as (vn & es & -> & Hvn & Hs).
  destruct (_find_case_insensitive_dir fs (p ++ [vn]) "Defs") as [[d|]|e] eqn:Hf;
    try (split; [apply NoDup_nil_2|by intros f ?%elem_of_nil]).
  destruct (find_dir_scandir _ _ _ _ Hwf Hf) as [es2 Hes2].
  split; [by eapply os_walk_NoDup|].
  intros f (rel & name & c & -> & _)%(os_walk_xml_files _ _ _ _ Hwf Hes2).
  apply find_dir_Some in Hf as (es0 & n & m & es' & _ & -> & _).
  exists vn, t, n, rel, name. split; [done|]. by rewrite <- !app_assoc.
Qed.

(** X9. On a well-formed tree the enumerator yields every file once: the
    root-level and the version-level [Defs] trees share no path, and every
    yielded path lies at least one directory below the mod root. *)
Theorem iter_defs_xml_files_distinct fs mod_path :
  wf_node fs = true -> dir_or_missing fs mod_path = true ->
  exists log,
    _iter_defs_xml_files fs mod_path = (log, Ok tt) /\
    NoDup (yields log) /\
    forall f, f ∈ yields log ->
      exists d rel name, f = mod_path ++ [d] ++ rel ++ [name].
Proof.
  intros Hwf Hp.
  destruct (iter_defs_xml_files_total fs mod_path Hwf Hp) as (a & _ & Hit).
  destruct (root_defs_files_shape fs mod_path Hwf) as [HR HRs].
  destruct (version_defs_files_shape fs mod_path Hwf Hp) as [HV HVs].
  eexists. split; [exact Hit|]. rewrite yields_iter. split.
  - apply NoDup_app. split; [done|]. split; [|done].
    intros f (n & rel & name & Hn & ->)%HRs
             (vn & t & n' & rel' & name' & Hvn & Heq)%HVs.
    apply app_inv_head in Heq. injection Heq as -> _.
    by rewrite (defs_name_no_version _ Hn) in Hvn.
  - intros f [Hf|Hf]%elem_of_app.
    + destruct (HRs f Hf) as (n & rel & name & _ & ->). eauto.
    + destruct (HVs f Hf) as (vn & t & n & rel & name & _ & ->).
      exists vn, (n :: rel), name. done.
Qed.

Lemma iter_defs_xml_files_distinct_witness :
  wf_node sample_tree = true /\ dir_or_missing sample_tree sample_mod = true /\
  exists log, _iter_defs_xml_files sample_tree sample_mod = (log, Ok tt) /\
              NoDup (yields log).
Proof.
  split; [reflexivity|]. split; [reflexivity|].
  destruct (iter_defs_xml_files_distinct sample_tree sample_mod eq_refl eq_refl)
    as (log & H1 & H2 & _).
  exists log. split; [exact H1|exact H2].
Defined.

(** ** The scan does not depend on the order of the files *)

Lemma incr_comm counter a b : incr (incr counter a) b = incr (incr counter b) a.
Proof.
  destruct (decide (a = b)) as [->|Hne]; [done|].
  unfold incr at 1 3. rewrite !count_incr.
  rewrite (proj2 (String.eqb_neq a b)), (proj2 (String.eqb_neq b a)) by congruence.
  rewrite !Z.add_0_r. unfold incr. apply insert_insert_ne. congruence.
Qed.

Lemma fold_left_Permutation {A B} (f : B -> A -> B) :
  (forall b x y, f (f b x) y = f (f b y) x) ->
  forall l l', l ≡ₚ l' -> forall b, fold_left f l b = fold_left f l' b.
Proof.
  intros Hf l l' Hp. induction Hp as [|x l l' _ IH|x y l|l l' l'' _ IH1 _ IH2];
    intros b; simpl.
  - done.
  - apply IH.
  - by rewrite Hf.
  - by rewrite IH1.
Qed.

Lemma count_children_comm cs1 cs2 counter :
  count_children cs1 (count_children cs2 counter) =
  count_children cs2 (count_children cs1 counter).
Proof.
  unfold count_children. rewrite <- !fold_left_app.
  apply fold_left_Permutation; [|apply Permutation_app_comm].
  intros c x y.
  destruct (PyStr.nonempty (_strip_ns (tag_of x))),
           (PyStr.nonempty (_strip_ns (tag_of y))); try done.
  apply incr_comm.
Qed.

Lemma scan_step_comm fs st f g :
  scan_step fs (scan_step fs st f) g = scan_step fs (scan_step fs st g) f.
Proof.
  unfold scan_step.
  destruct (parsed_root fs f) as [rf|], (parsed_root fs g) as [rg|]; try done.
  unfold scan_root.
  destruct (negb (String.eqb (PyStr.lower (_strip_ns (tag_of rf))) "defs")),
           (negb (String.eqb (PyStr.lower (_strip_ns (tag_of rg))) "defs"));
    simpl; try done.
  f_equal; first [apply count_children_comm|lia].
Qed.

(** X10. The state of a scan, hence its summary, depends on which files are
    scanned and not on their order: any rearrangement of the file list gives
    the same counters and the same number of files scanned. *)
Theorem scan_files_order_irrelevant fs files files' st :
  files ≡ₚ files' ->
  scan_files fs files st = scan_files fs files' st /\
  summary_of (scan_files fs files st) = summary_of (scan_files fs files' st).
Proof.
  intros Hp.
  assert (H : scan_files fs files st = scan_files fs files' st).
  { unfold scan_files. apply fold_left_Permutation; [|done].
    intros b x y. apply scan_step_comm. }
  split; [done|by rewrite H].
Qed.

Lemma scan_files_order_irrelevant_witness :
  summary_of (scan_files sample_tree
                [sample_mod ++ ["Defs"; "a.xml"]; sample_mod ++ ["1.4"; "defs"; "d.xml"]]
                (∅, 0)) =
  summary_of (scan_files sample_tree
                [sample_mod ++ ["1.4"; "defs"; "d.xml"]; sample_mod ++ ["Defs"; "a.xml"]]
                (∅, 0)).
Proof.
  apply (scan_files_order_irrelevant sample_tree
           [sample_mod ++ ["Defs"; "a.xml"]; sample_mod ++ ["1.4"; "defs"; "d.xml"]]
           [sample_mod ++ ["1.4"; "defs"; "d.xml"]; sample_mod ++ ["Defs"; "a.xml"]]).
  apply perm_swap.
Defined.

(** ** Bounds of a summary *)

Lemma parses_app l1 l2 : parses (l1 ++ l2) = parses l1 ++ parses l2.
Proof.
  induction l1 as [|[p|p] l1 IH]; simpl; [done| |done]. by rewrite IH.
Qed.

Lemma parses_scan_log_Yielded l : parses (scan_log (map Yielded l)) = l.
Proof. induction l as [|p l IH]; simpl; [done|]. by rewrite IH. Qed.

(** X12. A scan parses every enumerated file once, in the order of the
    enumeration, with the manifest, if there is one, parsed between the
    root-level and the version-level files. *)
Theorem scan_defs_parses_each_file_once fs mod_path :
  wf_node fs = true -> dir_or_missing fs mod_path = true ->
  exists log s a,
    _scan_defs fs mod_path = (log, Ok s) /\
    _about_xml_path fs mod_path = Ok a /\
    parses log = root_defs_files fs mod_path ++ parses (manifest_log a) ++
                 version_defs_files fs mod_path /\
    NoDup (parses log).
Proof.
  intros Hwf Hp.
  destruct (iter_defs_xml_files_total fs mod_path Hwf Hp) as (a & Ha & Hit).
  destruct (scan_defs_total fs mod_path Hwf Hp) as [log Hs].
  destruct (scan_defs_inv _ _ _ _ Hs) as (_ & -> & _).
  eexists _, _, a. split; [exact Hs|]. split; [done|].
  rewrite Hit. simpl fst. unfold scan_log. rewrite !map_app.
  fold (scan_log (map Yielded (root_defs_files fs mod_path))).
  fold (scan_log (map Yielded (version_defs_files fs mod_path))).
  rewrite !parses_app, !parses_scan_log_Yielded.
  assert (Hm : parses (map (fun ev => match ev with
                                     | Yielded p => Parsed p
                                     | Parsed p => Parsed p
                                     end) (manifest_log a))
               = parses (manifest_log a)) by by destruct a.
  rewrite Hm. split; [done|].
  destruct (root_defs_files_shape fs mod_path Hwf) as [HR HRs].
  destruct (version_defs_files_shape fs mod_path Hwf Hp) as [HV HVs].
  assert (Hdisj : forall f, f ∈ root_defs_files fs mod_path ->
                            f ∉ version_defs_files fs mod_path).
  { intros f (n & rel & name & Hn & ->)%HRs
             (vn & t & n' & rel' & name' & Hvn & Heq)%HVs.
    apply app_inv_head in Heq. injection Heq as -> _.
    by rewrite (defs_name_no_version _ Hn) in Hvn. }
  destruct a as [a|]; simpl.
  - pose proof (manifest_not_enumerated fs mod_path a Hwf Ha) as Hnot.
    apply NoDup_app. split; [done|]. split.
    + intros f Hf [->|Hf']%elem_of_cons.
      * apply Hnot, elem_of_app. by left.
      * by apply (Hdisj f).
    + apply NoDup_cons. split; [|done].
      intros Hin. apply Hnot, elem_of_app. by right.
  - apply NoDup_app. split; [done|]. split; [|done]. apply Hdisj.
Qed.

Lemma scan_defs_parses_each_file_once_witness :
  wf_node sample_tree = true /\ dir_or_missing sample_tree sample_mod = true /\
  exists log s, _scan_defs sample_tree sample_mod = (log, Ok s) /\ NoDup (parses log).
Proof.
  split; [reflexivity|]. split; [reflexivity|].
  destruct (scan_defs_parses_each_file_once sample_tree sample_mod eq_refl eq_refl)
    as (log & s & a & H1 & _ & _ & H2).
  exists log, s. split; [exact H1|exact H2].
Defined.

(** ** What a call does to the cache *)

(** X13. A returning call changes the cache at the key of its path only,
    where it leaves the current signature with the summary it returns; no
    entry is ever removed. *)
Theorem get_changes_one_entry resolve cache fs mod_path log s cache' :
  get_defs_summary resolve cache fs mod_path = (log, Ok (s, cache')) ->
  (forall key, key <> resolve mod_path -> cache' !! key = cache !! key) /\
  (exists sig, snd (_compute_signature fs mod_path) = Ok sig /\
               cache' !! resolve mod_path = Some (sig, s)) /\
  (forall key, is_Some (cache !! key) -> is_Some (cache' !! key)).
Proof.
  intros (l1 & sig & Hsig & [(Hc & -> & _)|(l2 & _ & _ & ->)])%get_cases.
  - split; [done|]. split; [|done]. exists sig. by rewrite Hsig.
  - split; [|split].
    + intros key Hkey. by rewrite lookup_insert_ne.
    + exists sig. rewrite Hsig. split; [done|]. apply lookup_insert_eq.
    + intros key Hk. rewrite lookup_insert. by case_decide.
Qed.

Lemma get_changes_one_entry_witness :
  exists log s cache',
    get_defs_summary sample_resolve ∅ sample_tree sample_mod = (log, Ok (s, cache')) /\
    exists sig, snd (_compute_signature sample_tree sample_mod) = Ok sig /\
                cache' !! sample_resolve sample_mod = Some (sig, s).
Proof.
  destruct (get_defs_summary sample_resolve ∅ sample_tree sample_mod)
    as [log [[s cache']|e]] eqn:Hget; [|by vm_compute in Hget].
  exists log, s, cache'. split; [reflexivity|].
  apply (proj1 (proj2 (get_changes_one_entry _ _ _ _ _ _ _ Hget))).
Defined.

(** X14. The cache compares signatures only: after a returning call, a call
    for the same path on a file system that gives the same signature returns
    the stored summary, whatever has changed in the files.  An edit of a
    file that keeps the number of files and the latest modification time is
    not seen. *)
Theorem get_serves_stale_summary resolve cache fs fs' mod_path log s cache1 :
  get_defs_summary resolve cache fs mod_path = (log, Ok (s, cache1)) ->
  snd (_compute_signature fs' mod_path) = snd (_compute_signature fs mod_path) ->
  exists log',
    get_defs_summary resolve cache1 fs' mod_path = (log', Ok (s, cache1)).
Proof.
  intros (l1 & sig & Hsig & Hc)%get_stores Heq. rewrite Hsig in Heq. simpl in Heq.
  destruct (_compute_signature fs' mod_path) as [l' r'] eqn:Hsig'. simpl in Heq.
  subst r'. exists l'. by eapply get_hit.
Qed.

Lemma get_serves_stale_summary_witness :
  exists log s cache1 log' s',
    get_defs_summary sample_resolve ∅ sample_tree sample_mod = (log, Ok (s, cache1)) /\
    get_defs_summary sample_resolve cache1 sample_tree_edited sample_mod
      = (log', Ok (s, cache1)) /\
    snd (_scan_defs sample_tree_edited sample_mod) = Ok s' /\
    total_defs s = 6 /\ total_defs s' = 5.
Proof.
  destruct (get_defs_summary sample_resolve ∅ sample_tree sample_mod)
    as [log [[s cache1]|e]] eqn:Hget; [|by vm_compute in Hget].
  destruct (get_serves_stale_summary sample_resolve ∅ sample_tree sample_tree_edited
              sample_mod log s cache1 Hget eq_refl) as [log' Hstale].
  destruct (_scan_defs sample_tree_edited sample_mod) as [l2 [s'|e]] eqn:Hscan;
    [|by vm_compute in Hscan].
  exists log, s, cache1, log', s'. split; [reflexivity|]. split; [exact Hstale|].
  split; [reflexivity|]. split.
  - vm_compute in Hget. by injection Hget as _ <- _.
  - vm_compute in Hscan. by injection Hscan as _ <-.
Defined.

(** X15. A call whose signature differs from the stored one, because the
    number of enumerated files or their latest modification time has changed
    since the entry was stored, returns the summary of a fresh scan and
    replaces the entry. *)
Theorem get_rescans_on_change resolve cache fs0 fs mod_path log0 s0 cache1
    l1 files0 files l2 s :
  get_defs_summary resolve cache fs0 mod_path = (log0, Ok (s0, cache1)) ->
  snd (list_of (_iter_defs_xml_files fs0 mod_path)) = Ok files0 ->
  list_of (_iter_defs_xml_files fs mod_path) = (l1, Ok files) ->
  _scan_defs fs mod_path = (l2, Ok s) ->
  (length files <> length files0 \/
   latest_mtime_of fs files <> latest_mtime_of fs0 files0) ->
  get_defs_summary resolve cache1 fs mod_path =
    (l1 ++ l2, Ok (s, <[resolve mod_path := (signature_of fs files, s)]> cache1)).
Proof.
  intros (l0 & sig0 & Hsig0 & Hc)%get_stores Hf0 Hf Hs Hdiff.
  assert (sig0 = signature_of fs0 files0) as ->.
  { unfold _compute_signature in Hsig0.
    destruct (list_of (_iter_defs_xml_files fs0 mod_path)) as [l [fl|e]];
      simpl in *; [|discriminate].
    injection Hf0 as ->. by injection Hsig0 as _ <-. }
  unfold get_defs_summary, get, _compute_signature. rewrite Hf. simpl.
  rewrite Hc. simpl. rewrite bool_decide_eq_false_2.
  - rewrite Hs. simpl. by rewrite !app_nil_r.
  - intros Heq. destruct Hdiff as [Hd|Hd]; apply Hd.
    + apply (f_equal fst) in Heq. rewrite !signature_of_fst in Heq. lia.
    + apply (f_equal snd) in Heq. by rewrite !signature_of_snd in Heq.
Qed.

Lemma get_rescans_on_change_witness :
  exists log0 s0 cache1 l s,
    get_defs_summary sample_resolve ∅ mod_without_dangling [] = (log0, Ok (s0, cache1)) /\
    get_defs_summary sample_resolve cache1 mod_with_dangling [] =
      (l, Ok (s, <[sample_resolve [] := ((2, 7), s)]> cache1)).
Proof.
  destruct (get_defs_summary sample_resolve ∅ mod_without_dangling [])
    as [log0 [[s0 cache1]|e]] eqn:Hget; [|by vm_compute in Hget].
  destruct (_scan_defs mod_with_dangling []) as [l2 [s|e]] eqn:Hscan;
    [|by vm_compute in Hscan].
  exists log0, s0, cache1, ([] ++ l2), s. split; [reflexivity|].
  apply (get_rescans_on_change sample_resolve ∅ mod_without_dangling mod_with_dangling
           [] log0 s0 cache1 [] [["Defs"; "good.xml"]]
           [["Defs"; "good.xml"]; ["Defs"; "gone.xml"]] l2 s Hget);
    [reflexivity|reflexivity|exact Hscan|].
  left. simpl. lia.
Defined.

(** ** An unchanging file system *)

Lemma cache_after_scans resolve fs paths :
  forall cache known,
    (forall key sig s, cache !! key = Some (sig, s) ->
       exists q l, q ∈ known /\ resolve q = key /\ _scan_defs fs q = (l, Ok s)) ->
    forall key sig s,
      cache_after resolve fs paths cache !! key = Some (sig, s) ->
      exists q l, q ∈ known ++ paths /\ resolve q = key /\
                  _scan_defs fs q = (l, Ok s).
Proof.
  induction paths as [|p paths IH]; intros cache known Hinv key sig s; simpl.
  - rewrite app_nil_r. apply Hinv.
  - assert (Hmono : forall cache',
      (forall key sig s, cache' !! key = Some (sig, s) ->
         exists q l, q ∈ known ++ [p] /\ resolve q = key /\
                     _scan_defs fs q = (l, Ok s)) ->
      cache_after resolve fs paths cache' !! key = Some (sig, s) ->
      exists q l, q ∈ known ++ p :: paths /\ resolve q = key /\
                  _scan_defs fs q = (l, Ok s)).
    { intros cache' Hinv' Hl.
      destruct (IH cache' (known ++ [p]) Hinv' key sig s Hl) as (q & l & Hq & H).
      exists q, l. by rewrite <- app_assoc in Hq. }
    assert (Hold : forall key sig s, cache !! key = Some (sig, s) ->
      exists q l, q ∈ known ++ [p] /\ resolve q = key /\
                  _scan_defs fs q = (l, Ok s)).
    { intros k sg s' Hk. destruct (Hinv k sg s' Hk) as (q & l & Hq & H).
      exists q, l. split; [|done]. apply elem_of_app. by left. }
    destruct (get_defs_summary resolve cache fs p) as [lg [[s1 cache']|e]] eqn:Hget;
      simpl; [|by apply Hmono].
    apply Hmono. intros k sg s' Hk.
    apply get_cases in Hget
      as (l1 & sig1 & _ & [(_ & -> & _)|(l2 & Hscan & _ & ->)]); [by eapply Hold|].
    rewrite lookup_insert in Hk. case_decide as Hkey; [|by eapply Hold].
    injection Hk as <- <-. exists p, l2. split; [|done].
    apply elem_of_app. right. left.
Qed.

(** X16. As long as the file system does not change and different paths
    have different cache keys, the cache is transparent: whatever calls came
    before, a call returns the summary a fresh scan of its path gives. *)
Theorem cache_is_transparent resolve fs paths mod_path log s cache' :
  (forall q1 q2, q1 ∈ mod_path :: paths -> q2 ∈ mod_path :: paths ->
                 resolve q1 = resolve q2 -> q1 = q2) ->
  get_defs_summary resolve (cache_after resolve fs paths ∅) fs mod_path
    = (log, Ok (s, cache')) ->
  exists l, _scan_defs fs mod_path = (l, Ok s).
Proof.
  intros Hinj (l1 & sig & _ & [(Hc & _)|(l2 & Hscan & _)])%get_cases; [|eauto].
  apply (cache_after_scans resolve fs paths ∅ []) in Hc
    as (q & l & Hq & Hkey & Hscan).
  - simpl in Hq. rewrite (Hinj q mod_path) in Hscan; eauto.
    + by right.
    + left.
  - intros key sg s'. by rewrite lookup_empty.
Qed.

Lemma cache_is_transparent_witness :
  exists log s cache' l,
    get_defs_summary sample_resolve
      (cache_after sample_resolve sample_tree [sample_mod; ["Mods"; "Missing"]] ∅)
      sample_tree sample_mod = (log, Ok (s, cache')) /\
    _scan_defs sample_tree sample_mod = (l, Ok s).
Proof.
  destruct (get_defs_summary sample_resolve
              (cache_after sample_resolve sample_tree [sample_mod; ["Mods"; "Missing"]] ∅)
              sample_tree sample_mod) as [log [[s cache']|e]] eqn:Hget;
    [|by vm_compute in Hget].
  destruct (cache_is_transparent sample_resolve sample_tree
              [sample_mod; ["Mods"; "Missing"]] sample_mod log s cache') as [l Hl].
  - intros q1 q2 H1 H2 Heq.
    repeat match goal with
           | H : _ ∈ _ :: _ |- _ => apply elem_of_cons in H as [->|H]
           | H : _ ∈ [] |- _ => by apply elem_of_nil in H
           end; first [reflexivity|by vm_compute in Heq].
  - exact Hget.
  - exists log, s, cache', l. split; [reflexivity|exact Hl].
Defined.

(** ** The metrics mapping *)

Lemma usable_fun mod_el k v k' v' :
  usable mod_el k v -> usable mod_el k' v' -> k = k' /\ v = v'.
Proof.
  intros (n & t & Hn & _ & Ht & Hi & _ & ->) (n' & t' & Hn' & _ & Ht' & Hi' & _ & ->).
  rewrite Hn in Hn'. injection Hn' as <-. rewrite Ht in Ht'. injection Ht' as <-.
  rewrite Hi in Hi'. by injection Hi' as <-.
Qed.

(** The loop of [collect], from any mapping. *)
Lemma collect_step (metrics : gmap string Z) mod_el :
  let name := attr_get "name" (attrib_of mod_el) in
  let total_ms_str := attr_get "totalMs" (attrib_of mod_el) in
  let metrics' :=
    if negb (Metrics.truthy name) || negb (Metrics.truthy total_ms_str) then metrics
    else match PyStr.int (default "" total_ms_str) with
         | None => metrics
         | Some total_ms =>
             if total_ms <=? 0 then metrics
             else <[PyStr.lower (default "" name) := total_ms]> metrics
         end in
  (exists k v, usable mod_el k v /\ metrics' = <[k := v]> metrics) \/
  ((forall k v, ~ usable mod_el k v) /\ metrics' = metrics).
Proof.
  unfold usable. simpl.
  destruct (attr_get "name" (attrib_of mod_el)) as [name|] eqn:Hn; simpl;
    [|right; split; [by intros k v (? & ? & [=] & _)|done]].
  destruct name as [|c name]; simpl;
    [right; split; [by intros k v (? & ? & [= <-] & ? & _)|done]|].
  destruct (attr_get "totalMs" (attrib_of mod_el)) as [t|] eqn:Ht; simpl;
    [|right; split; [by intros k v (? & ? & _ & _ & [=] & _)|done]].
  destruct t as [|c' t]; simpl;
    [right; split; [by intros k v (? & ? & _ & _ & [= <-] & [=] & _)|done]|].
  destruct (PyStr.int (String c' t)) as [total_ms|] eqn:Hi;
    [|right; split; [|done]; intros k v (? & ? & _ & _ & [= <-] & Hi' & _); congruence].
  destruct (Z.leb_spec total_ms 0).
  - right. split; [|done].
    intros k v (? & ? & _ & _ & [= <-] & Hi' & Hv & _).
    rewrite Hi in Hi'. injection Hi' as <-. lia.
  - left. eexists _, total_ms. split; [|done].
    exists (String c name), (String c' t). repeat split; first [done|lia].
Qed.

Lemma collect_lookup mods : forall (acc : gmap string Z) k v,
  fold_left
    (fun (metrics : gmap string Z) mod_el =>
       let name := attr_get "name" (attrib_of mod_el) in
       let total_ms_str := attr_get "totalMs" (attrib_of mod_el) in
       if negb (Metrics.truthy name) || negb (Metrics.truthy total_ms_str) then metrics
       else match PyStr.int (default "" total_ms_str) with
            | None => metrics
            | Some total_ms =>
                if total_ms <=? 0 then metrics
                else <[PyStr.lower (default "" name) := total_ms]> metrics
            end)
    mods acc !! k = Some v <->
  (exists l1 mod_el l2,
     mods = l1 ++ mod_el :: l2 /\ usable mod_el k v /\
     forall e v', e ∈ l2 -> ~ usable e k v') \/
  (acc !! k = Some v /\ forall e v', e ∈ mods -> ~ usable e k v').
Proof.
  induction mods as [|e mods IH]; intros acc k v; simpl.
  - split.
    + intros H. right. split; [done|]. intros e v' He. inversion He.
    + intros [(l1 & e & l2 & Hl & _)|[H _]]; [by destruct l1|done].
  - rewrite IH. clear IH.
    destruct (collect_step acc e) as [(k0 & v0 & Hu & ->)|[Hnu ->]].
    + split.
      * intros [(l1 & e' & l2 & -> & Hu' & Hl2)|[Hk Hno]].
        -- left. by exists (e :: l1), e', l2.
        -- rewrite lookup_insert in Hk. case_decide as Hk0.
           ++ injection Hk as <-. subst k0. left. by exists [], e, mods.
           ++ right. split; [done|]. intros e' v' [->|He']%elem_of_cons; [|by eapply Hno].
              intros Hu'. by destruct (usable_fun _ _ _ _ _ Hu Hu').
      * intros [([|e0 l1] & e' & l2 & Hl & Hu' & Hl2)|[Hk Hno]].
        -- injection Hl as <- <-. destruct (usable_fun _ _ _ _ _ Hu Hu') as [-> ->].
           right. split; [apply lookup_insert_eq|done].
        -- injection Hl as <- ->. left. by exists l1, e', l2.
        -- destruct (decide (k0 = k)) as [->|Hne].
           ++ exfalso. apply (Hno e v0); [left|done].
           ++ right. split; [by rewrite lookup_insert_ne|].
              intros e' v' He'. apply Hno. by right.
    + split.
      * intros [(l1 & e' & l2 & -> & Hu' & Hl2)|[Hk Hno]].
        -- left. by exists (e :: l1), e', l2.
        -- right. split; [done|]. intros e' v' [->|He']%elem_of_cons; [|by eapply Hno].
           apply Hnu.
      * intros [([|e0 l1] & e' & l2 & Hl & Hu' & Hl2)|[Hk Hno]].
        -- injection Hl as <- <-. by destruct (Hnu k v).
        -- injection Hl as <- ->. left. by exists l1, e', l2.
        -- right. split; [done|]. intros e' v' He'. apply Hno. by right.
Qed.

Lemma lower_char_idemp c : PyStr.lower_char (PyStr.lower_char c) = PyStr.lower_char c.
Proof. by destruct c as [[] [] [] [] [] [] [] []]. Qed.

Lemma lower_idemp s : PyStr.lower (PyStr.lower s) = PyStr.lower s.
Proof. induction s as [|c s IH]; simpl; [done|]. by rewrite lower_char_idemp, IH. Qed.

Lemma usable_ok mod_el k v : usable mod_el k v -> 0 < v /\ k <> "" /\ PyStr.lower k = k.
Proof.
  intros (name & t & _ & Hne & _ & _ & Hv & ->). split; [done|]. split.
  - by destruct name.
  - apply lower_idemp.
Qed.

(** X17. The mapping read from the [Mod] elements holds, under each
    lower-cased name, the duration of the last element of that name that has
    a non-empty name and a [totalMs] reading as a positive integer; names
    with no such element are absent. *)
Theorem collect_last_usable mods k v :
  Metrics.collect mods !! k = Some v <->
  exists l1 mod_el l2,
    mods = l1 ++ mod_el :: l2 /\ usable mod_el k v /\
    forall e v', e ∈ l2 -> ~ usable e k v'.
Proof.
  unfold Metrics.collect. rewrite collect_lookup, lookup_empty. split.
  - by intros [H|[[=] _]].
  - by left.
Qed.

Lemma collect_ok mods : metrics_ok (Metrics.collect mods).
Proof.
  intros k v Hk. unfold Metrics.collect in Hk.
  apply collect_lookup in Hk as [(l1 & e & l2 & _ & Hu & _)|[Hk _]].
  - by eapply usable_ok.
  - by rewrite lookup_empty in Hk.
Qed.

Lemma metrics_ok_empty : metrics_ok ∅.
Proof. intros k v. by rewrite lookup_empty. Qed.

Lemma fold_max_spec vs : forall v0,
  (forall v, v ∈ v0 :: vs -> v <= fold_left Z.max vs v0) /\
  fold_left Z.max vs v0 ∈ v0 :: vs.
Proof.
  induction vs as [|x vs IH]; intros v0; simpl.
  - split; [|left]. by intros v ->%list_elem_of_singleton.
  - destruct (IH (Z.max v0 x)) as [Hge Hin]. split.
    + intros v [->|[->|Hv]%elem_of_cons]%elem_of_cons.
      * etransitivity; [|apply Hge; left]. lia.
      * etransitivity; [|apply Hge; left]. lia.
      * apply Hge. by right.
    + apply elem_of_cons in Hin as [->|Hin].
      * destruct (Z.max_spec v0 x) as [[_ ->]|[_ ->]]; [right; left|left].
      * right. by right.
Qed.

Lemma max_or_zero_spec (m : gmap string Z) :
  (m = ∅ -> Metrics.max_or_zero m = 0) /\
  (forall k v, m !! k = Some v -> v <= Metrics.max_or_zero m) /\
  (m <> ∅ -> exists k, m !! k = Some (Metrics.max_or_zero m)).
Proof.
  unfold Metrics.max_or_zero.
  assert (Hvals : forall v, v ∈ (map_to_list m).*2 <-> exists k, m !! k = Some v).
  { intros v. rewrite list_elem_of_fmap. split.
    - intros [[k v'] [-> Hin]]. exists k. by apply elem_of_map_to_list.
    - intros [k Hk]. exists (k, v). split; [done|]. by apply elem_of_map_to_list. }
  destruct ((map_to_list m).*2) as [|v0 vs] eqn:Hl.
  - apply fmap_nil_inv, map_to_list_empty_iff in Hl as ->.
    split; [done|]. split; [|done]. intros k v. by rewrite lookup_empty.
  - destruct (fold_max_spec vs v0) as [Hge Hin]. split; [|split].
    + intros ->. by rewrite map_to_list_empty in Hl.
    + intros k v Hk. apply Hge, Hvals. eauto.
    + intros _. by apply Hvals.
Qed.

Lemma max_or_zero_empty : Metrics.max_or_zero ∅ = 0.
Proof. by apply max_or_zero_spec. Qed.

Lemma get_total_ok file g m g1 log :
  globals_ok g ->
  Metrics.get_total_ms_by_mod_name file g = (m, g1, log) ->
  globals_ok g1.
Proof.
  intros Hg. pose proof Hg as [Hc Hmx]. unfold Metrics.get_total_ms_by_mod_name.
  destruct (Metrics._cache g) as [cached|] eqn:Hcache.
  - by intros [= _ <- _].
  - assert (Hnone : Metrics._max_total_ms g = None).
    { destruct (Metrics._max_total_ms g) as [mx|] eqn:Hm; [|done].
      by destruct (Hmx mx eq_refl) as (? & [=] & _). }
    destruct file as [[root|]|]; [destruct (find_child "Mods" root) as [mods|]|..];
      intros [= _ <- _]; split; simpl.
    + intros ? [= <-]. apply collect_ok.
    + intros ? [= <-]. eauto.
    + intros ? [= <-]. apply metrics_ok_empty.
    + by rewrite Hnone.
    + intros ? [= <-]. apply metrics_ok_empty.
    + intros ? [= <-]. exists ∅. by rewrite max_or_zero_empty.
    + intros ? [= <-]. apply metrics_ok_empty.
    + by rewrite Hnone.
Qed.

Lemma step_ok g c : globals_ok g -> globals_ok (Metrics.step g c).
Proof.
  intros Hg. destruct c as [file|file]; simpl.
  - destruct (Metrics.get_total_ms_by_mod_name file g) as [[m g1] log] eqn:Hget.
    by eapply get_total_ok.
  - unfold Metrics.get_max_total_ms.
    destruct (Metrics._max_total_ms g) as [mx|]; [done|].
    destruct (Metrics.get_total_ms_by_mod_name file g) as [[m g1] log] eqn:Hget.
    simpl. pose proof (get_total_ok _ _ _ _ _ Hg Hget) as [Hc _].
    pose proof (get_total_sets_cache _ _ _ _ _ Hget) as Hm.
    split; simpl.
    + apply Hc.
    + intros ? [= <-]. eauto.
Qed.

Lemma run_ok calls : forall g, globals_ok g -> globals_ok (Metrics.run calls g).
Proof.
  unfold Metrics.run. induction calls as [|c calls IH]; intros g Hg; simpl; [done|].
  by apply IH, step_ok.
Qed.

Lemma initial_ok : globals_ok Metrics.initial.
Proof. split; simpl; discriminate. Qed.

Lemma step_fixed g c m mx :
  Metrics._cache g = Some m -> Metrics._max_total_ms g = Some mx ->
  Metrics.step g c = g.
Proof.
  intros Hc Hm. destruct c as [file|file]; simpl.
  - by rewrite (get_total_cached file g m Hc).
  - unfold Metrics.get_max_total_ms. by rewrite Hm.
Qed.

Lemma run_fixed calls g m mx :
  Metrics._cache g = Some m -> Metrics._max_total_ms g = Some mx ->
  Metrics.run calls g = g.
Proof.
  intros Hc Hm. unfold Metrics.run.
  induction calls as [|c calls IH]; simpl; [done|].
  by rewrite (step_fixed g c m mx).
Qed.

(** X18. Whatever has been called before in the process, the mapping
    [get_total_ms_by_mod_name] returns has non-empty, lower-case keys and
    positive durations. *)
Theorem metrics_mapping_ok calls file :
  metrics_ok
    (fst (fst (Metrics.get_total_ms_by_mod_name file
                 (Metrics.run calls Metrics.initial)))).
Proof.
  destruct (Metrics.get_total_ms_by_mod_name file (Metrics.run calls Metrics.initial))
    as [[m g1] log] eqn:Hget. simpl.
  pose proof (get_total_ok _ _ _ _ _ (run_ok calls _ initial_ok) Hget) as [Hc _].
  apply Hc. by eapply get_total_sets_cache.
Qed.

(** X19. Whatever has been called before, [get_max_total_ms] returns the
    greatest duration of the mapping [get_total_ms_by_mod_name] returns from
    then on, and 0 when that mapping is empty; it is never negative, and the
    same value is returned by every later call. *)
Theorem get_max_total_ms_is_max calls file mx g1 log :
  Metrics.get_max_total_ms file (Metrics.run calls Metrics.initial) = (mx, g1, log) ->
  exists m,
    (forall file', Metrics.get_total_ms_by_mod_name file' g1 = (m, g1, [])) /\
    (forall k v, m !! k = Some v -> v <= mx) /\
    (m <> ∅ -> exists k, m !! k = Some mx) /\
    (m = ∅ -> mx = 0) /\
    0 <= mx /\
    (forall calls' file',
       Metrics.get_max_total_ms file' (Metrics.run calls' g1)
       = (mx, Metrics.run calls' g1, [])).
Proof.
  intros Hget.
  assert (Hg : globals_ok g1 /\ Metrics._max_total_ms g1 = Some mx).
  { pose proof (step_ok _ (Metrics.CallMax file) (run_ok calls _ initial_ok)) as Hok.
    simpl in Hok. rewrite Hget in Hok. simpl in Hok. split; [done|].
    revert Hget. unfold Metrics.get_max_total_ms.
    destruct (Metrics._max_total_ms (Metrics.run calls Metrics.initial)) as [mx0|] eqn:Hm.
    - by intros [= <- <- _].
    - destruct (Metrics.get_total_ms_by_mod_name _ _) as [[m g'] lg].
      by intros [= <- <- _]. }
  destruct Hg as [[Hc Hmx] Hmax].
  destruct (Hmx mx Hmax) as (m & Hm & ->).
  destruct (max_or_zero_spec m) as (Hempty & Hge & Hatt).
  exists m. split; [intros file'; by apply get_total_cached|].
  split; [done|]. split; [done|]. split; [done|]. split.
  - destruct (decide (m = ∅)) as [->|Hne]; [by rewrite max_or_zero_empty|].
    destruct (Hatt Hne) as [k Hk]. apply (Hc m Hm) in Hk. lia.
  - intros calls' file'.
    rewrite (run_fixed calls' g1 m (Metrics.max_or_zero m)) by done.
    unfold Metrics.get_max_total_ms. by rewrite Hmax.
Qed.

Lemma get_max_total_ms_is_max_witness :
  exists g1,
    Metrics.get_max_total_ms (Some (Some sample_metrics))
      (Metrics.run [] Metrics.initial) = (1200, g1, [Metrics.Probed; Metrics.Read]) /\
    exists m,
      (forall file', Metrics.get_total_ms_by_mod_name file' g1 = (m, g1, [])) /\
      (forall k v, m !! k = Some v -> v <= 1200).
Proof.
  eexists. split; [vm_compute; reflexivity|].
  destruct (get_max_total_ms_is_max [] (Some (Some sample_metrics)) 1200
              (Metrics.mkGlobals (Some {[ "core" := 1200 ]}) (Some 1200))
              [Metrics.Probed; Metrics.Read])
    as (m & H1 & H2 & _); [vm_compute; reflexivity|].
  exists m. split; [exact H1|exact H2].
Defined.

(** X20. When the first read finds no metrics file, a file that is not
    well-formed, or a document without a [Mods] element, the empty mapping
    is what the process keeps: every later call returns it without looking
    at the file again, even once a valid file is there, and the maximum
    stays 0. *)
Theorem failed_read_is_kept file0 m g1 log :
  (file0 = None \/ file0 = Some None \/
   exists root, file0 = Some (Some root) /\ find_child "Mods" root = None) ->
  Metrics.get_total_ms_by_mod_name file0 Metrics.initial = (m, g1, log) ->
  m = ∅ /\
  forall calls file',
    Metrics.get_total_ms_by_mod_name file' (Metrics.run calls g1)
      = (∅, Metrics.run calls g1, []) /\
    fst (fst (Metrics.get_max_total_ms file' (Metrics.run calls g1))) = 0.
Proof.
  intros Hbad Hget.
  assert (m = ∅) as ->.
  { revert Hget. unfold Metrics.get_total_ms_by_mod_name. simpl.
    destruct Hbad as [->|[->|(root & -> & ->)]]; by intros [= <- _ _]. }
  split; [done|]. intros calls file'.
  pose proof (get_total_sets_cache _ _ _ _ _ Hget) as Hc.
  pose proof (run_keeps_cache calls _ _ Hc) as Hrun.
  pose proof (run_ok calls _ (get_total_ok _ _ _ _ _ initial_ok Hget)) as [_ Hmx].
  split; [by apply get_total_cached|].
  unfold Metrics.get_max_total_ms.
  destruct (Metrics._max_total_ms (Metrics.run calls g1)) as [mx|] eqn:Hm; simpl.
  - destruct (Hmx mx eq_refl) as (m' & Hm' & ->). rewrite Hrun in Hm'.
    injection Hm' as <-. apply max_or_zero_empty.
  - rewrite (get_total_cached file' _ ∅ Hrun). simpl. apply max_or_zero_empty.
Qed.

Lemma failed_read_is_kept_witness :
  Metrics.get_total_ms_by_mod_name None Metrics.initial
    = (∅, Metrics.mkGlobals (Some ∅) None, [Metrics.Probed]) /\
  Metrics.get_total_ms_by_mod_name (Some (Some sample_metrics))
    (Metrics.run [] (Metrics.mkGlobals (Some ∅) None))
    = (∅, Metrics.run [] (Metrics.mkGlobals (Some ∅) None), []).
Proof.
  split; [reflexivity|].
  apply (failed_read_is_kept None ∅ (Metrics.mkGlobals (Some ∅) None) [Metrics.Probed]);
    [by left|reflexivity].
Defined.

Lemma collect_last_usable_witness :
  Metrics.collect
    [Element "Mod" [("name", "Core"); ("totalMs", "7")] None [];
     Element "Mod" [("name", "CORE"); ("totalMs", "1200")] None [];
     Element "Mod" [("name", "core"); ("totalMs", "0")] None []]
  !! "core" = Some 1200.
Proof.
  apply (proj2 (collect_last_usable _ "core" 1200)).
  exists [Element "Mod" [("name", "Core"); ("totalMs", "7")] None []],
         (Element "Mod" [("name", "CORE"); ("totalMs", "1200")] None []),
         [Element "Mod" [("name", "core"); ("totalMs", "0")] None []].
  split; [reflexivity|]. split.
  - exists "CORE", "1200". repeat split; first [done|vm_compute; reflexivity].
  - intros e v' ->%list_elem_of_singleton (n & t & [= <-] & _ & [= <-] & Hi & Hv & _).
    vm_compute in Hi. injection Hi as <-. lia.
Defined.

(** * The embedding over lxml trees and unreadable entries *)

(** ** Its file system *)

Lemma full_assoc_Some_elem es k n : Full.assoc k es = Some n -> (k, n) ∈ es.
Proof.
  induction es as [|[k' n'] es IH]; simpl; [discriminate|].
  destruct (String.eqb_spec k' k) as [->|_].
  - intros [= ->]. left.
  - intros H. right. auto.
Qed.

Lemma full_assoc_elem es k n :
  NoDup (map fst es) -> (k, n) ∈ es -> Full.assoc k es = Some n.
Proof.
  induction es as [|[k' n'] es IH]; simpl; intros Hnd Hin.
  - inversion Hin.
  - apply NoDup_cons in Hnd as [Hk Hnd].
    apply elem_of_cons in Hin as [[= -> ->]|Hin].
    + by rewrite String.eqb_refl.
    + destruct (String.eqb_spec k' k) as [->|_]; [|auto].
      exfalso. apply Hk. change k with (fst (k, n)). by apply list_elem_of_fmap_2.
Qed.

Lemma full_wf_node_Dir r m es :
  Full.wf_node (Full.Dir r m es) = true ->
  NoDup (map fst es) /\ forall k c, (k, c) ∈ es -> Full.wf_node c = true.
Proof.
  simpl. intros [Hnd Hall]%andb_prop. split.
  - by apply bool_decide_eq_true in Hnd.
  - clear Hnd. induction es as [|[k' c'] es IH]; intros k c Hin.
    + inversion Hin.
    + apply andb_prop in Hall as [Hc Hall].
      apply elem_of_cons in Hin as [[= -> ->]|Hin]; eauto.
Qed.

Lemma full_node_at_app fs p q :
  Full.node_at fs (p ++ q) =
  match Full.node_at fs p with
  | Ok n => Full.node_at n q
  | Raise e => Raise e
  end.
Proof.
  revert fs. induction p as [|name p IH]; intros fs; simpl; [done|].
  destruct fs as [| | |[] m es]; try done.
  destruct (Full.assoc name es); [apply IH|done].
Qed.

Lemma full_wf_node_at fs p n :
  Full.wf_node fs = true -> Full.node_at fs p = Ok n -> Full.wf_node n = true.
Proof.
  revert fs. induction p as [|name p IH]; intros fs Hwf; simpl.
  - by intros [= <-].
  - destruct fs as [| | |[] m es]; try discriminate.
    destruct (Full.assoc name es) as [c|] eqn:Hc; [|discriminate].
    apply IH. apply full_wf_node_Dir in Hwf as [_ Hall].
    eapply Hall, full_assoc_Some_elem, Hc.
Qed.

Lemma full_scandir_Ok fs p es :
  Full.scandir fs p = Ok es -> exists m, Full.node_at fs p = Ok (Full.Dir true m es).
Proof.
  unfold Full.scandir.
  destruct (Full.node_at fs p) as [[| | |[] m es']|]; try discriminate.
  intros [= ->]. eauto.
Qed.

(** In a well-formed tree a listed entry is what its path denotes. *)
Lemma full_node_at_entry fs parent es name c :
  Full.wf_node fs = true -> Full.scandir fs parent = Ok es -> (name, c) ∈ es ->
  Full.node_at fs (parent ++ [name]) = Ok c.
Proof.
  intros Hwf [m Hp]%full_scandir_Ok Hin.
  rewrite full_node_at_app, Hp. simpl.
  apply (full_wf_node_at _ _ _ Hwf) in Hp. apply full_wf_node_Dir in Hp as [Hnd _].
  by rewrite (full_assoc_elem _ _ _ Hnd Hin).
Qed.

(** ** Its directory lookups *)

Lemma testable_is_dir entry :
  Full.testable entry = true -> exists b, Full.is_dir (snd entry) = Ok b.
Proof. destruct entry as [name [| | |r m es]]; simpl; try discriminate; eauto. Qed.

Lemma testable_is_file entry :
  Full.testable entry = true -> exists b, Full.is_file (snd entry) = Ok b.
Proof. destruct entry as [name [| | |r m es]]; simpl; try discriminate; eauto. Qed.

Lemma find_entry_total parent type_test name_test es :
  (forall entry, entry ∈ es -> exists b, type_test (snd entry) = Ok b) ->
  exists r, Full.find_entry parent type_test name_test es = Ok r.
Proof.
  induction es as [|[name n] es IH]; intros Hall; simpl; [eauto|].
  destruct (Hall (name, n)) as [b Hb]; [left|]. simpl in Hb. rewrite Hb.
  destruct (b && name_test name); [eauto|].
  apply IH. intros entry Hin. apply Hall. by right.
Qed.

Lemma find_entry_Some parent type_test name_test es d :
  Full.find_entry parent type_test name_test es = Ok (Some d) ->
  exists name c, d = parent ++ [name] /\ (name, c) ∈ es /\
                 type_test c = Ok true /\ name_test name = true.
Proof.
  induction es as [|[name n] es IH]; simpl; [discriminate|].
  destruct (type_test n) as [b|e] eqn:Hb; [|discriminate].
  destruct (b && name_test name) eqn:Ht.
  - intros [= <-]. apply andb_prop in Ht as [-> Hn].
    exists name, n. split; [done|]. split; [left|done].
  - intros (name' & c & -> & Hin & H)%IH. exists name', c.
    split; [done|]. split; [by right|done].
Qed.

Lemma forallb_elem {A} (f : A -> bool) l x :
  forallb f l = true -> x ∈ l -> f x = true.
Proof.
  intros H Hin. rewrite forallb_forall in H. apply H. by apply list_elem_of_In.
Qed.

Lemma full_find_dir_Some fs parent expected d :
  Full._find_case_insensitive_dir fs parent expected = Ok (Some d) ->
  exists es name r m es',
    Full.scandir fs parent = Ok es /\ d = parent ++ [name] /\
    (name, Full.Dir r m es') ∈ es /\ name_is expected name = true.
Proof.
  unfold Full._find_case_insensitive_dir.
  destruct (Full.scandir fs parent) as [es|e] eqn:Hs; simpl.
  - destruct (Full.find_entry parent Full.is_dir (name_is expected) es)
      as [r|e] eqn:Hf; simpl; [|destruct e; discriminate].
    intros [= ->]. apply find_entry_Some in Hf as (name & c & -> & Hin & Hd & Hn).
    destruct c as [| | |r m es']; try discriminate. by exists es, name, r, m, es'.
  - destruct e; discriminate.
Qed.

Lemma full_find_dir_total fs parent expected es :
  Full.scandir fs parent = Ok es -> forallb Full.testable es = true ->
  exists r, Full._find_case_insensitive_dir fs parent expected = Ok r.
Proof.
  intros Hs Hes. unfold Full._find_case_insensitive_dir. rewrite Hs.
  destruct (find_entry_total parent Full.is_dir (name_is expected) es) as [r ->].
  - intros entry Hin. apply testable_is_dir. by eapply forallb_elem.
  - simpl. eauto.
Qed.

Lemma listable_scandir fs parent es name c :
  Full.wf_node fs = true -> Full.scandir fs parent = Ok es -> (name, c) ∈ es ->
  Full.is_dir c = Ok true -> Full.listable c = true ->
  exists es', Full.scandir fs (parent ++ [name]) = Ok es' /\
              forallb Full.testable es' = true.
Proof.
  intros Hwf Hs Hin Hd Hl. unfold Full.scandir.
  rewrite (full_node_at_entry _ _ _ _ _ Hwf Hs Hin).
  destruct c as [| | |[] m es']; try discriminate. eauto.
Qed.

Lemma looked_into_clean es name c :
  forallb (fun entry => negb (Full.looked_into (fst entry)) || Full.listable (snd entry)) es
    = true ->
  (name, c) ∈ es -> Full.looked_into name = true -> Full.listable c = true.
Proof.
  intros Hall Hin Hn. apply (forallb_elem _ _ _ Hall) in Hin. simpl in Hin.
  by rewrite Hn in Hin.
Qed.

Lemma full_about_xml_path_total fs p es :
  Full.wf_node fs = true -> Full.scandir fs p = Ok es ->
  forallb Full.testable es = true ->
  forallb (fun entry => negb (Full.looked_into (fst entry)) || Full.listable (snd entry)) es
    = true ->
  exists a, Full._about_xml_path fs p = Ok a.
Proof.
  intros Hwf Hs Ht Hl. unfold Full._about_xml_path.
  destruct (full_find_dir_total fs p "About" es Hs Ht) as [[d|] Hd]; rewrite Hd; [|eauto].
  apply full_find_dir_Some in Hd as (es0 & name & r & m & es' & Hs0 & -> & Hin & Hn).
  rewrite Hs in Hs0. injection Hs0 as <-.
  destruct (listable_scandir fs p es name _ Hwf Hs Hin eq_refl) as (es2 & -> & Ht2).
  { eapply looked_into_clean; [done..|]. unfold Full.looked_into. by rewrite Hn. }
  destruct (find_entry_total (p ++ [name]) Full.is_file
              (fun name => String.eqb (PyStr.lower name) "about.xml") es2) as [a ->].
  - intros entry Hin2. apply testable_is_file. by eapply forallb_elem.
  - simpl. eauto.
Qed.

Lemma full_parse_supported_versions_total fs p a :
  Full._about_xml_path fs p = Ok a ->
  exists supported,
    Full._parse_supported_versions fs p = (manifest_log a, Ok supported).
Proof.
  intros Ha. unfold Full._parse_supported_versions. rewrite Ha. simpl.
  destruct a as [path|]; [|by eexists].
  unfold Full.ET_parse, try_except, bind, lift, ret. simpl.
  destruct (Full.node_at fs path) as [[m [root|]| | |r m es]|e]; simpl; try by eexists.
  destruct (Full.versions_in (Full.iter root)); simpl; by eexists.
Qed.

Lemma add_version_dirs_total p es mapping :
  forallb Full.testable es = true ->
  exists available, Full.add_version_dirs p es mapping = Ok available.
Proof.
  revert mapping. induction es as [|[name n] es IH]; intros mapping; simpl; [eauto|].
  intros [Hn Hes]%andb_prop.
  destruct n as [| | |r m es']; simpl; try discriminate; try by apply IH.
  destruct (_normalize_version_string name); by apply IH.
Qed.

Lemma add_version_dirs_lookup p es mapping available t d :
  Full.add_version_dirs p es mapping = Ok available ->
  available !! t = Some d ->
  mapping !! t = Some d \/
  exists name c, (name, c) ∈ es /\ Full.is_dir c = Ok true /\
                 _normalize_version_string name = Some t /\ d = p ++ [name].
Proof.
  revert mapping. induction es as [|[name n] es IH]; intros mapping; simpl.
  - intros [= ->]. auto.
  - destruct (Full.is_dir n) as [[]|e] eqn:Hd; [| |discriminate].
    + destruct (_normalize_version_string name) as [norm|] eqn:Hn.
      * intros Hadd Hl. destruct (IH _ Hadd Hl) as [Hm|(name' & c & Hin & H)].
        -- rewrite lookup_insert in Hm. case_decide as Ht; [|auto].
           subst norm. injection Hm as <-. right. exists name, n.
           split; [left|done].
        -- right. exists name', c. split; [by right|done].
      * intros Hadd Hl. destruct (IH _ Hadd Hl) as [Hm|(name' & c & Hin & H)]; [auto|].
        right. exists name', c. split; [by right|done].
    + intros Hadd Hl. destruct (IH _ Hadd Hl) as [Hm|(name' & c & Hin & H)]; [auto|].
      right. exists name', c. split; [by right|done].
Qed.

(** ** Its generator returns when the lookups are clean *)

Lemma lookups_clean_cases fs p :
  Full.lookups_clean fs p = true ->
  Full.scandir fs p = Raise FileNotFoundError \/
  exists es, Full.scandir fs p = Ok es /\ forallb Full.testable es = true /\
             forallb (fun entry => negb (Full.looked_into (fst entry)) ||
                                   Full.listable (snd entry)) es = true.
Proof.
  unfold Full.lookups_clean.
  destruct (Full.scandir fs p) as [es|[]]; try discriminate; [|by left].
  intros [H1 H2]%andb_prop. right. eauto.
Qed.

Lemma full_iter_defs_xml_files_missing fs p :
  Full.scandir fs p = Raise FileNotFoundError ->
  Full._iter_defs_xml_files fs p = ([], Ok tt).
Proof.
  intros Hs.
  unfold Full._iter_defs_xml_files, Full._choose_version_dir,
    Full._parse_supported_versions, Full._about_xml_path,
    Full._find_available_version_dirs, Full._find_case_insensitive_dir.
  rewrite Hs. reflexivity.
Qed.

Lemma full_choose_version_dir_total fs p es :
  Full.wf_node fs = true -> Full.scandir fs p = Ok es ->
  forallb Full.testable es = true ->
  forallb (fun entry => negb (Full.looked_into (fst entry)) || Full.listable (snd entry)) es
    = true ->
  exists a r,
    Full._about_xml_path fs p = Ok a /\
    Full._choose_version_dir fs p = (manifest_log a, Ok r) /\
    forall v, r = Some v ->
      exists name c, v = p ++ [name] /\ (name, c) ∈ es /\ Full.is_dir c = Ok true /\
                     Full.listable c = true.
Proof.
  intros Hwf Hs Ht Hl.
  destruct (full_about_xml_path_total fs p es Hwf Hs Ht Hl) as [a Ha].
  destruct (full_parse_supported_versions_total fs p a Ha) as [supported Hsup].
  destruct (add_version_dirs_total p es ∅ Ht) as [available Hav].
  destruct (choose_from_resolved supported available) as (r & Hr & _).
  exists a, r. split; [done|]. split.
  - unfold Full._choose_version_dir, Full._find_available_version_dirs.
    rewrite Hsup, Hs, Hav. simpl. rewrite Hr. by rewrite !app_nil_r.
  - intros v ->. apply choose_from_Some in Hr as [t Hv].
    destruct (add_version_dirs_lookup _ _ _ _ _ _ Hav Hv)
      as [Hm|(name & c & Hin & Hd & Hn & ->)]; [by rewrite lookup_empty in Hm|].
    exists name, c. split; [done|]. split; [done|]. split; [done|].
    eapply looked_into_clean; [done..|]. unfold Full.looked_into.
    rewrite Hn. rewrite bool_decide_eq_true_2 by eauto. by rewrite orb_true_r.
Qed.

Lemma full_iter_defs_xml_files_total fs p :
  Full.wf_node fs = true -> Full.lookups_clean fs p = true ->
  exists log, Full._iter_defs_xml_files fs p = (log, Ok tt).
Proof.
  intros Hwf [Hs|(es & Hs & Ht & Hl)]%lookups_clean_cases.
  - rewrite (full_iter_defs_xml_files_missing _ _ Hs). eauto.
  - destruct (full_find_dir_total fs p "Defs" es Hs Ht) as [root_defs Hrd].
    destruct (full_choose_version_dir_total fs p es Hwf Hs Ht Hl)
      as (a & r & _ & Hch & Hr).
    unfold Full._iter_defs_xml_files. rewrite Hrd. simpl.
    set (first := match root_defs with
                  | Some root_defs => yield_all (xml_files (Full.os_walk fs root_defs))
                  | None => ret tt
                  end).
    assert (Hfirst : exists l1, first = (l1, Ok tt)).
    { subst first. destruct root_defs; unfold yield_all, tell, ret; eauto. }
    destruct Hfirst as [l1 ->]. simpl. rewrite Hch. simpl.
    destruct r as [v|]; simpl; [|eauto].
    destruct (Hr v eq_refl) as (name & c & -> & Hin & Hd & Hc).
    destruct (listable_scandir fs p es name c Hwf Hs Hin Hd Hc) as (es' & Hs' & Ht').
    destruct (full_find_dir_total fs (p ++ [name]) "Defs" es' Hs' Ht') as [vd ->].
    destruct vd; unfold yield_all, tell, ret; simpl; eauto.
Qed.


Lemma full_scan_file_step fs f st :
  Full.scan_file fs f st = ([Parsed f], Ok (Full.scan_step fs st f)).
Proof.
  unfold Full.scan_file, Full.scan_step, Full.parsed_root, Full.ET_parse.
  by destruct (Full.node_at fs f) as [[m [root|]| | |r m es]|e].
Qed.

Lemma full_for_events_scan fs evs st :
  for_events evs (Full.scan_file fs) st =
  (scan_log evs, Ok (Full.scan_files fs (yields evs) st)).
Proof.
  revert st. induction evs as [|[p|p] evs IH]; intros st; simpl; [done| |].
  - by rewrite IH.
  - rewrite full_scan_file_step. simpl. by rewrite IH.
Qed.


Lemma full_scan_defs_of_iter fs p log :
  Full._iter_defs_xml_files fs p = (log, Ok tt) ->
  Full._scan_defs fs p =
  (scan_log log, Ok (summary_of (Full.scan_files fs (yields log) (∅, 0)))).
Proof.
  intros Hit. unfold Full._scan_defs, for_in. rewrite full_for_events_scan, Hit.
  simpl. by rewrite !app_nil_r.
Qed.



(** ** Its cache *)







(** ** What its lookups let through *)

Lemma full_find_dir_raises fs p expected e :
  Full.scandir fs p = Raise e -> e <> FileNotFoundError ->
  Full._find_case_insensitive_dir fs p expected = Raise e.
Proof.
  intros Hs He. unfold Full._find_case_insensitive_dir. rewrite Hs.
  by destruct e.
Qed.








(** C1 fails on an lxml tree.  The mod has the version folders 1.3, 1.4 and
    1.5 and its manifest declares 1.4.  With a comment before
    [supportedVersions] the loop over [root.iter()] reaches the comment,
    whose tag is no [str]; [_strip_ns] raises inside the [try], the declared
    versions are lost, and the resolver falls back to 1.5, the greatest
    folder.  Without the comment it returns 1.4. *)
Theorem commented_manifest_loses_declared_versions :
  let about := ["About"; "About.xml"] in
  Full.versions_in (Full.iter (lxml_manifest true ["1.4"])) = Raise AttributeError /\
  Full._parse_supported_versions (mod_with_manifest true) [] = ([Parsed about], Ok []) /\
  Full._find_available_version_dirs (mod_with_manifest true) []
    = Ok (list_to_map [((1, 3)%N, ["1.3"]); ((1, 4)%N, ["1.4"]); ((1, 5)%N, ["1.5"])]) /\
  Full._choose_version_dir (mod_with_manifest true) [] = ([Parsed about], Ok (Some ["1.5"])) /\
  Full._parse_supported_versions (mod_with_manifest false) []
    = ([Parsed about], Ok ["1.4"]) /\
  Full._choose_version_dir (mod_with_manifest false) []
    = ([Parsed about], Ok (Some ["1.4"])).
Proof. repeat split; vm_compute; reflexivity. Qed.

(** C8 fails on an lxml tree.  The file is
    [<Defs><ThingDef/><!-- ... --><ThingDef/><RecipeDef/></Defs>].  The loop
    over the children counts the first [ThingDef]; at the comment
    [_strip_ns] raises inside the [try], so the two elements after it are
    not counted and [files_scanned] is not incremented, while the count
    already made stays.  Without the comment all three are counted and the
    file is scanned. *)
Theorem comment_child_ends_the_count :
  let f := ["Defs"; "a.xml"] in
  Full.parsed_root (mod_with_defs true) f = Some (lxml_defs true) /\
  Full.count_children (Full.children_of (lxml_defs true)) ∅
    = ({[ "ThingDef" := 1 ]}, Raise AttributeError) /\
  Full.scan_file (mod_with_defs true) f (∅, 0)
    = ([Parsed f], Ok ({[ "ThingDef" := 1 ]}, 0)) /\
  Full._scan_defs (mod_with_defs true) []
    = ([Parsed f], Ok (mkDefsSummary 1 {[ "ThingDef" := 1 ]} 0)) /\
  Full.scan_file (mod_with_defs false) f (∅, 0)
    = ([Parsed f], Ok (list_to_map [("ThingDef", 2); ("RecipeDef", 1)], 1)) /\
  Full._scan_defs (mod_with_defs false) []
    = ([Parsed f],
       Ok (mkDefsSummary 3 (list_to_map [("ThingDef", 2); ("RecipeDef", 1)]) 1)).
Proof. repeat split; vm_compute; reflexivity. Qed.

(** ** Its lookups, entry by entry *)

Lemma passed_over_nil type_test name_test : Full.passed_over type_test name_test [].
Proof. intros entry Hin. inversion Hin. Qed.

Lemma passed_over_cons type_test name_test entry es :
  Full.passed_over type_test name_test (entry :: es) <->
  ((exists b, type_test (snd entry) = Ok b) /\ ~ Full.hit type_test name_test entry) /\
  Full.passed_over type_test name_test es.
Proof.
  unfold Full.passed_over. split.
  - intros H. split; [apply H; left|]. intros e He. apply H. by right.
  - intros [H1 H2] e [->|He]%elem_of_cons; auto.
Qed.

Lemma find_entry_step parent type_test name_test name n es :
  Full.find_entry parent type_test name_test ((name, n) :: es) =
  match type_test n with
  | Raise e => Raise e
  | Ok b =>
      if b && name_test name then Ok (Some (parent ++ [name]))
      else Full.find_entry parent type_test name_test es
  end.
Proof. reflexivity. Qed.

Lemma not_hit type_test name_test name n b :
  type_test n = Ok b ->
  (b && name_test name = false <-> ~ Full.hit type_test name_test (name, n)).
Proof.
  intros Hb. unfold Full.hit. simpl. rewrite Hb. split.
  - intros Hf [[= ->] Hn]. simpl in Hf. congruence.
  - intros Hn. destruct b; [|done]. simpl. apply not_true_is_false.
    intros H. by apply Hn.
Qed.

(** A lookup that runs over [es1] unharmed goes on with what follows. *)
Lemma find_entry_passed parent type_test name_test es1 es2 :
  Full.passed_over type_test name_test es1 ->
  Full.find_entry parent type_test name_test (es1 ++ es2) =
  Full.find_entry parent type_test name_test es2.
Proof.
  induction es1 as [|[name n] es1 IH]; [done|].
  intros [[[b Hb] Hn] Hes1]%passed_over_cons. simpl in Hb.
  change (((name, n) :: es1) ++ es2) with ((name, n) :: (es1 ++ es2)).
  rewrite find_entry_step, Hb.
  apply (not_hit type_test name_test name n b Hb) in Hn. rewrite Hn. auto.
Qed.

Lemma find_entry_spec parent type_test name_test es :
  match Full.find_entry parent type_test name_test es with
  | Ok (Some d) =>
      exists es1 name c es2,
        es = es1 ++ (name, c) :: es2 /\ d = parent ++ [name] /\
        Full.hit type_test name_test (name, c) /\
        Full.passed_over type_test name_test es1
  | Ok None => Full.passed_over type_test name_test es
  | Raise e =>
      exists es1 name c es2,
        es = es1 ++ (name, c) :: es2 /\ type_test c = Raise e /\
        Full.passed_over type_test name_test es1
  end.
Proof.
  induction es as [|[name n] es IH]; [apply passed_over_nil|].
  rewrite find_entry_step. destruct (type_test n) as [b|e] eqn:Hb.
  - destruct (b && name_test name) eqn:Ht.
    + apply andb_prop in Ht as [-> Hn]. exists [], name, n, es.
      split; [done|]. split; [done|]. split; [done|]. apply passed_over_nil.
    + assert (Hpass : (exists b, type_test (snd (name, n)) = Ok b) /\
                      ~ Full.hit type_test name_test (name, n)).
      { split; [eauto|]. by apply (not_hit type_test name_test name n b Hb). }
      destruct (Full.find_entry parent type_test name_test es) as [[d|]|e].
      * destruct IH as (es1 & name' & c & es2 & -> & -> & Hhit & Hes1).
        exists ((name, n) :: es1), name', c, es2. split; [done|]. split; [done|].
        split; [done|]. apply passed_over_cons. split; [|done].
        exact Hpass.
      * apply passed_over_cons. split; [|done].
        exact Hpass.
      * destruct IH as (es1 & name' & c & es2 & -> & He & Hes1).
        exists ((name, n) :: es1), name', c, es2. split; [done|]. split; [done|].
        apply passed_over_cons. split; [|done].
        exact Hpass.
  - exists [], name, n, es. split; [done|]. split; [done|]. apply passed_over_nil.
Qed.

Lemma find_entry_hit parent type_test name_test es1 name c es2 :
  Full.hit type_test name_test (name, c) ->
  Full.passed_over type_test name_test es1 ->
  Full.find_entry parent type_test name_test (es1 ++ (name, c) :: es2)
  = Ok (Some (parent ++ [name])).
Proof.
  intros [Hc Hn] Hes1. rewrite (find_entry_passed _ _ _ _ _ Hes1), find_entry_step.
  simpl in Hc, Hn. by rewrite Hc, Hn.
Qed.

Lemma find_entry_fails parent type_test name_test es1 name c es2 e :
  type_test c = Raise e ->
  Full.passed_over type_test name_test es1 ->
  Full.find_entry parent type_test name_test (es1 ++ (name, c) :: es2) = Raise e.
Proof.
  intros Hc Hes1. rewrite (find_entry_passed _ _ _ _ _ Hes1), find_entry_step.
  by rewrite Hc.
Qed.

Lemma is_dir_Raise c e : Full.is_dir c = Raise e <-> c = Full.Looping /\ e = OSError.
Proof.
  destruct c as [| | |r m es]; simpl; split; try discriminate; try by intros [[=] _].
  - by intros [= <-].
  - by intros [_ ->].
Qed.

(** X5.  [_find_case_insensitive_dir] tests the entries in listing order,
    the type before the name.  It returns the first directory whose name
    equals the expected one up to case when every entry before it can be
    type-tested; it returns [None] when every entry can be type-tested and
    none is such a directory, and when there is nothing at the parent; it
    raises [OSError] when a looping link comes before every such directory,
    and every error of [os.scandir] other than [FileNotFoundError].  Only
    the lower-cased expected name matters. *)
Theorem find_case_insensitive_dir_scan fs parent expected :
  let find := Full._find_case_insensitive_dir fs parent in
  let pass := Full.passed_over Full.is_dir (name_is expected) in
  (forall es, Full.scandir fs parent = Ok es ->
     (forall d,
        find expected = Ok (Some d) <->
        exists es1 name r m es' es2,
          es = es1 ++ (name, Full.Dir r m es') :: es2 /\ d = parent ++ [name] /\
          PyStr.lower name = PyStr.lower expected /\ pass es1) /\
     (find expected = Ok None <-> pass es) /\
     (forall e,
        find expected = Raise e <->
        e = OSError /\
        exists es1 name es2, es = es1 ++ (name, Full.Looping) :: es2 /\ pass es1)) /\
  (Full.scandir fs parent = Raise FileNotFoundError -> find expected = Ok None) /\
  (forall e, Full.scandir fs parent = Raise e -> e <> FileNotFoundError ->
             find expected = Raise e) /\
  (forall expected', PyStr.lower expected' = PyStr.lower expected ->
                     find expected' = find expected).
Proof.
  intros find pass. subst find pass. split; [|split; [|split]].
  - intros es Hs. unfold Full._find_case_insensitive_dir. rewrite Hs.
    pose proof (find_entry_spec parent Full.is_dir (name_is expected) es) as Hspec.
    assert (Hexc : forall r : result (option Path),
      (forall e, r = Raise e -> e = OSError) ->
      except_FileNotFoundError r None = r).
    { intros [r|e] He; [done|]. by rewrite (He e eq_refl). }
    rewrite Hexc; cycle 1.
    { intros e He. rewrite He in Hspec.
      destruct Hspec as (es1 & name & c & es2 & _ & Hc & _).
      by apply is_dir_Raise in Hc as [_ ->]. }
    split; [|split].
    + intros d. split.
      * intros Hf. rewrite Hf in Hspec.
        destruct Hspec as (es1 & name & c & es2 & -> & -> & [Hc Hn] & Hes1).
        simpl in Hc, Hn. destruct c as [| | |r m es']; try discriminate.
        exists es1, name, r, m, es', es2. split; [done|]. split; [done|].
        split; [by apply String.eqb_eq in Hn|done].
      * intros (es1 & name & r & m & es' & es2 & -> & -> & Hn & Hes1).
        apply find_entry_hit; [|done]. split; [done|]. by apply String.eqb_eq.
    + split.
      * intros Hf. by rewrite Hf in Hspec.
      * intros Hpass. rewrite <- (app_nil_r es).
        by rewrite (find_entry_passed _ _ _ _ [] Hpass).
    + intros e. split.
      * intros Hf. rewrite Hf in Hspec.
        destruct Hspec as (es1 & name & c & es2 & -> & Hc & Hes1).
        apply is_dir_Raise in Hc as [-> ->]. split; [done|]. by exists es1, name, es2.
      * intros (-> & es1 & name & es2 & -> & Hes1). by apply find_entry_fails.
  - intros Hs. unfold Full._find_case_insensitive_dir. by rewrite Hs.
  - intros e Hs He. by apply full_find_dir_raises.
  - intros expected' He. unfold Full._find_case_insensitive_dir, name_is.
    by rewrite He.
Qed.

Lemma find_case_insensitive_dir_scan_witness :
  (Full.scandir (parent_with_link false) []
     = Ok [("Defs", Full.File 1 None); ("defs", full_leaf_dir); ("link", Full.Looping)] /\
   Full._find_case_insensitive_dir (parent_with_link false) [] "DEFS" = Ok (Some ["defs"])) /\
  (Full.scandir (parent_with_link true) []
     = Ok [("Defs", Full.File 1 None); ("link", Full.Looping); ("defs", full_leaf_dir)] /\
   Full._find_case_insensitive_dir (parent_with_link true) [] "DEFS" = Raise OSError).
Proof.
  split.
  - split; [reflexivity|].
    apply (proj1 (find_case_insensitive_dir_scan (parent_with_link false) [] "DEFS") _
             eq_refl).
    exists [("Defs", Full.File 1 None)], "defs", true, 0, [], [("link", Full.Looping)].
    split; [reflexivity|]. split; [reflexivity|]. split; [reflexivity|].
    intros entry ->%list_elem_of_singleton. split; [by exists false|].
    intros [Hc _]. discriminate Hc.
  - split; [reflexivity|].
    apply (proj1 (find_case_insensitive_dir_scan (parent_with_link true) [] "DEFS") _
             eq_refl).
    split; [reflexivity|].
    exists [("Defs", Full.File 1 None)], "link", [("defs", full_leaf_dir)].
    split; [reflexivity|].
    intros entry ->%list_elem_of_singleton. split; [by exists false|].
    intros [Hc _]. discriminate Hc.
Defined.

(** X6.  On a well-formed tree the path [_about_xml_path] returns is that
    of a regular file named [about.xml] up to case, directly inside a
    sub-directory of the mod root named [About] up to case.  The lookup
    returns when the lookups under the mod root are clean; it raises what
    the lookup of the About folder raises, and every error of listing that
    folder other than [FileNotFoundError]. *)
Theorem about_xml_path_lookup fs mod_root :
  (forall a,
     Full.wf_node fs = true ->
     Full._about_xml_path fs mod_root = Ok (Some a) ->
     exists n1 n2 m doc,
       a = mod_root ++ [n1; n2] /\
       PyStr.lower n1 = "about" /\ PyStr.lower n2 = "about.xml" /\
       (exists m1 es1, Full.node_at fs (mod_root ++ [n1]) = Ok (Full.Dir true m1 es1)) /\
       Full.node_at fs a = Ok (Full.File m doc)) /\
  (Full.wf_node fs = true -> Full.lookups_clean fs mod_root = true ->
   exists r, Full._about_xml_path fs mod_root = Ok r) /\
  (forall e,
     Full._find_case_insensitive_dir fs mod_root "About" = Raise e ->
     Full._about_xml_path fs mod_root = Raise e) /\
  (forall d e,
     Full._find_case_insensitive_dir fs mod_root "About" = Ok (Some d) ->
     Full.scandir fs d = Raise e -> e <> FileNotFoundError ->
     Full._about_xml_path fs mod_root = Raise e).
Proof.
  split; [|split; [|split]].
  - intros a Hwf. unfold Full._about_xml_path.
    destruct (Full._find_case_insensitive_dir fs mod_root "About")
      as [[about_dir|]|e] eqn:Hf; try discriminate.
    destruct (full_find_dir_Some _ _ _ _ Hf)
      as (es & n1 & r1 & m1 & es1 & Hs & -> & Hin & Hn1).
    pose proof (full_node_at_entry _ _ _ _ _ Hwf Hs Hin) as Hd.
    unfold Full.scandir. rewrite Hd.
    destruct r1; [|discriminate].
    destruct (Full.find_entry (mod_root ++ [n1]) Full.is_file
                (fun name => String.eqb (PyStr.lower name) "about.xml") es1)
      as [r|e] eqn:Hfe; simpl; [|destruct e; discriminate].
    intros [= ->]. apply find_entry_Some in Hfe as (n2 & c & -> & Hin2 & Hc & Hn2).
    destruct c as [m doc| | |]; try discriminate.
    exists n1, n2, m, doc. rewrite <- app_assoc. split; [done|].
    split; [by apply String.eqb_eq in Hn1|]. split; [by apply String.eqb_eq in Hn2|].
    split; [eauto|].
    change (mod_root ++ [n1; n2]) with (mod_root ++ [n1] ++ [n2]).
    rewrite app_assoc. apply (full_node_at_entry _ _ es1 _ _ Hwf); [|done].
    unfold Full.scandir. by rewrite Hd.
  - intros Hwf [Hs|(es & Hs & Ht & Hl)]%lookups_clean_cases.
    + unfold Full._about_xml_path, Full._find_case_insensitive_dir. rewrite Hs.
      simpl. eauto.
    + by eapply full_about_xml_path_total.
  - intros e Hf. unfold Full._about_xml_path. by rewrite Hf.
  - intros d e Hf Hs He. unfold Full._about_xml_path. rewrite Hf, Hs. by destruct e.
Qed.

Lemma about_xml_path_lookup_witness :
  (Full.wf_node (mod_with_manifest true) = true /\
   Full.lookups_clean (mod_with_manifest true) [] = true /\
   Full._about_xml_path (mod_with_manifest true) [] = Ok (Some ["About"; "About.xml"])) /\
  (Full._find_case_insensitive_dir full_tree ["Locked"] "About"
     = Ok (Some ["Locked"; "About"]) /\
   Full.scandir full_tree ["Locked"; "About"] = Raise PermissionError /\
   Full._about_xml_path full_tree ["Locked"] = Raise PermissionError).
Proof.
  split.
  - split; [reflexivity|]. split; [reflexivity|].
    destruct (proj1 (proj2 (about_xml_path_lookup (mod_with_manifest true) []))
                eq_refl eq_refl) as [r Hr].
    rewrite Hr. revert Hr. vm_compute. by intros [= <-].
  - split; [reflexivity|]. split; [reflexivity|].
    apply (proj2 (proj2 (proj2 (about_xml_path_lookup full_tree ["Locked"])))
             ["Locked"; "About"]); [reflexivity|reflexivity|discriminate].
Defined.

(** ** Its scan *)

Lemma leading_elements_all children :
  Full.str_tagged children = true -> Full.leading_elements children = children.
Proof.
  induction children as [|[[t|] a x cs] children IH]; simpl; [done| |discriminate].
  intros H. by rewrite IH.
Qed.

Lemma full_count_children_spec children counter k :
  count (fst (Full.count_children children counter)) k =
    count counter k +
    (if PyStr.nonempty k then Full.tagged k (Full.leading_elements children) else 0) /\
  sum_values (fst (Full.count_children children counter)) =
    sum_values counter + Full.named (Full.leading_elements children) /\
  snd (Full.count_children children counter) =
    (if Full.str_tagged children then Ok tt else Raise AttributeError) /\
  (counter_ok counter -> counter_ok (fst (Full.count_children children counter))).
Proof.
  unfold Full.tagged, Full.named. revert counter.
  induction children as [|[[t|] a x cs] children IH]; intros counter.
  - simpl. destruct (PyStr.nonempty k); (split; [lia|]); (split; [lia|]); done.
  - change (Full.count_children (Full.Element (Some t) a x cs :: children) counter)
      with (Full.count_children children
              (if PyStr.nonempty (Full.str_strip_ns t)
               then incr counter (Full.str_strip_ns t) else counter)).
    change (Full.leading_elements (Full.Element (Some t) a x cs :: children))
      with (Full.Element (Some t) a x cs :: Full.leading_elements children).
    change (Full.str_tagged (Full.Element (Some t) a x cs :: children))
      with (Full.str_tagged children).
    destruct (IH (if PyStr.nonempty (Full.str_strip_ns t)
                  then incr counter (Full.str_strip_ns t) else counter))
      as (H1 & H2 & H3 & H4).
    rewrite H1, H2, H3. simpl List.filter.
    change (Full.local_name (Full.Element (Some t) a x cs)) with (Full.str_strip_ns t).
    destruct (PyStr.nonempty (Full.str_strip_ns t)) eqn:Hc.
    + rewrite count_incr, sum_values_incr.
      split; [|split; [simpl length; lia|split; [done|]]].
      * destruct (String.eqb_spec (Full.str_strip_ns t) k) as [<-|Hne].
        -- rewrite Hc. simpl length. lia.
        -- lia.
      * intros Hok. apply H4. by apply counter_ok_incr.
    + split; [|split; [lia|split; [done|done]]].
      destruct (String.eqb_spec (Full.str_strip_ns t) k) as [<-|Hne]; [|lia].
      by rewrite Hc.
  - simpl. destruct (PyStr.nonempty k); (split; [lia|]); (split; [lia|]); done.
Qed.

Lemma full_scan_step_spec fs st f k :
  count (fst (Full.scan_step fs st f)) k = count (fst st) k + Full.file_tagged fs k f /\
  sum_values (fst (Full.scan_step fs st f)) = sum_values (fst st) + Full.file_defs fs f /\
  snd (Full.scan_step fs st f) = snd st + Full.file_scanned fs f /\
  (counter_ok (fst st) -> counter_ok (fst (Full.scan_step fs st f))).
Proof.
  unfold Full.scan_step, Full.file_tagged, Full.file_defs, Full.file_scanned,
    Full.defs_root, Full.scan_root, Full.local_name.
  destruct (Full.parsed_root fs f) as [[[t|] a x cs]|]; simpl;
    try (split; [lia|]; split; [lia|]; split; [lia|done]).
  destruct (String.eqb _ "defs"); simpl;
    [|split; [lia|]; split; [lia|]; split; [lia|done]].
  destruct (full_count_children_spec cs (fst st) k) as (H1 & H2 & H3 & H4).
  destruct (Full.count_children cs (fst st)) as [counter r]. simpl in *.
  rewrite H3. destruct (Full.str_tagged cs); simpl; rewrite H1, H2;
    (split; [done|]); (split; [done|]); (split; [lia|done]).
Qed.

Lemma full_scan_files_spec fs files st k :
  count (fst (Full.scan_files fs files st)) k =
    count (fst st) k + zsum (map (Full.file_tagged fs k) files) /\
  sum_values (fst (Full.scan_files fs files st)) =
    sum_values (fst st) + zsum (map (Full.file_defs fs) files) /\
  snd (Full.scan_files fs files st) = snd st + zsum (map (Full.file_scanned fs) files) /\
  (counter_ok (fst st) -> counter_ok (fst (Full.scan_files fs files st))).
Proof.
  unfold Full.scan_files. revert st.
  induction files as [|f files IH]; intros st; simpl.
  - unfold zsum. simpl. split; [lia|]. split; [lia|]. split; [lia|done].
  - destruct (IH (Full.scan_step fs st f)) as (H1 & H2 & H3 & H4).
    destruct (full_scan_step_spec fs st f k) as (G1 & G2 & G3 & G4).
    rewrite H1, H2, H3, G1, G2, G3. unfold zsum. simpl.
    split; [lia|]. split; [lia|]. split; [lia|auto].
Qed.

Lemma full_file_scanned_range fs f : 0 <= Full.file_scanned fs f <= 1.
Proof.
  unfold Full.file_scanned. destruct (Full.defs_root fs f); [|lia].
  destruct (Full.str_tagged _); lia.
Qed.

Lemma full_file_defs_nonneg fs f : 0 <= Full.file_defs fs f.
Proof.
  unfold Full.file_defs, Full.named. destruct (Full.defs_root fs f); lia.
Qed.

Lemma full_zsum_file_scanned fs files :
  0 <= zsum (map (Full.file_scanned fs) files) <= Z.of_nat (length files).
Proof.
  induction files as [|f files IH]; unfold zsum in *; simpl; [lia|].
  pose proof (full_file_scanned_range fs f). lia.
Qed.

Lemma full_zsum_file_defs fs files : 0 <= zsum (map (Full.file_defs fs) files).
Proof.
  induction files as [|f files IH]; unfold zsum in *; simpl; [lia|].
  pose proof (full_file_defs_nonneg fs f). lia.
Qed.

(** X11.  When the lookups under the mod root are clean [_scan_defs]
    returns a summary.  [files_scanned] is the number of enumerated files
    that parse as a [Defs] document none of whose children is a comment or
    a processing instruction, so it lies between 0 and the number of
    enumerated files; [total_defs] is the number of children counted, those
    before the first comment of each [Defs] document, and is the sum of
    [type_counts]; the keys of [type_counts] are non-empty and its values
    positive; with no enumerated file the summary is the zero one. *)
Theorem scan_defs_counts fs mod_path :
  Full.wf_node fs = true -> Full.lookups_clean fs mod_path = true ->
  exists log s,
    Full._scan_defs fs mod_path = (log, Ok s) /\
    let files := yields (fst (Full._iter_defs_xml_files fs mod_path)) in
    files_scanned s = zsum (map (Full.file_scanned fs) files) /\
    0 <= files_scanned s <= Z.of_nat (length files) /\
    total_defs s = zsum (map (Full.file_defs fs) files) /\
    0 <= total_defs s /\
    total_defs s = sum_values (type_counts s) /\
    (forall k, count (type_counts s) k = zsum (map (Full.file_tagged fs k) files)) /\
    counter_ok (type_counts s) /\
    (files = [] -> s = zero_summary).
Proof.
  intros Hwf Hp.
  destruct (full_iter_defs_xml_files_total fs mod_path Hwf Hp) as [evs Hit].
  rewrite (full_scan_defs_of_iter _ _ _ Hit), Hit. simpl.
  eexists _, _. split; [reflexivity|].
  set (files := yields evs).
  destruct (full_scan_files_spec fs files (∅, 0) "") as (_ & Ht & Hn & Hok).
  simpl in Ht, Hn. rewrite sum_values_empty in Ht.
  pose proof (full_zsum_file_scanned fs files).
  pose proof (full_zsum_file_defs fs files).
  simpl. rewrite Ht, Hn.
  split; [lia|]. split; [lia|]. split; [lia|]. split; [lia|]. split; [lia|].
  split; [|split].
  - intros k. destruct (full_scan_files_spec fs files (∅, 0) k) as (Hc & _).
    simpl in Hc. rewrite Hc, count_empty. lia.
  - apply Hok, counter_ok_empty.
  - intros ->. apply summary_of_zero.
Qed.

Lemma scan_defs_counts_witness :
  Full.wf_node (mod_with_defs true) = true /\
  Full.lookups_clean (mod_with_defs true) [] = true /\
  yields (fst (Full._iter_defs_xml_files (mod_with_defs true) [])) = [["Defs"; "a.xml"]] /\
  Full.file_scanned (mod_with_defs true) ["Defs"; "a.xml"] = 0 /\
  Full.file_defs (mod_with_defs true) ["Defs"; "a.xml"] = 1 /\
  exists log s,
    Full._scan_defs (mod_with_defs true) [] = (log, Ok s) /\
    files_scanned s = 0 /\ total_defs s = 1.
Proof.
  split; [reflexivity|]. split; [reflexivity|]. split; [reflexivity|].
  split; [reflexivity|]. split; [reflexivity|].
  destruct (scan_defs_counts (mod_with_defs true) [] eq_refl eq_refl)
    as (log & s & Hs & Hn & _ & Ht & _).
  exists log, s. split; [exact Hs|]. split; [exact Hn|exact Ht].
Defined.

(** X21.  What one iteration of [_scan_defs] does with a file that parses.
    A file whose root is not [Defs], up to case and namespace, or whose
    root has no [str] tag, leaves the state as it is.  At a [Defs] root the counter of every non-empty local
    name goes up by the number of children of that name before the first
    child whose tag is no [str], and no other key is touched;
    [files_scanned] goes up by one when every child has a [str] tag, and
    stays otherwise.  With [str] tags only, every child is counted. *)
Theorem scan_file_counts_leading_children fs xml_path root st :
  Full.parsed_root fs xml_path = Some root ->
  exists st',
    Full.scan_file fs xml_path st = ([Parsed xml_path], Ok st') /\
    (Full.tag_of root = None -> st' = st) /\
    (forall tag, Full.tag_of root = Some tag ->
       PyStr.lower (_strip_ns tag) <> "defs" -> st' = st) /\
    (forall tag, Full.tag_of root = Some tag ->
       PyStr.lower (_strip_ns tag) = "defs" ->
       let children := Full.children_of root in
       snd st' = snd st + (if Full.str_tagged children then 1 else 0) /\
       (forall k, k <> "" ->
          count (fst st') k
          = count (fst st) k + Full.tagged k (Full.leading_elements children)) /\
       count (fst st') "" = count (fst st) "" /\
       (Full.str_tagged children = true ->
        forall k, k <> "" -> count (fst st') k = count (fst st) k + Full.tagged k children)).
Proof.
  intros Hroot. rewrite full_scan_file_step. eexists. split; [reflexivity|].
  unfold Full.scan_step. rewrite Hroot. unfold Full.scan_root.
  split; [by intros ->|]. split.
  - intros tag Ht Hne. rewrite Ht. simpl. unfold Full.str_strip_ns.
    apply String.eqb_neq in Hne. by rewrite Hne.
  - intros tag Ht He. rewrite Ht. simpl. unfold Full.str_strip_ns.
    rewrite He. simpl.
    assert (Hcount : forall k,
      count (fst (Full.count_children (Full.children_of root) (fst st))) k =
      count (fst st) k +
      (if PyStr.nonempty k
       then Full.tagged k (Full.leading_elements (Full.children_of root)) else 0)).
    { intros k. apply full_count_children_spec. }
    destruct (full_count_children_spec (Full.children_of root) (fst st) "")
      as (_ & _ & Hr & _).
    destruct (Full.count_children (Full.children_of root) (fst st)) as [counter r].
    simpl in Hr, Hcount. subst r.
    assert (Hk : forall k, k <> "" -> PyStr.nonempty k = true) by (by intros []).
    destruct (Full.str_tagged (Full.children_of root)) eqn:Hstr; simpl.
    + split; [done|]. split; [intros k Hne; by rewrite Hcount, Hk|].
      split; [rewrite Hcount; simpl; lia|].
      intros _ k Hne. rewrite Hcount, Hk by done.
      by rewrite (leading_elements_all _ Hstr).
    + split; [lia|]. split; [intros k Hne; by rewrite Hcount, Hk|].
      split; [rewrite Hcount; simpl; lia|done].
Qed.

Lemma scan_file_counts_leading_children_witness :
  Full.parsed_root (mod_with_defs true) ["Defs"; "a.xml"] = Some (lxml_defs true) /\
  exists st',
    Full.scan_file (mod_with_defs true) ["Defs"; "a.xml"] (∅, 0)
      = ([Parsed ["Defs"; "a.xml"]], Ok st') /\
    snd st' = 0 /\ count (fst st') "ThingDef" = 1 /\ count (fst st') "RecipeDef" = 0.
Proof.
  split; [reflexivity|].
  destruct (scan_file_counts_leading_children (mod_with_defs true) ["Defs"; "a.xml"]
              (lxml_defs true) (∅, 0) eq_refl) as (st' & Hs & _ & _ & Hd).
  exists st'. split; [exact Hs|].
  destruct (Hd "Defs" eq_refl eq_refl) as (Hn & Hc & _).
  split; [exact Hn|]. split; [by apply Hc|by apply Hc].
Defined.

(** ** Its manifest reader *)

Lemma full_li_texts_spec children versions :
  Full.li_texts children versions =
  if Full.str_tagged children then Ok (versions ++ Full.li_versions children)
  else Raise AttributeError.
Proof.
  unfold Full.li_versions. revert versions.
  induction children as [|[[t|] a x cs] children IH]; intros versions.
  - simpl. by rewrite app_nil_r.
  - change (Full.str_tagged (Full.Element (Some t) a x cs :: children))
      with (Full.str_tagged children).
    simpl Full.li_texts. unfold Full.is_named at 1. simpl List.filter.
    change (Full.local_name (Full.Element (Some t) a x cs)) with (Full.str_strip_ns t).
    destruct (String.eqb (PyStr.lower (Full.str_strip_ns t)) "li"); [|apply IH].
    simpl map. simpl List.filter.
    destruct (PyStr.nonempty (PyStr.strip (default "" x))); rewrite IH; [|done].
    destruct (Full.str_tagged children); [|done]. by rewrite <- app_assoc.
  - reflexivity.
Qed.

Lemma full_versions_in_spec nodes :
  Full.versions_in nodes =
  if Full.str_tagged (Full.inspected nodes) then
    Ok match List.find (Full.is_named "supportedversions") nodes with
       | Some elem => Full.li_versions (Full.children_of elem)
       | None => []
       end
  else Raise AttributeError.
Proof.
  induction nodes as [|[[t|] a x cs] nodes IH]; [done| |].
  - simpl Full.versions_in. simpl List.find. simpl Full.inspected.
    change (String.eqb (PyStr.lower (Full.str_strip_ns t)) "supportedversions")
      with (Full.is_named "supportedversions" (Full.Element (Some t) a x cs)).
    destruct (Full.is_named "supportedversions" (Full.Element (Some t) a x cs)).
    + rewrite full_li_texts_spec. simpl Full.children_of.
      change (Full.str_tagged (Full.Element (Some t) a x cs :: cs))
        with (Full.str_tagged cs).
      by destruct (Full.str_tagged cs).
    + change (Full.str_tagged (Full.Element (Some t) a x cs :: Full.inspected nodes))
        with (Full.str_tagged (Full.inspected nodes)).
      apply IH.
  - reflexivity.
Qed.

(** X22.  What [_parse_supported_versions] reads.  Without a manifest, or
    with one that does not parse, it is the empty list.  From a manifest
    that parses it is the list of the stripped, non-empty texts of the [li]
    children of the first [supportedVersions] element in document order,
    names up to case and namespace, provided every node before that
    element, and every child of it, has a [str] tag; when one of them is a
    comment or a processing instruction the list is empty, whatever the
    manifest declares. *)
Theorem parse_supported_versions_reads fs mod_root :
  (Full._about_xml_path fs mod_root = Ok None ->
   Full._parse_supported_versions fs mod_root = ([], Ok [])) /\
  (forall a,
     Full._about_xml_path fs mod_root = Ok (Some a) ->
     Full.parsed_root fs a = None ->
     Full._parse_supported_versions fs mod_root = ([Parsed a], Ok [])) /\
  (forall a root,
     Full._about_xml_path fs mod_root = Ok (Some a) ->
     Full.parsed_root fs a = Some root ->
     Full._parse_supported_versions fs mod_root =
     ([Parsed a],
      Ok (if Full.str_tagged (Full.inspected (Full.iter root))
          then Full.declared_versions root else []))) /\
  (forall e,
     Full._about_xml_path fs mod_root = Raise e ->
     Full._parse_supported_versions fs mod_root = ([], Raise e)).
Proof.
  unfold Full._parse_supported_versions. split; [|split; [|split]].
  - by intros ->.
  - intros a -> Hroot. simpl. unfold Full.parsed_root in Hroot.
    unfold Full.ET_parse, try_except, bind, lift, ret.
    by destruct (Full.node_at fs a) as [[m [root|]| | |r m es]|e].
  - intros a root -> Hroot. simpl. unfold Full.parsed_root in Hroot.
    unfold Full.ET_parse, try_except, bind, lift, ret.
    destruct (Full.node_at fs a) as [[m [root'|]| | |r m es]|e]; try discriminate.
    injection Hroot as ->. rewrite full_versions_in_spec. unfold Full.declared_versions.
    by destruct (Full.str_tagged _).
  - by intros e ->.
Qed.

Lemma parse_supported_versions_reads_witness :
  (Full._about_xml_path (mod_with_manifest false) [] = Ok (Some ["About"; "About.xml"]) /\
   Full.parsed_root (mod_with_manifest false) ["About"; "About.xml"]
     = Some (lxml_manifest false ["1.4"]) /\
   Full._parse_supported_versions (mod_with_manifest false) []
     = ([Parsed ["About"; "About.xml"]], Ok ["1.4"])) /\
  (Full._about_xml_path (mod_with_manifest true) [] = Ok (Some ["About"; "About.xml"]) /\
   Full.parsed_root (mod_with_manifest true) ["About"; "About.xml"]
     = Some (lxml_manifest true ["1.4"]) /\
   Full.declared_versions (lxml_manifest true ["1.4"]) = ["1.4"] /\
   Full._parse_supported_versions (mod_with_manifest true) []
     = ([Parsed ["About"; "About.xml"]], Ok [])).
Proof.
  split.
  - split; [reflexivity|]. split; [reflexivity|].
    apply (proj1 (proj2 (proj2 (parse_supported_versions_reads (mod_with_manifest false) [])))
             ["About"; "About.xml"] (lxml_manifest false ["1.4"]) eq_refl eq_refl).
  - split; [reflexivity|]. split; [reflexivity|]. split; [reflexivity|].
    apply (proj1 (proj2 (proj2 (parse_supported_versions_reads (mod_with_manifest true) [])))
             ["About"; "About.xml"] (lxml_manifest true ["1.4"]) eq_refl eq_refl).
Defined.

(** ** Version tags, as the pattern defines them *)

Lemma append_same_length a b x y :
  String.append a x = String.append b y -> String.length a = String.length b ->
  a = b /\ x = y.
Proof.
  revert b. induction a as [|c a IH]; intros [|d b]; simpl; try discriminate.
  - by rewrite !append_nil_l.
  - rewrite !append_cons. intros [= -> H] [= Hl]. destruct (IH b H Hl) as [-> ->]. done.
Qed.

Lemma int_of_digits_short g :
  (String.length g <= PyStr.max_str_digits)%nat ->
  PyStr.int_of_digits g = Some (PyStr.digits_val g 0).
Proof.
  intros Hlen. unfold PyStr.int_of_digits.
  destruct (Nat.ltb_spec PyStr.max_str_digits (String.length g)); [lia|done].
Qed.

Lemma int_of_digits_Some g n :
  PyStr.int_of_digits g = Some n ->
  (String.length g <= PyStr.max_str_digits)%nat /\ n = PyStr.digits_val g 0.
Proof.
  unfold PyStr.int_of_digits.
  destruct (Nat.ltb_spec PyStr.max_str_digits (String.length g)); [discriminate|].
  intros [= <-]. done.
Qed.

(** [_normalize_version_string] computes the tag of the pattern. *)
Lemma normalize_version_tag s t :
  _normalize_version_string s = Some t <-> version_tag s t.
Proof.
  unfold _normalize_version_string, version_tag. split.
  - destruct (re_search s) as [[g1 g2]|] eqn:Hr; [|discriminate].
    destruct (PyStr.int_of_digits g1) as [major|] eqn:H1; [|discriminate].
    destruct (PyStr.int_of_digits g2) as [minor|] eqn:H2; [|discriminate].
    intros [= <-].
    apply int_of_digits_Some in H1 as [Hl1 ->]. apply int_of_digits_Some in H2 as [Hl2 ->].
    destruct (re_search_leftmost_greedy _ _ _ Hr) as (pre & Hm & Hleft & Hgreedy).
    exists pre, g1, g2. split; [done|]. split; [done|]. split; [|done].
    intros g1' g2' Hm'. destruct (Hgreedy _ _ Hm') as [-> [ext ->]].
    rewrite length_append. lia.
  - intros (pre & g1 & g2 & Hm & Hleft & Hmax & Hl1 & Hl2 & ->).
    destruct (re_search_complete _ _ _ _ Hm) as [[h1 h2] Hr]. rewrite Hr.
    destruct (re_search_leftmost_greedy _ _ _ Hr) as (pre0 & Hm0 & Hleft0 & Hgreedy0).
    assert (Hpre : pre0 = pre).
    { pose proof (Hleft _ _ _ Hm0). pose proof (Hleft0 _ _ _ Hm).
      destruct Hm as (_ & _ & post & Hs). destruct Hm0 as (_ & _ & post0 & Hs0).
      rewrite Hs in Hs0. symmetry in Hs0.
      apply append_same_length in Hs0 as [? _]; [done|lia]. }
    subst pre0.
    destruct (Hgreedy0 _ _ Hm) as [-> [ext Hext]].
    destruct (Hmax _ _ Hm0) as [_ Hlen].
    assert (h2 = g2) as ->.
    { rewrite Hext, length_append in Hlen.
      destruct ext as [|c ext]; [by rewrite Hext, append_nil_r|]. simpl in Hlen. lia. }
    by rewrite !int_of_digits_short.
Qed.

(** ** Its version folders *)

Lemma add_version_dirs_app p es1 es2 mapping :
  Full.add_version_dirs p (es1 ++ es2) mapping =
  match Full.add_version_dirs p es1 mapping with
  | Ok mapping' => Full.add_version_dirs p es2 mapping'
  | Raise e => Raise e
  end.
Proof.
  revert mapping. induction es1 as [|[name n] es1 IH]; intros mapping; simpl; [done|].
  destruct (Full.is_dir n) as [[]|e]; [|apply IH|done].
  destruct (_normalize_version_string name); apply IH.
Qed.

Lemma add_version_dirs_one p name n mapping :
  Full.add_version_dirs p [(name, n)] mapping =
  match Full.is_dir n with
  | Raise e => Raise e
  | Ok false => Ok mapping
  | Ok true =>
      match _normalize_version_string name with
      | Some norm => Ok (<[norm := p ++ [name]]> mapping)
      | None => Ok mapping
      end
  end.
Proof.
  simpl. by destruct (Full.is_dir n) as [[]|e].
Qed.

(** The mapping holds, for each tag, the last directory of that tag. *)
Lemma add_version_dirs_folder p es available :
  Full.add_version_dirs p es ∅ = Ok available ->
  forall t d, available !! t = Some d <->
              exists name, d = p ++ [name] /\ version_folder es t name.
Proof.
  revert available. induction es as [|[name n] es IH] using rev_ind; intros available.
  - simpl. intros [= <-] t d. rewrite lookup_empty. split; [discriminate|].
    intros (name & _ & es1 & r & m & es' & es2 & Hes & _). by destruct es1.
  - rewrite add_version_dirs_app.
    destruct (Full.add_version_dirs p es ∅) as [mapping|e] eqn:Hes; [|discriminate].
    specialize (IH mapping eq_refl). rewrite add_version_dirs_one.
    assert (Hext : forall t,
      ~ (Full.is_dir n = Ok true /\ version_tag name t) ->
      forall name0, version_folder es t name0 <-> version_folder (es ++ [(name, n)]) t name0).
    { intros t Hno name0. split.
      - intros (es1 & r & m & es' & es2 & -> & Ht & Hes2).
        exists es1, r, m, es', (es2 ++ [(name, n)]). rewrite <- app_assoc.
        split; [done|]. split; [done|].
        intros name' c [Hin|[= -> ->]%list_elem_of_singleton]%elem_of_app Hd;
          [by eapply Hes2|]. intros Hv. by apply Hno.
      - intros (es1 & r & m & es' & es2 & Heq & Ht & Hes2).
        destruct es2 as [|x es2 _] using rev_ind.
        + apply app_inj_tail in Heq as [-> [= -> ->]]. destruct Hno. done.
        + change (es1 ++ (name0, Full.Dir r m es') :: es2 ++ [x])
            with (es1 ++ ((name0, Full.Dir r m es') :: es2) ++ [x]) in Heq.
          rewrite app_assoc in Heq. apply app_inj_tail in Heq as [-> <-].
          exists es1, r, m, es', es2. split; [done|]. split; [done|].
          intros name' c Hin. apply Hes2. apply elem_of_app. by left. }
    assert (Hkeep : forall t d,
      ~ (Full.is_dir n = Ok true /\ version_tag name t) ->
      (mapping !! t = Some d <->
       exists name0, d = p ++ [name0] /\ version_folder (es ++ [(name, n)]) t name0)).
    { intros t d Hno. rewrite IH. split; intros (name0 & -> & H); exists name0;
        (split; [done|]); by apply (Hext t Hno). }
    destruct (Full.is_dir n) as [[]|e] eqn:Hd; [| |discriminate].
    + destruct (_normalize_version_string name) as [norm|] eqn:Hn.
      * intros [= <-] t d. rewrite lookup_insert. case_decide as Ht.
        -- subst norm. apply normalize_version_tag in Hn. split.
           ++ intros [= <-]. exists name. split; [done|].
              destruct n as [| | |r m es']; try discriminate.
              exists es, r, m, es', []. split; [done|]. split; [done|].
              intros name' c Hin. inversion Hin.
           ++ intros (name0 & -> & es1 & r & m & es' & es2 & Heq & Hv & Hes2).
              destruct es2 as [|x es2 _] using rev_ind.
              ** by apply app_inj_tail in Heq as [_ [= -> _]].
              ** change (es1 ++ (name0, Full.Dir r m es') :: es2 ++ [x])
                   with (es1 ++ ((name0, Full.Dir r m es') :: es2) ++ [x]) in Heq.
                 rewrite app_assoc in Heq. apply app_inj_tail in Heq as [_ <-].
                 destruct (Hes2 name n); [apply elem_of_app; right; left|done|done].
        -- apply Hkeep. intros [_ Hv]. apply normalize_version_tag in Hv. congruence.
      * intros [= <-] t d. apply Hkeep. intros [_ Hv].
        apply normalize_version_tag in Hv. congruence.
    + intros [= <-] t d. apply Hkeep. by intros [[=] _].
Qed.

Lemma add_version_dirs_is_Some p es mapping available t :
  Full.add_version_dirs p es mapping = Ok available ->
  (is_Some (available !! t) <->
   is_Some (mapping !! t) \/
   exists name c, (name, c) ∈ es /\ Full.is_dir c = Ok true /\ version_tag name t).
Proof.
  revert mapping. induction es as [|[name n] es IH]; intros mapping; simpl.
  - intros [= ->]. split; [auto|]. intros [H|(name & c & Hin & _)]; [done|inversion Hin].
  - assert (Hskip : forall mapping',
      Full.add_version_dirs p es mapping' = Ok available ->
      (is_Some (mapping' !! t) <-> is_Some (mapping !! t) \/
                                   (Full.is_dir n = Ok true /\ version_tag name t)) ->
      is_Some (available !! t) <->
      is_Some (mapping !! t) \/
      exists name0 c, (name0, c) ∈ (name, n) :: es /\ Full.is_dir c = Ok true /\
                      version_tag name0 t).
    { intros mapping' Hadd Hm. rewrite (IH _ Hadd), Hm. split.
      - intros [[H|[Hd Hv]]|(name0 & c & Hin & H)]; [auto| |].
        + right. exists name, n. split; [left|done].
        + right. exists name0, c. split; [by right|done].
      - intros [H|(name0 & c & [[= -> ->]|Hin]%elem_of_cons & Hd & Hv)]; [auto| |].
        + left. right. done.
        + right. by exists name0, c. }
    destruct (Full.is_dir n) as [[]|e] eqn:Hd; [| |discriminate].
    + destruct (_normalize_version_string name) as [norm|] eqn:Hn.
      * intros Hadd. apply (Hskip _ Hadd). rewrite lookup_insert. case_decide as Ht.
        -- subst norm. apply normalize_version_tag in Hn. split; [auto|by eexists].
        -- split; [auto|]. intros [H|[_ Hv]]; [done|].
           apply normalize_version_tag in Hv. congruence.
      * intros Hadd. apply (Hskip _ Hadd). split; [auto|]. intros [H|[_ Hv]]; [done|].
        apply normalize_version_tag in Hv. congruence.
    + intros Hadd. apply (Hskip _ Hadd). split; [auto|]. by intros [H|[[=] _]].
Qed.

(** X23.  The choice of [_choose_version_dir] when every entry of the mod
    root can be type-tested and the manifest reader has returned.  A tag is
    declared when the pattern gives it to one of the strings read from the
    manifest, and present when it gives it to the name of a sub-directory;
    the folder of a present tag is the last sub-directory with that tag.
    When some declared tag is present, the resolver returns the folder of
    the greatest declared tag that is present; otherwise, when some tag is
    present, the folder of the greatest tag present; otherwise nothing. *)
Theorem choose_version_dir_picks fs mod_root es log supported :
  Full.scandir fs mod_root = Ok es -> forallb Full.testable es = true ->
  Full._parse_supported_versions fs mod_root = (log, Ok supported) ->
  let declared t := exists v, v ∈ supported /\ version_tag v t in
  let present t :=
    exists name c, (name, c) ∈ es /\ Full.is_dir c = Ok true /\ version_tag name t in
  exists r,
    Full._choose_version_dir fs mod_root = (log, Ok r) /\
    ((exists t, declared t /\ present t) ->
     exists t name,
       r = Some (mod_root ++ [name]) /\ version_folder es t name /\ declared t /\
       forall t', declared t' -> present t' -> tag_le t' t) /\
    (~ (exists t, declared t /\ present t) -> (exists t, present t) ->
     exists t name,
       r = Some (mod_root ++ [name]) /\ version_folder es t name /\
       forall t', present t' -> tag_le t' t) /\
    (~ (exists t, present t) -> r = None).
Proof.
  intros Hs Ht Hsup declared present.
  destruct (add_version_dirs_total mod_root es ∅ Ht) as [available Hav].
  destruct (choose_from_resolved supported available) as (r & Hr & Hres).
  exists r. split.
  { unfold Full._choose_version_dir, Full._find_available_version_dirs.
    rewrite Hsup, Hs, Hav. simpl. rewrite Hr. by rewrite !app_nil_r. }
  assert (Hdecl : forall t, t ∈ omap _normalize_version_string supported <-> declared t).
  { intros t. rewrite list_elem_of_omap. unfold declared.
    split; intros (v & Hv & Hn); exists v; (split; [done|]); by apply normalize_version_tag. }
  assert (Hpres : forall t, is_Some (available !! t) <-> present t).
  { intros t. rewrite (add_version_dirs_is_Some _ _ _ _ t Hav), lookup_empty.
    split; [intros [[? [=]]|H]; done|auto]. }
  assert (Hfolder : forall t d, available !! t = Some d ->
                                exists name, d = mod_root ++ [name] /\ version_folder es t name).
  { intros t d. by apply (add_version_dirs_folder _ _ _ Hav). }
  assert (Hcand : (exists t, t ∈ omap _normalize_version_string supported /\
                             is_Some (available !! t)) <->
                  exists t, declared t /\ present t).
  { split; intros (t & H1 & H2); exists t; split;
      try (by apply Hdecl); by apply Hpres. }
  destruct Hres as (Hsome & Hfall & Hnone). split; [|split].
  - intros Hex. destruct (Hsome (proj2 Hcand Hex)) as (t & d & -> & Hd & [Hin _] & Hmax).
    destruct (Hfolder _ _ Hd) as (name & -> & Hf). exists t, name.
    split; [done|]. split; [done|]. split; [by apply Hdecl|].
    intros t' Hd' Hp'. apply Hmax. split; [by apply Hdecl|by apply Hpres].
  - intros Hno [t0 Hp0].
    destruct Hfall as (t & d & -> & Hd & Hmax).
    + intros Hex. by apply Hno, Hcand.
    + intros ->. apply Hpres in Hp0. rewrite lookup_empty in Hp0. by destruct Hp0.
    + destruct (Hfolder _ _ Hd) as (name & -> & Hf). exists t, name.
      split; [done|]. split; [done|]. intros t' Hp'. by apply Hmax, Hpres.
  - intros Hno. apply Hnone.
    + intros (t & _ & Hp). apply Hno. exists t. by apply Hpres.
    + apply map_eq. intros t. rewrite lookup_empty.
      destruct (available !! t) as [d|] eqn:Hd; [|done].
      destruct Hno. exists t. apply Hpres. eauto.
Qed.

Lemma choose_version_dir_picks_witness :
  Full._choose_version_dir (mod_with_manifest false) []
    = ([Parsed ["About"; "About.xml"]], Ok (Some ["1.4"])).
Proof.
  destruct (choose_version_dir_picks (mod_with_manifest false) []
              [("About", Full.Dir true 0
                           [("About.xml",
                             Full.File 5 (Some (lxml_manifest false ["1.4"])))]);
               ("1.3", full_leaf_dir); ("1.4", full_leaf_dir); ("1.5", full_leaf_dir)]
              [Parsed ["About"; "About.xml"]] ["1.4"] eq_refl eq_refl eq_refl)
    as (r & Hr & _).
  rewrite Hr. revert Hr. vm_compute. by intros [= <-].
Defined.

(** ** The two embeddings agree on plain trees *)

Lemma embed_Dir m es : embed (Dir m es) = Full.Dir true m (map embed_entry es).
Proof.
  simpl. f_equal. induction es as [|[name c] es IH]; [done|]. by rewrite IH.
Qed.

Lemma embed_element_children t a x cs :
  embed_element (Element t a x cs) = Full.Element (Some t) a x (map embed_element cs).
Proof. reflexivity. Qed.

Lemma embed_assoc name es :
  Full.assoc name (map embed_entry es) = option_map embed (assoc name es).
Proof.
  induction es as [|[k c] es IH]; [done|]. simpl.
  by destruct (String.eqb k name).
Qed.

Lemma embed_node_at fs p :
  Full.node_at (embed fs) p =
  match node_at fs p with
  | Ok n => Ok (embed n)
  | Raise e => Raise e
  end.
Proof.
  revert fs. induction p as [|name p IH]; intros fs; [done|].
  destruct fs as [m x| |m es]; [done|done|].
  rewrite embed_Dir. simpl. rewrite embed_assoc.
  destruct (assoc name es) as [c|]; [apply IH|done].
Qed.

Lemma embed_scandir fs p :
  Full.scandir (embed fs) p =
  match scandir fs p with
  | Ok es => Ok (map embed_entry es)
  | Raise e => Raise e
  end.
Proof.
  unfold Full.scandir, scandir. rewrite embed_node_at.
  destruct (node_at fs p) as [[m x| |m es]|e]; try done. by rewrite embed_Dir.
Qed.

Lemma embed_is_dir c : Full.is_dir (embed c) = Ok (is_dir c).
Proof. by destruct c. Qed.

Lemma embed_is_file c : Full.is_file (embed c) = Ok (is_file c).
Proof. by destruct c. Qed.

Lemma embed_find_entry parent (full_test : Full.node -> result bool)
    (test : node -> bool) name_test es :
  (forall c, full_test (embed c) = Ok (test c)) ->
  Full.find_entry parent full_test name_test (map embed_entry es) =
  Ok (first_entry parent (fun entry => test (snd entry) && name_test (fst entry)) es).
Proof.
  intros Htest. unfold first_entry.
  induction es as [|[name c] es IH]; [done|]. simpl. rewrite Htest.
  destruct (test c && name_test name); [done|apply IH].
Qed.

Lemma embed_find_case_insensitive_dir fs parent expected :
  Full._find_case_insensitive_dir (embed fs) parent expected =
  _find_case_insensitive_dir fs parent expected.
Proof.
  unfold Full._find_case_insensitive_dir, _find_case_insensitive_dir.
  rewrite embed_scandir. destruct (scandir fs parent) as [es|e]; [|done].
  by rewrite (embed_find_entry parent Full.is_dir is_dir _ es embed_is_dir).
Qed.

Lemma embed_about_xml_path fs p :
  Full._about_xml_path (embed fs) p = _about_xml_path fs p.
Proof.
  unfold Full._about_xml_path, _about_xml_path.
  rewrite embed_find_case_insensitive_dir.
  destruct (_find_case_insensitive_dir fs p "About") as [[d|]|e]; try done.
  rewrite embed_scandir. destruct (scandir fs d) as [es|e]; [|done].
  by rewrite (embed_find_entry d Full.is_file is_file _ es embed_is_file).
Qed.

Lemma element_nested_ind (P : element -> Prop) :
  (forall t a x cs, Forall P cs -> P (Element t a x cs)) -> forall e, P e.
Proof.
  intros H. fix IH 1. intros [t a x cs]. apply H.
  induction cs as [|c cs IHcs]; constructor; [apply IH|apply IHcs].
Qed.

Lemma embed_iter e : Full.iter (embed_element e) = map embed_element (iter e).
Proof.
  induction e as [t a x cs IH] using element_nested_ind.
  rewrite embed_element_children. simpl. f_equal.
  induction IH as [|c cs Hc _ IHcs]; [done|]. simpl.
  by rewrite map_app, Hc, IHcs.
Qed.

Lemma embed_li_texts cs versions :
  Full.li_texts (map embed_element cs) versions = Ok (versions ++ li_texts cs).
Proof.
  revert versions. induction cs as [|[t a x cs'] cs IH]; intros versions; simpl.
  - by rewrite app_nil_r.
  - unfold Full.str_strip_ns.
    destruct (String.eqb (PyStr.lower (_strip_ns t)) "li"); [|apply IH].
    destruct (PyStr.nonempty (PyStr.strip (default "" x))); rewrite IH; [|done].
    by rewrite <- app_assoc.
Qed.

Lemma embed_versions_in l :
  Full.versions_in (map embed_element l) = Ok (versions_in l).
Proof.
  induction l as [|[t a x cs] l IH]; [done|]. simpl. unfold Full.str_strip_ns.
  destruct (String.eqb (PyStr.lower (_strip_ns t)) "supportedversions"); [|apply IH].
  apply embed_li_texts.
Qed.

Lemma embed_parse_supported_versions fs p :
  Full._parse_supported_versions (embed fs) p = _parse_supported_versions fs p.
Proof.
  unfold Full._parse_supported_versions, _parse_supported_versions.
  rewrite embed_about_xml_path.
  destruct (_about_xml_path fs p) as [[a|]|e]; try done.
  cbv [bind lift]. unfold Full.ET_parse, ET_parse. rewrite embed_node_at.
  destruct (node_at fs a) as [[m [root|]| |m es]|e]; try done.
  simpl embed. cbv iota. by rewrite embed_iter, embed_versions_in.
Qed.

Lemma embed_add_version_dirs p es mapping :
  Full.add_version_dirs p (map embed_entry es) mapping =
  Ok (fold_left (add_version_dir p) es mapping).
Proof.
  revert mapping. induction es as [|[name c] es IH]; intros mapping; [done|].
  simpl. rewrite embed_is_dir. unfold add_version_dir at 2. simpl.
  destruct (is_dir c); simpl; [|apply IH].
  destruct (_normalize_version_string name); apply IH.
Qed.

Lemma embed_find_available_version_dirs fs p :
  Full._find_available_version_dirs (embed fs) p = _find_available_version_dirs fs p.
Proof.
  unfold Full._find_available_version_dirs, _find_available_version_dirs.
  rewrite embed_scandir. destruct (scandir fs p) as [es|e]; [|done].
  by rewrite embed_add_version_dirs.
Qed.

Lemma embed_choose_version_dir fs p :
  Full._choose_version_dir (embed fs) p = _choose_version_dir fs p.
Proof.
  unfold Full._choose_version_dir, _choose_version_dir.
  by rewrite embed_parse_supported_versions, embed_find_available_version_dirs.
Qed.

Lemma embed_walks_as_dir c : Full.walks_as_dir (embed c) = is_dir c.
Proof. unfold Full.walks_as_dir. by rewrite embed_is_dir. Qed.

Lemma embed_filter_names (f : node -> bool) (g : Full.node -> bool) es :
  (forall c, g (embed c) = f c) ->
  map fst (List.filter (fun e => g (snd e)) (map embed_entry es)) =
  map fst (List.filter (fun e => f (snd e)) es).
Proof.
  intros Hfg. induction es as [|[name c] es IH]; [done|]. simpl. rewrite Hfg.
  destruct (f c); simpl; by rewrite IH.
Qed.

Lemma embed_walk_node top n : Full.walk_node top (embed n) = walk_node top n.
Proof.
  revert top. induction n as [m x| |m es IH] using node_nested_ind; intros top;
    [done|done|].
  rewrite embed_Dir. simpl. f_equal.
  - f_equal; [f_equal|].
    + apply embed_filter_names, embed_walks_as_dir.
    + apply (embed_filter_names (fun c => negb (is_dir c))
               (fun c => negb (Full.walks_as_dir c))).
      intros c. by rewrite embed_walks_as_dir.
  - induction IH as [|[name c] es Hc _ IHes]; [done|]. simpl.
    by rewrite Hc, IHes.
Qed.

Lemma embed_os_walk fs top : Full.os_walk (embed fs) top = os_walk fs top.
Proof.
  unfold Full.os_walk, os_walk. rewrite embed_node_at.
  destruct (node_at fs top); [apply embed_walk_node|done].
Qed.

Lemma embed_iter_defs_xml_files fs p :
  Full._iter_defs_xml_files (embed fs) p = _iter_defs_xml_files fs p.
Proof.
  unfold Full._iter_defs_xml_files, _iter_defs_xml_files.
  rewrite embed_find_case_insensitive_dir, embed_choose_version_dir.
  destruct (_find_case_insensitive_dir fs p "Defs") as [[d|]|e]; simpl; [| |done].
  - rewrite embed_os_walk.
    destruct (_choose_version_dir fs p) as [l [[v|]|e]]; simpl; try done.
    rewrite embed_find_case_insensitive_dir.
    destruct (_find_case_insensitive_dir fs v "Defs") as [[vd|]|e]; simpl; try done.
    by rewrite embed_os_walk.
  - destruct (_choose_version_dir fs p) as [l [[v|]|e]]; simpl; try done.
    rewrite embed_find_case_insensitive_dir.
    destruct (_find_case_insensitive_dir fs v "Defs") as [[vd|]|e]; simpl; try done.
    by rewrite embed_os_walk.
Qed.

Lemma embed_stat_mtime fs p : Full.stat_mtime (embed fs) p = stat_mtime fs p.
Proof.
  unfold Full.stat_mtime, stat_mtime. rewrite embed_node_at.
  by destruct (node_at fs p) as [[m x| |m es]|e].
Qed.

Lemma embed_signature_of fs files :
  Full.signature_of (embed fs) files = signature_of fs files.
Proof.
  unfold Full.signature_of, signature_of, Full.latest_mtime_of, latest_mtime_of.
  assert (Hfold : forall l z,
    fold_left (Full.newer (embed fs)) l z = fold_left (newer fs) l z).
  { induction l as [|g l IH]; intros z; [done|]. simpl. rewrite IH.
    unfold Full.newer, newer. by rewrite embed_stat_mtime. }
  destruct files as [|f files]; [done|]. by rewrite Hfold.
Qed.

Lemma embed_compute_signature fs p :
  Full._compute_signature (embed fs) p = _compute_signature fs p.
Proof.
  unfold Full._compute_signature, _compute_signature.
  rewrite embed_iter_defs_xml_files.
  destruct (list_of (_iter_defs_xml_files fs p)) as [l [files|e]]; [|done].
  simpl. by rewrite embed_signature_of.
Qed.

Lemma embed_count_children cs counter :
  Full.count_children (map embed_element cs) counter = (count_children cs counter, Ok tt).
Proof.
  unfold count_children. revert counter.
  induction cs as [|[t a x cs'] cs IH]; intros counter; [done|]. simpl.
  unfold Full.str_strip_ns. apply IH.
Qed.

Lemma embed_scan_file fs f st : Full.scan_file (embed fs) f st = scan_file fs f st.
Proof.
  rewrite full_scan_file_step, scan_file_step. f_equal. f_equal.
  unfold Full.scan_step, scan_step, Full.parsed_root, parsed_root.
  rewrite embed_node_at.
  destruct (node_at fs f) as [[m [[t a x cs]|]| |m es]|e]; try done.
  simpl. unfold Full.scan_root, scan_root. simpl. unfold Full.str_strip_ns.
  destruct (String.eqb (PyStr.lower (_strip_ns t)) "defs"); [|done]. simpl.
  by rewrite embed_count_children.
Qed.

Lemma embed_scan_defs fs p : Full._scan_defs (embed fs) p = _scan_defs fs p.
Proof.
  unfold Full._scan_defs, _scan_defs, for_in. rewrite embed_iter_defs_xml_files.
  assert (Hfor : forall evs st,
    for_events evs (Full.scan_file (embed fs)) st = for_events evs (scan_file fs) st).
  { induction evs as [|[q|q] evs IH]; intros st; simpl; [done| |].
    - by rewrite IH.
    - rewrite embed_scan_file. destruct (scan_file fs q st) as [l [st'|e]]; [|done].
      simpl. by rewrite IH. }
  by rewrite Hfor.
Qed.

(** On the embedding of a tree of regular files, directories and dangling
    links whose documents hold elements only, [get_defs_summary] does in
    the second embedding what it does in the first. *)
Lemma get_defs_summary_embed resolve cache fs p :
  Full.get_defs_summary (fun p => Ok (resolve p)) cache (embed fs) p =
  get_defs_summary resolve cache fs p.
Proof.
  unfold Full.get_defs_summary, get_defs_summary, Full.get, get. simpl.
  rewrite embed_compute_signature, embed_scan_defs.
  by destruct (bind (_compute_signature fs p) _).
Qed.
